(** * extrator-de-imagem: the normalisation and rendering pipeline of [main.py]

    A shallow embedding of the four pure functions of [src/main.py]

      - [markdown_inline_to_html]          (lines 21-41)
      - [extract_json_from_model_output]   (lines 44-62)
      - [coerce_to_sections_schema]        (lines 65-90)
      - [build_html_from_sections]         (lines 199-241)

    together with the parts of the Python runtime they call: [str] methods,
    [html.escape], the calls to [re.sub] and [re.search], and the dynamically typed values
    produced by [json.loads].

    Python strings are sequences of Unicode code points, so a string is a list
    of code points here; the bullet glyph U+2022 and the Unicode white space
    recognised by [str.strip] and by the regular expression class [\s] are
    then what they are in Python. *)

From Stdlib Require Import String Ascii NArith ZArith Bool Lia List.
Import ListNotations.

Set Warnings "-register-all".

(* ------------------------------------------------------------------ *)
(** ** Python strings *)

Module PyStr.

Definition char := N.
Definition pystr := list char.

(** An ASCII literal as a Python string. *)
Definition lit (s : string) : pystr :=
  List.map N_of_ascii (list_ascii_of_string s).

Definition chr_amp : char := 38%N.      (* & *)
Definition chr_lt : char := 60%N.       (* < *)
Definition chr_gt : char := 62%N.       (* > *)
Definition chr_quot : char := 34%N.     (* double quote *)
Definition chr_apos : char := 39%N.     (* ' *)
Definition chr_star : char := 42%N.     (* * *)
Definition chr_nl : char := 10%N.       (* \n *)
Definition chr_bullet : char := 8226%N. (* U+2022 *)

Fixpoint eqb (a b : pystr) : bool :=
  match a, b with
  | [], [] => true
  | x :: a', y :: b' => N.eqb x y && eqb a' b'
  | _, _ => false
  end.

(** [str.isspace] on one code point, which is also the class [\s] of [re]
    on [str] patterns: both go through [Py_UNICODE_ISSPACE]. *)
Definition isspace (c : char) : bool :=
  ((9 <=? c) && (c <=? 13) || (28 <=? c) && (c <=? 32)
   || (c =? 133) || (c =? 160) || (c =? 5760)
   || (8192 <=? c) && (c <=? 8202)
   || (c =? 8232) || (c =? 8233) || (c =? 8239) || (c =? 8287)
   || (c =? 12288))%N.

Fixpoint dropwhile (p : char -> bool) (s : pystr) : pystr :=
  match s with
  | [] => []
  | c :: s' => if p c then dropwhile p s' else s
  end.

Definition lstrip (s : pystr) : pystr := dropwhile isspace s.
Definition rstrip (s : pystr) : pystr := rev (dropwhile isspace (rev s)).

(** [s.strip()] *)
Definition strip (s : pystr) : pystr := rstrip (lstrip s).

(** [strip_prefix p s] is [Some r] when [s = p ++ r]. *)
Fixpoint strip_prefix (p s : pystr) : option pystr :=
  match p with
  | [] => Some s
  | x :: p' =>
      match s with
      | [] => None
      | y :: s' => if N.eqb x y then strip_prefix p' s' else None
      end
  end.

(** [s.startswith(p)] *)
Definition startswith (p s : pystr) : bool :=
  match strip_prefix p s with Some _ => true | None => false end.

(** [s.find(sub)]: the lowest index at which [sub] occurs, or -1. *)
Fixpoint find_from (sub s : pystr) (i : Z) : Z :=
  if startswith sub s then i
  else match s with
       | [] => (-1)%Z
       | _ :: s' => find_from sub s' (i + 1)%Z
       end.

Definition find (sub s : pystr) : Z := find_from sub s 0%Z.

(** [s.rfind(sub)]: the highest index at which [sub] occurs, or -1. *)
Fixpoint rfind_from (sub s : pystr) (i : Z) : Z :=
  match s with
  | [] => if startswith sub s then i else (-1)%Z
  | _ :: s' =>
      let r := rfind_from sub s' (i + 1)%Z in
      if (0 <=? r)%Z then r
      else if startswith sub s then i else (-1)%Z
  end.

Definition rfind (sub s : pystr) : Z := rfind_from sub s 0%Z.

(** A slice bound as [PySlice_AdjustIndices] clamps it (step 1): a negative
    bound counts from the end, and every bound is clamped into [0, len]. *)
Definition adjust_index (len i : Z) : Z :=
  if (i <? 0)%Z then Z.max 0 (i + len) else Z.min i len.

(** [s[a:b]] *)
Definition slice (s : pystr) (a b : Z) : pystr :=
  let len := Z.of_nat (length s) in
  let a' := adjust_index len a in
  let b' := adjust_index len b in
  firstn (Z.to_nat (b' - a')) (skipn (Z.to_nat a') s).

(** [sep.join(xs)] *)
Fixpoint join (sep : pystr) (xs : list pystr) : pystr :=
  match xs with
  | [] => []
  | [x] => x
  | x :: rest => x ++ sep ++ join sep rest
  end.

(** [s.replace(old, new)] for a one-character [old]. *)
Definition replace (old : char) (new : pystr) (s : pystr) : pystr :=
  flat_map (fun c => if N.eqb c old then new else [c]) s.

(** [html.escape(s)] with its default [quote=True]: five successive
    [replace] calls, the ampersand first. *)
Definition escape (s : pystr) : pystr :=
  let s := replace chr_amp (lit "&amp;") s in
  let s := replace chr_lt (lit "&lt;") s in
  let s := replace chr_gt (lit "&gt;") s in
  let s := replace chr_quot (lit "&quot;") s in
  replace chr_apos (lit "&#x27;") s.

End PyStr.
Import PyStr.

(* ------------------------------------------------------------------ *)
(** ** Regular expressions

    The fragment of [re] that the program's five patterns use, with the
    backtracking semantics of the library: alternatives are tried in
    priority order, and a later failure resumes the most recent choice.
    A quantifier only ever ranges over a character class here, so the
    matcher is structurally recursive. *)

Module Re.

Inductive regex :=
| Lit (l : pystr)               (* a literal string *)
| Cls (p : char -> bool)        (* one character of a class *)
| Star (p : char -> bool)       (* greedy  [p*]  *)
| StarLazy (p : char -> bool)   (* lazy    [p*?] *)
| Opt (r : regex)               (* greedy  [r?]  *)
| Cat (r1 r2 : regex).

(** [\s], [[\s\S]] and [.] (no DOTALL flag: everything but a newline). *)
Definition space : char -> bool := isspace.
Definition any : char -> bool := fun _ => true.
Definition dot : char -> bool := fun c => negb (N.eqb c chr_nl).

(** [p+?] *)
Definition PlusLazy (p : char -> bool) : regex := Cat (Cls p) (StarLazy p).

Section Matcher.
Context {A : Type}.

(** Greedy star: take a character when possible, fall back to stopping. *)
Fixpoint star_greedy (p : char -> bool) (k : pystr -> option A)
    (s : pystr) : option A :=
  match s with
  | c :: s' =>
      if p c then
        match star_greedy p k s' with
        | Some x => Some x
        | None => k s
        end
      else k s
  | [] => k s
  end.

(** Lazy star: stop when the rest matches, else take one more character. *)
Fixpoint star_lazy (p : char -> bool) (k : pystr -> option A)
    (s : pystr) : option A :=
  match k s with
  | Some x => Some x
  | None =>
      match s with
      | c :: s' => if p c then star_lazy p k s' else None
      | [] => None
      end
  end.

(** [rmatch r s k]: match [r] at the start of [s], then [k] on the rest. *)
Fixpoint rmatch (r : regex) (s : pystr) (k : pystr -> option A)
    : option A :=
  match r with
  | Lit l =>
      match strip_prefix l s with
      | Some s' => k s'
      | None => None
      end
  | Cls p =>
      match s with
      | c :: s' => if p c then k s' else None
      | [] => None
      end
  | Star p => star_greedy p k s
  | StarLazy p => star_lazy p k s
  | Opt r1 =>
      match rmatch r1 s k with
      | Some x => Some x
      | None => k s
      end
  | Cat r1 r2 => rmatch r1 s (fun s' => rmatch r2 s' k)
  end.
End Matcher.

(** A pattern with one capture group: [pre (grp) post]. *)
Record pattern := Pattern { pre : regex; grp : regex; post : regex }.

(** [match_at pat s]: the pattern matched at the start of [s]; the result
    is the text of group 1 and the text after the match. *)
Definition match_at (pat : pattern) (s : pystr) : option (pystr * pystr) :=
  rmatch (pre pat) s (fun s1 =>
    rmatch (grp pat) s1 (fun s2 =>
      rmatch (post pat) s2 (fun s3 =>
        Some (firstn (length s1 - length s2) s1, s3)))).

(** [re.search(pat, s)]: the leftmost match; [.group(1)] of it. *)
Fixpoint search (pat : pattern) (s : pystr) : option pystr :=
  match match_at pat s with
  | Some (g, _) => Some g
  | None =>
      match s with
      | [] => None
      | _ :: s' => search pat s'
      end
  end.

(** [re.sub(pat, repl, s)] for a pattern that matches no empty string and a
    template [repl] that is a function of group 1: scan from the left,
    replace a match and resume after it, else keep one character. *)
Fixpoint sub_fuel (fuel : nat) (pat : pattern) (repl : pystr -> pystr)
    (s : pystr) : pystr :=
  match fuel with
  | O => s
  | S fuel' =>
      match s with
      | [] => []
      | c :: s' =>
          match match_at pat s with
          | Some (g, rest) => repl g ++ sub_fuel fuel' pat repl rest
          | None => c :: sub_fuel fuel' pat repl s'
          end
      end
  end.

Definition sub (pat : pattern) (repl : pystr -> pystr) (s : pystr) : pystr :=
  sub_fuel (length s) pat repl s.

(** [re.sub("^" + pat, "", s)] without MULTILINE: the anchor holds at index
    0 only, so at most the match at the start is removed. *)
Definition sub_anchored_delete (r : regex) (s : pystr) : pystr :=
  match rmatch r s (fun rest => Some rest) with
  | Some rest => rest
  | None => s
  end.

End Re.
Import Re.

(* ------------------------------------------------------------------ *)
(** ** Python values as [json.loads] produces them *)

(** A [float] by the decimal literal it was read from, [m * 10^e], or one
    of the three special values [json.loads] accepts. The program only ever
    asks a float for its truth value. *)
Inductive pyfloat :=
| FDec (m e : Z)
| FInf (negative : bool)
| FNaN.

Inductive json :=
| JNull
| JBool (b : bool)
| JInt (z : Z)
| JFloat (f : pyfloat)
| JString (s : pystr)
| JArray (xs : list json)
| JObject (kvs : list (pystr * json)).

(** The exceptions the four functions and [json.loads] can raise.
    [JSONDecodeError] carries its [msg], [doc] and [pos] attributes. *)
Inductive exn :=
| TypeError
| AttributeError
| KeyError
| ValueError
| RecursionError
| JSONDecodeError (msg doc : pystr) (pos : nat).

Inductive result (A : Type) :=
| Ok (a : A)
| Raise (e : exn).
Arguments Ok {A} a.
Arguments Raise {A} e.

Definition bind {A B} (m : result A) (f : A -> result B) : result B :=
  match m with
  | Ok a => f a
  | Raise e => Raise e
  end.

Notation "x <- m ;; k" := (bind m (fun x => k))
  (at level 61, m at next level, right associativity).

(** A loop body run over a list from left to right, collecting the results
    and stopping at the first exception. *)
Fixpoint mapM {A B} (f : A -> result B) (xs : list A) : result (list B) :=
  match xs with
  | [] => Ok []
  | x :: xs' => y <- f x ;; ys <- mapM f xs' ;; Ok (y :: ys)
  end.

(** A loop threading a state from left to right. *)
Fixpoint foldM {A S} (f : S -> A -> result S) (xs : list A) (st : S)
    : result S :=
  match xs with
  | [] => Ok st
  | x :: xs' => st' <- f st x ;; foldM f xs' st'
  end.

Module PyVal.

(** A float literal denotes a non-zero double unless it is zero or rounds
    to zero, that is unless its magnitude is at most [2^-1075]. *)
Definition float_nonzero (f : pyfloat) : bool :=
  match f with
  | FDec m e =>
      negb (m =? 0)%Z &&
      ((0 <=? e)%Z || (10 ^ (- e) <? Z.abs m * 2 ^ 1075)%Z)
  | FInf _ => true
  | FNaN => true
  end.

(** Truth value testing: [bool(v)]. *)
Definition truthy (v : json) : bool :=
  match v with
  | JNull => false
  | JBool b => b
  | JInt z => negb (z =? 0)%Z
  | JFloat f => float_nonzero f
  | JString s => match s with [] => false | _ => true end
  | JArray xs => match xs with [] => false | _ => true end
  | JObject kvs => match kvs with [] => false | _ => true end
  end.

(** [a or b] *)
Definition py_or (a b : json) : json := if truthy a then a else b.

(** [isinstance(v, dict)] *)
Definition is_dict (v : json) : bool :=
  match v with JObject _ => true | _ => false end.

(** [v is None] *)
Definition is_none (v : json) : bool :=
  match v with JNull => true | _ => false end.

(** [v == s] for a string [s]. *)
Definition eq_str (v : json) (s : pystr) : bool :=
  match v with JString t => PyStr.eqb t s | _ => false end.

(** A [dict] keeps its keys in insertion order, one entry per key. *)
Definition dict := list (pystr * json).

Fixpoint lookup (k : pystr) (d : dict) : option json :=
  match d with
  | [] => None
  | (k', v) :: d' => if PyStr.eqb k' k then Some v else lookup k d'
  end.

(** [k in d] *)
Definition contains (k : pystr) (d : dict) : bool :=
  match lookup k d with Some _ => true | None => false end.

(** [d.get(k, default)] and [d.get(k)] *)
Definition get_default (k : pystr) (default : json) (d : dict) : json :=
  match lookup k d with Some v => v | None => default end.

Definition get (k : pystr) (d : dict) : json := get_default k JNull d.

(** [d[k] = v]: overwrite in place, or append a new key. *)
Fixpoint set (k : pystr) (v : json) (d : dict) : dict :=
  match d with
  | [] => [(k, v)]
  | (k', v') :: d' =>
      if PyStr.eqb k' k then (k', v) :: d' else (k', v') :: set k v d'
  end.

(** What a [for] loop iterates over: the elements of a list, the
    characters of a string, the keys of a dict; anything else that
    [json.loads] can produce is not iterable. *)
Definition iter (v : json) : result (list json) :=
  match v with
  | JArray xs => Ok xs
  | JString s => Ok (List.map (fun c => JString [c]) s)
  | JObject kvs => Ok (List.map (fun kv => JString (fst kv)) kvs)
  | _ => Raise TypeError
  end.

(** [v.get(k, default)] on an arbitrary value: only a dict has [get]. *)
Definition attr_get (v : json) (k : pystr) (default : json) : result json :=
  match v with
  | JObject kvs => Ok (get_default k default kvs)
  | _ => Raise AttributeError
  end.

(** [v[k]] for a string [k]: a dict is looked up, a list or a string wants
    an integer index, and nothing else is subscriptable. *)
Definition getitem (v : json) (k : pystr) : result json :=
  match v with
  | JObject kvs =>
      match lookup k kvs with Some x => Ok x | None => Raise KeyError end
  | _ => Raise TypeError
  end.

(** [v in {"h1", "h2", "h3"}]: the value is hashed first, and a list or a
    dict is unhashable. *)
Definition in_str_set (v : json) (ss : list pystr) : result bool :=
  match v with
  | JArray _ | JObject _ => Raise TypeError
  | _ => Ok (existsb (eq_str v) ss)
  end.

End PyVal.
Import PyVal.

(* ------------------------------------------------------------------ *)
(** ** [markdown_inline_to_html] (main.py, lines 21-41) *)

(** [\*\*\*(.+?)\*\*\*], [\*\*(.+?)\*\*] and [\*(.+?)\*]: the same shape
    with a delimiter of three, two and one asterisks. *)
Definition delimited (d : pystr) : pattern :=
  Pattern (Lit d) (PlusLazy dot) (Lit d).

(** The templates [<strong><em>\1</em></strong>], [<strong>\1</strong>]
    and [<em>\1</em>]. *)
Definition wrap (opening closing : pystr) (g : pystr) : pystr :=
  opening ++ g ++ closing.

Definition sub_bold_italic : pystr -> pystr :=
  sub (delimited (lit "***")) (wrap (lit "<strong><em>") (lit "</em></strong>")).
Definition sub_bold : pystr -> pystr :=
  sub (delimited (lit "**")) (wrap (lit "<strong>") (lit "</strong>")).
Definition sub_italic : pystr -> pystr :=
  sub (delimited (lit "*")) (wrap (lit "<em>") (lit "</em>")).

(** Lines 30-41, what the function does to a string. *)
Definition inline_html (text : pystr) : pystr :=
  let s := escape text in
  let s := sub_bold_italic s in
  let s := sub_bold s in
  let s := sub_italic s in
  s.

(** The argument is whatever the caller read out of the document: [None]
    gives the empty string, a string is converted, and any other value has
    no [replace] method for [escape] to call. *)
Definition markdown_inline_to_html (text : json) : result pystr :=
  match text with
  | JNull => Ok []
  | JString t => Ok (inline_html t)
  | _ => Raise AttributeError
  end.

(* ------------------------------------------------------------------ *)
(** ** [extract_json_from_model_output] (main.py, lines 44-62) *)

(** The fence pattern, three backquotes, [(?:json)?\s*([\s\S]*?)\s*], three
    backquotes. *)
Definition fence_mark : pystr := lit "```".

Definition fence_pattern : pattern :=
  Pattern (Cat (Lit fence_mark) (Cat (Opt (Lit (lit "json"))) (Star space)))
          (StarLazy any)
          (Cat (Star space) (Lit fence_mark)).

(** Lines 49-60: the substring handed to [json.loads]. *)
Definition candidate (text : pystr) : pystr :=
  let s := strip text in
  match search fence_pattern s with
  | Some g => strip g
  | None =>
      if startswith (lit "[") s then
        let a := find (lit "[") s in
        let b := rfind (lit "]") s in
        slice s a (b + 1)
      else
        let a := find (lit "{") s in
        let b := rfind (lit "}") s in
        slice s a (b + 1)
  end.

Section Extract.

(** [json.loads] belongs to the standard library, not to the program:
    it is a parameter. On success it gives the decoded value; on failure
    it raises [JSONDecodeError(msg, doc, pos)] whose [doc] is the string
    it was given, so the failure is described by [msg] and [pos]. The
    other exceptions of the decoder are those of [JsonLib] below, and
    [extract_json_with] is the extractor over a decoder that raises
    them. *)
Variable json_loads : pystr -> json + (pystr * nat).

Definition loads (s : pystr) : result json :=
  match json_loads s with
  | inl v => Ok v
  | inr (msg, pos) => Raise (JSONDecodeError msg s pos)
  end.

(** [text] is [None] or a string, as [analyze_text_formatting] reads it
    from the response. *)
Definition extract_json_from_model_output (text : option pystr)
    : result json :=
  match text with
  | None | Some [] => Raise (JSONDecodeError (lit "empty") [] 0)
  | Some t => loads (candidate t)
  end.

End Extract.

(* ------------------------------------------------------------------ *)
(** ** [coerce_to_sections_schema] (main.py, lines 65-90) *)

Definition k_sections : pystr := lit "sections".
Definition k_items : pystr := lit "items".
Definition k_text : pystr := lit "text".
Definition k_content : pystr := lit "content".
Definition k_type : pystr := lit "type".
Definition k_heading : pystr := lit "heading".

(** Lines 71-72, the body of the inner loop: [it] is updated in place. *)
Definition patch_item (it : json) : result json :=
  match it with
  | JObject d =>
      if is_none (get k_text d) && negb (is_none (get k_content d))
      then Ok (JObject (set k_text (get k_content d) d))
      else Ok it
  | _ => Raise AttributeError
  end.

(** Lines 70-72, the inner loop over [sec.get("items", [])]. The items are
    the objects the section holds, so the section sees their updates. *)
Definition patch_section (sec : json) : result json :=
  v <- attr_get sec k_items (JArray []) ;;
  its <- iter v ;;
  its' <- mapM patch_item its ;;
  match sec, v with
  | JObject d, JArray _ =>
      if contains k_items d then Ok (JObject (set k_items (JArray its') d))
      else Ok sec
  | _, _ => Ok sec
  end.

(** Lines 78-81, the body of the loop that builds [items]. *)
Definition build_item (items : list json) (it : json) : list json :=
  match it with
  | JObject d =>
      let txt := py_or (get k_text d) (py_or (get k_content d) (JString [])) in
      items ++ [JObject [(k_type, py_or (get k_type d) (JString (lit "p")));
                         (k_text, txt)]]
  | _ => items
  end.

Definition heading_tags : list pystr := [lit "h1"; lit "h2"; lit "h3"].

(** Lines 83-86: a leading heading-like item becomes the heading. *)
Definition promote_heading (items : list json) : result (json * list json) :=
  match items with
  | [] => Ok (JString [], items)
  | first :: rest =>
      t <- getitem first k_type ;;
      b <- in_str_set t heading_tags ;;
      if b then
        h <- getitem first k_text ;; Ok (h, rest)
      else Ok (JString [], items)
  end.

Definition empty_document : json := JObject [(k_sections, JArray [])].

Definition coerce_to_sections_schema (data : json) : result json :=
  match data with
  | JObject d =>
      match lookup k_sections d with
      | Some secs =>
          xs <- iter secs ;;
          xs' <- mapM patch_section xs ;;
          match secs with
          | JArray _ => Ok (JObject (set k_sections (JArray xs') d))
          | _ => Ok data
          end
      | None => Ok empty_document
      end
  | JArray elems =>
      let items := fold_left build_item elems [] in
      hr <- promote_heading items ;;
      let '(heading, items) := hr in
      Ok (JObject [(k_sections,
           JArray [JObject [(k_heading, heading);
                            (k_type, JString (lit "h2"));
                            (k_items, JArray items)]])])
  | _ => Ok empty_document
  end.

(* ------------------------------------------------------------------ *)
(** ** [build_html_from_sections] (main.py, lines 199-241) *)

(** [^\s*•\s*], the bullet glyph being U+2022. *)
Definition bullet_regex : regex :=
  Cat (Star space) (Cat (Cls (N.eqb chr_bullet)) (Star space)).

Definition p_block (text : pystr) : pystr :=
  lit "<p>" ++ text ++ lit "</p>".
Definition heading_block (heading : pystr) : pystr :=
  lit "<p><strong>" ++ heading ++ lit "</strong></p>".
Definition li_block (cleaned : pystr) : pystr :=
  lit "<li>" ++ cleaned ++ lit "</li>".
Definition error_html : pystr := lit "<p>Erro ao processar dados</p>".

(** The state of the loops: the list [html] of emitted blocks and the
    [buffer] of pending list items. *)
Definition render_state := (list pystr * list pystr)%type.

(** Lines 215-222, the closure [flush]. *)
Definition flush (st : render_state) : render_state :=
  let '(html, buffer) := st in
  match buffer with
  | [] => st
  | _ => (html ++ [lit "<ul>"] ++ buffer ++ [lit "</ul>"], [])
  end.

(** Line 231: the text of a list item without its bullet. *)
Definition clean_bullet (text : pystr) : pystr :=
  strip (sub_anchored_delete bullet_regex text).

(** Lines 225-236, the body of the loop over the items. *)
Definition render_item (st : render_state) (item : json)
    : result render_state :=
  raw <- attr_get item k_text (JString []) ;;
  let raw_text := py_or raw (JString []) in
  text <- markdown_inline_to_html raw_text ;;
  t <- attr_get item k_type (JString (lit "p")) ;;
  if eq_str t (lit "li") then
    let '(html, buffer) := st in
    Ok (html, buffer ++ [li_block (clean_bullet text)])
  else
    let '(html, _) := flush st in
    Ok (html ++ [p_block text], []).

(** Lines 213-239: the loop over the items of one section, from an empty
    buffer, and the flush that follows it. *)
Definition render_items (html : list pystr) (items : list json)
    : result (list pystr) :=
  st <- foldM render_item items (html, []) ;;
  Ok (fst (flush st)).

(** Lines 206-239, the body of the loop over the sections. *)
Definition render_section (html : list pystr) (section : json)
    : result (list pystr) :=
  h <- attr_get section k_heading (JString []) ;;
  heading <- markdown_inline_to_html h ;;
  let html := match heading with
              | [] => html
              | _ => html ++ [heading_block heading]
              end in
  v <- attr_get section k_items (JArray []) ;;
  items <- iter v ;;
  render_items html items.

(** [k in v] for a string [k] and a truthy [v]. *)
Definition py_contains_str (k : pystr) (v : json) : result bool :=
  match v with
  | JObject d => Ok (contains k d)
  | JArray xs => Ok (existsb (fun x => eq_str x k) xs)
  | JString s => Ok (0 <=? find k s)%Z
  | _ => Raise TypeError
  end.

Definition build_html_from_sections (data : json) : result pystr :=
  if negb (truthy data) then Ok error_html
  else
    present <- py_contains_str k_sections data ;;
    if negb present then Ok error_html
    else
      secs <- getitem data k_sections ;;
      sections <- iter secs ;;
      html <- foldM render_section sections [] ;;
      Ok (join [chr_nl] html).

(* ------------------------------------------------------------------ *)
(** ** The canonical document

    The document the renderer is written for, as a typed value, and its
    encoding as the Python value the program passes around. *)

Record Item := { item_text : pystr; item_type : pystr }.
Record Section := { sec_heading : pystr; sec_items : list Item }.
Definition Document := list Section.

Definition json_of_item (it : Item) : json :=
  JObject [(k_text, JString (item_text it)); (k_type, JString (item_type it))].

Definition json_of_section (sec : Section) : json :=
  JObject [(k_heading, JString (sec_heading sec));
           (k_type, JString (lit "h2"));
           (k_items, JArray (List.map json_of_item (sec_items sec)))].

Definition json_of_document (doc : Document) : json :=
  JObject [(k_sections, JArray (List.map json_of_section doc))].

(** A value is a document when it is an object whose [sections] is a list. *)
Definition is_document (v : json) : bool :=
  match v with
  | JObject d =>
      match lookup k_sections d with
      | Some (JArray _) => true
      | _ => false
      end
  | _ => false
  end.

(** *** The blocks of a section, by maximal runs *)

Definition is_li (it : Item) : bool := PyStr.eqb (item_type it) (lit "li").

Inductive group :=
| GList (run : list Item)   (* a maximal run of list items *)
| GPara (it : Item).        (* any other item *)

Fixpoint groups (items : list Item) : list group :=
  match items with
  | [] => []
  | it :: rest =>
      if is_li it then
        match groups rest with
        | GList run :: gs => GList (it :: run) :: gs
        | gs => GList [it] :: gs
        end
      else GPara it :: groups rest
  end.

Definition li_of (it : Item) : pystr :=
  li_block (clean_bullet (inline_html (item_text it))).
Definition p_of (it : Item) : pystr :=
  p_block (inline_html (item_text it)).

Definition list_block (run : list Item) : list pystr :=
  [lit "<ul>"] ++ List.map li_of run ++ [lit "</ul>"].

Definition group_blocks (g : group) : list pystr :=
  match g with
  | GList run => list_block run
  | GPara it => [p_of it]
  end.

Definition item_blocks (items : list Item) : list pystr :=
  flat_map group_blocks (groups items).

(** Whether the items begin with a list item. *)
Definition head_is_li (items : list Item) : bool :=
  match items with
  | it :: _ => is_li it
  | [] => false
  end.

Definition heading_blocks (heading : pystr) : list pystr :=
  match inline_html heading with
  | [] => []
  | h => [heading_block h]
  end.

Definition section_blocks (sec : Section) : list pystr :=
  heading_blocks (sec_heading sec) ++ item_blocks (sec_items sec).

Definition document_blocks (doc : Document) : list pystr :=
  flat_map section_blocks doc.

(** Every block followed by a newline, as one string. *)
Definition newline_terminated (blocks : list pystr) : pystr :=
  flat_map (fun b => b ++ [chr_nl]) blocks.

(** *** Markup introduced by the converter *)

Definition converter_tags : list pystr :=
  [lit "<strong>"; lit "</strong>"; lit "<em>"; lit "</em>"].

(** A string in which every angle bracket belongs to one of the
    converter's own tags: it is made of characters other than [<] and [>]
    and of whole converter tags. *)
Inductive tagged : pystr -> Prop :=
| tagged_nil : tagged []
| tagged_char c s :
    c <> chr_lt -> c <> chr_gt -> tagged s -> tagged (c :: s)
| tagged_tag t s :
    In t converter_tags -> tagged s -> tagged (t ++ s).

(* ------------------------------------------------------------------ *)
(** ** A decoder to instantiate [json_loads] with

    The statements about [extract_json_from_model_output] hold for any
    decoder. To evaluate them on concrete texts, here is a recursive-descent
    decoder for the JSON grammar, in the manner of [json.loads]: a duplicate
    key keeps its last value, a number with a fraction or an exponent is a
    float, control characters are refused inside strings. *)

Module RefDecoder.

Definition is_ws (c : char) : bool :=
  ((c =? 32) || (c =? 9) || (c =? 10) || (c =? 13))%N.
Definition skip_ws : pystr -> pystr := dropwhile is_ws.

Definition is_digit (c : char) : bool := ((48 <=? c) && (c <=? 57))%N.

(** A run of decimal digits: its value on top of [acc], its length, the
    rest. *)
Fixpoint digits (s : pystr) (acc : Z) (n : nat) : Z * nat * pystr :=
  match s with
  | c :: s' =>
      if is_digit c then digits s' (10 * acc + Z.of_N (c - 48))%Z (S n)
      else (acc, n, s)
  | [] => (acc, n, s)
  end.

Definition hex_val (c : char) : option N :=
  if is_digit c then Some (c - 48)%N
  else if ((97 <=? c) && (c <=? 102))%N then Some (c - 87)%N
  else if ((65 <=? c) && (c <=? 70))%N then Some (c - 55)%N
  else None.

Definition hex4 (s : pystr) : option (N * pystr) :=
  match s with
  | a :: b :: c :: d :: r =>
      match hex_val a, hex_val b, hex_val c, hex_val d with
      | Some a, Some b, Some c, Some d =>
          Some (((a * 16 + b) * 16 + c) * 16 + d, r)%N
      | _, _, _, _ => None
      end
  | _ => None
  end.

(** The characters of a string literal after its opening quote. *)
Fixpoint string_body (fuel : nat) (s : pystr) : option (pystr * pystr) :=
  match fuel with
  | O => None
  | S f =>
      match s with
      | [] => None
      | 34%N :: r => Some ([], r)
      | 92%N :: e :: r =>
          let simple (c : char) :=
            match string_body f r with
            | Some (t, r') => Some (c :: t, r')
            | None => None
            end in
          match e with
          | 34%N => simple 34%N
          | 92%N => simple 92%N
          | 47%N => simple 47%N
          | 98%N => simple 8%N
          | 102%N => simple 12%N
          | 110%N => simple 10%N
          | 114%N => simple 13%N
          | 116%N => simple 9%N
          | 117%N =>
              match hex4 r with
              | Some (u, r1) =>
                  let plain :=
                    match string_body f r1 with
                    | Some (t, r') => Some (u :: t, r')
                    | None => None
                    end in
                  if ((55296 <=? u) && (u <=? 56319))%N then
                    match r1 with
                    | 92%N :: 117%N :: r2 =>
                        match hex4 r2 with
                        | Some (l, r3) =>
                            if ((56320 <=? l) && (l <=? 57343))%N then
                              match string_body f r3 with
                              | Some (t, r') =>
                                  Some ((65536 + (u - 55296) * 1024
                                         + (l - 56320))%N :: t, r')
                              | None => None
                              end
                            else plain
                        | None => plain
                        end
                    | _ => plain
                    end
                  else plain
              | None => None
              end
          | _ => None
          end
      | c :: r =>
          if (c <? 32)%N then None
          else
            match string_body f r with
            | Some (t, r') => Some (c :: t, r')
            | None => None
            end
      end
  end.

(** An optional minus sign, an integer part without a leading zero, an
    optional fraction, an optional exponent. *)
Definition number (s : pystr) : option (json * pystr) :=
  let '(neg, s1) :=
    match s with 45%N :: r => (true, r) | _ => (false, s) end in
  let int_part :=
    match s1 with
    | 48%N :: r => Some (0%Z, r)
    | c :: _ =>
        if is_digit c then
          let '(v, _, r) := digits s1 0%Z O in Some (v, r)
        else None
    | [] => None
    end in
  match int_part with
  | None => None
  | Some (i, s2) =>
      let '(m, scale, s3, has_frac) :=
        match s2 with
        | 46%N :: c :: r =>
            if is_digit c then
              let '(v, n, r') := digits (c :: r) i O in
              (v, Z.of_nat n, r', true)
            else (i, 0%Z, s2, false)
        | _ => (i, 0%Z, s2, false)
        end in
      let exp_digits (sign : Z) (r : pystr) :=
        match r with
        | c :: _ =>
            if is_digit c then
              let '(v, _, r') := digits r 0%Z O in Some ((sign * v)%Z, r')
            else None
        | [] => None
        end in
      let exponent :=
        match s3 with
        | c :: r =>
            if ((c =? 101) || (c =? 69))%N then
              match r with
              | 43%N :: r' => exp_digits 1%Z r'
              | 45%N :: r' => exp_digits (-1)%Z r'
              | _ => exp_digits 1%Z r
              end
            else None
        | [] => None
        end in
      let signed (v : Z) := if neg then (- v)%Z else v in
      match exponent with
      | Some (e, s4) => Some (JFloat (FDec (signed m) (e - scale)), s4)
      | None =>
          if has_frac then Some (JFloat (FDec (signed m) (- scale)), s3)
          else Some (JInt (signed i), s3)
      end
  end.

Definition keyword (k : string) (v : json) (s : pystr)
    : option (json * pystr) :=
  match strip_prefix (lit k) s with
  | Some r => Some (v, r)
  | None => None
  end.

Definition first_of {A} (a b : option A) : option A :=
  match a with Some _ => a | None => b end.

Fixpoint value (fuel : nat) (s : pystr) : option (json * pystr) :=
  match fuel with
  | O => None
  | S f =>
      match s with
      | 34%N :: r =>
          match string_body (List.length r) r with
          | Some (t, r') => Some (JString t, r')
          | None => None
          end
      | 91%N :: r =>
          match skip_ws r with
          | 93%N :: r' => Some (JArray [], r')
          | r' =>
              match elements f r' with
              | Some (xs, r'') => Some (JArray xs, r'')
              | None => None
              end
          end
      | 123%N :: r =>
          match skip_ws r with
          | 125%N :: r' => Some (JObject [], r')
          | r' =>
              match members f r' [] with
              | Some (d, r'') => Some (JObject d, r'')
              | None => None
              end
          end
      | _ =>
          first_of (keyword "null" JNull s)
         (first_of (keyword "true" (JBool true) s)
         (first_of (keyword "false" (JBool false) s)
         (first_of (keyword "NaN" (JFloat FNaN) s)
         (first_of (keyword "Infinity" (JFloat (FInf false)) s)
         (first_of (keyword "-Infinity" (JFloat (FInf true)) s)
                   (number s))))))
      end
  end

(** The elements of an array after its opening bracket, up to and
    including the closing one. *)
with elements (fuel : nat) (s : pystr) : option (list json * pystr) :=
  match fuel with
  | O => None
  | S f =>
      match value f s with
      | Some (v, r) =>
          match skip_ws r with
          | 93%N :: r' => Some ([v], r')
          | 44%N :: r' =>
              match elements f (skip_ws r') with
              | Some (vs, r'') => Some (v :: vs, r'')
              | None => None
              end
          | _ => None
          end
      | None => None
      end
  end

(** The members of an object after its opening brace, added to [acc]. *)
with members (fuel : nat) (s : pystr) (acc : dict) : option (dict * pystr) :=
  match fuel with
  | O => None
  | S f =>
      match s with
      | 34%N :: r =>
          match string_body (List.length r) r with
          | Some (k, r1) =>
              match skip_ws r1 with
              | 58%N :: r2 =>
                  match value f (skip_ws r2) with
                  | Some (v, r3) =>
                      let acc' := PyVal.set k v acc in
                      match skip_ws r3 with
                      | 125%N :: r4 => Some (acc', r4)
                      | 44%N :: r4 => members f (skip_ws r4) acc'
                      | _ => None
                      end
                  | None => None
                  end
              | _ => None
              end
          | None => None
          end
      | _ => None
      end
  end.

Definition decode (s : pystr) : option json :=
  match value (2 * List.length s + 2) (skip_ws s) with
  | Some (v, r) => match skip_ws r with [] => Some v | _ => None end
  | None => None
  end.

(** As a [json_loads]: the failure is reported at index 0. *)
Definition loads (s : pystr) : json + (pystr * nat) :=
  match decode s with
  | Some v => inl v
  | None => inr (lit "Expecting value", O)
  end.

End RefDecoder.

(* ------------------------------------------------------------------ *)
(** ** What the normaliser builds from an array, in the words of its
    description *)

(** The item built from one mapping, as its type and its text: the type
    supplied or [p], the text from [text], else from [content], else
    empty. *)
Definition built_pair (d : dict) : json * json :=
  (py_or (get k_type d) (JString (lit "p")),
   py_or (get k_text d) (py_or (get k_content d) (JString []))).

(** One built item per mapping of the array; the other elements are
    skipped. *)
Definition built_pairs (elems : list json) : list (json * json) :=
  flat_map (fun it => match it with
                      | JObject d => [built_pair d]
                      | _ => []
                      end) elems.

Definition item_json (p : json * json) : json :=
  JObject [(k_type, fst p); (k_text, snd p)].

Definition is_heading_tag (v : json) : bool := existsb (eq_str v) heading_tags.

(** The heading and the items left once a leading heading-like item has
    been promoted. *)
Definition promoted (pairs : list (json * json))
    : json * list (json * json) :=
  match pairs with
  | (ty, tx) :: rest =>
      if is_heading_tag ty then (tx, rest) else (JString [], pairs)
  | [] => (JString [], [])
  end.

Definition one_section (heading : json) (items : list json) : json :=
  JObject [(k_sections,
    JArray [JObject [(k_heading, heading);
                     (k_type, JString (lit "h2"));
                     (k_items, JArray items)]])].

(** A value that can be looked up in a set. *)
Definition hashable (v : json) : bool :=
  match v with
  | JArray _ | JObject _ => false
  | _ => true
  end.

Definition first_type_hashable (elems : list json) : bool :=
  match built_pairs elems with
  | (ty, _) :: _ => hashable ty
  | [] => true
  end.

(** *** The shapes the normaliser accepts *)

(** A section the first branch walks through: an object whose [items], when
    present, is a list of objects. *)
Definition section_ok (sec : json) : bool :=
  match sec with
  | JObject d =>
      match lookup k_items d with
      | Some (JArray its) => forallb is_dict its
      | Some _ => false
      | None => true
      end
  | _ => false
  end.

Definition well_shaped (data : json) : bool :=
  match data with
  | JObject d =>
      match lookup k_sections d with
      | Some (JArray secs) => forallb section_ok secs
      | Some _ => false
      | None => true
      end
  | JArray elems => first_type_hashable elems
  | _ => true
  end.

(** Neither an array nor an object with a [sections] key. *)
Definition unrecognized (data : json) : bool :=
  match data with
  | JObject d => negb (contains k_sections d)
  | JArray _ => false
  | _ => true
  end.

(* ------------------------------------------------------------------ *)
(** ** Words to describe what the extractor selects *)

(** [sub in s] *)
Fixpoint occurs (sub s : pystr) : bool :=
  startswith sub s
  || match s with
     | [] => false
     | _ :: s' => occurs sub s'
     end.

(** A fenced block: an opening fence mark and, after it, a closing one. *)
Definition has_fence (s : pystr) : Prop :=
  exists u v w, s = u ++ fence_mark ++ v ++ fence_mark ++ w.

(** The first and the last index at which a character occurs. *)
Definition first_at (c : char) (s : pystr) (i : nat) : Prop :=
  nth_error s i = Some c /\ ~ In c (firstn i s).

Definition last_at (c : char) (s : pystr) (i : nat) : Prop :=
  nth_error s i = Some c /\ ~ In c (skipn (S i) s).

Definition chr_lbracket : char := 91%N.
Definition chr_rbracket : char := 93%N.
Definition chr_lbrace : char := 123%N.
Definition chr_rbrace : char := 125%N.

(** The brackets looked for: square ones when the trimmed text begins with
    one, curly ones otherwise. *)
Definition opening_bracket (s : pystr) : char :=
  if startswith (lit "[") s then chr_lbracket else chr_lbrace.
Definition closing_bracket (s : pystr) : char :=
  if startswith (lit "[") s then chr_rbracket else chr_rbrace.

(** The two failures of the extractor. *)
Definition EmptyResponse : exn := JSONDecodeError (lit "empty") [] 0.
Definition MalformedJson (doc msg : pystr) (pos : nat) : exn :=
  JSONDecodeError msg doc pos.

(** [not text] *)
Definition is_empty_text (text : option pystr) : bool :=
  match text with
  | None | Some [] => true
  | Some (_ :: _) => false
  end.

(** The texts of the examples. *)
Definition quoted (s : pystr) : pystr := [chr_quot] ++ s ++ [chr_quot].

Definition empty_sections_text : pystr :=
  lit "{" ++ quoted (lit "sections") ++ lit ":[]}".

Definition fenced_example : pystr :=
  lit "prose ```json " ++ empty_sections_text ++ lit " ``` more prose".

(* ------------------------------------------------------------------ *)
(** ** Auxiliary notions of the proofs *)

(** The words an expression can match, whatever the priorities. *)
Fixpoint lang (r : regex) (u : pystr) : Prop :=
  match r with
  | Lit l => u = l
  | Cls p => exists c, u = [c] /\ p c = true
  | Star p => Forall (fun c => p c = true) u
  | StarLazy p => Forall (fun c => p c = true) u
  | Opt r1 => u = [] \/ lang r1 u
  | Cat r1 r2 => exists u1 u2, u = u1 ++ u2 /\ lang r1 u1 /\ lang r2 u2
  end.

(** The pattern matches no empty string. *)
Definition match_shrinks (pat : pattern) : Prop :=
  forall s g rest,
    match_at pat s = Some (g, rest) -> List.length rest < List.length s.

(** A delimiter: asterisks only. *)
Definition all_stars (d : pystr) : Prop := Forall (fun c => c = chr_star) d.

(** The pending list, closed: nothing when the buffer is empty. *)
Definition closed_list (buffer : list pystr) : list pystr :=
  match buffer with
  | [] => []
  | _ => [lit "<ul>"] ++ buffer ++ [lit "</ul>"]
  end.

(** The blocks still to come, given the pending buffer: the buffer joins
    the list the items begin with, if they begin with one. *)
Definition pending_blocks (buffer : list pystr) (items : list Item)
    : list pystr :=
  match groups items with
  | GList run :: gs =>
      closed_list (buffer ++ List.map li_of run) ++ flat_map group_blocks gs
  | gs => closed_list buffer ++ flat_map group_blocks gs
  end.

(* ------------------------------------------------------------------ *)
(** ** [analyze_text_formatting] after the request (main.py, lines 173-194)

    The request itself (lines 159-171) is input and output; what the
    function does with the response is not. The response is given by the
    two things the function reads from it. *)

(** One entry of [resp.output[0].content]: its [type] (the empty string
    when it has none) and its [text], [None] when reading it or joining it
    raises. *)
Record block := { block_type : pystr; block_text : option pystr }.

(** [output_text] is [None] when the attribute is absent or [None];
    [first_content] is [None] when [resp.output[0].content] raises. *)
Record response := {
  output_text : option pystr;
  first_content : option (list block)
}.

(** Line 179, the texts of the [output_text] entries; [None] when the
    comprehension or the join that follows raises. *)
Fixpoint output_texts (blocks : list block) : option (list pystr) :=
  match blocks with
  | [] => Some []
  | b :: bs =>
      if PyStr.eqb (block_type b) (lit "output_text") then
        match block_text b, output_texts bs with
        | Some t, Some ts => Some (t :: ts)
        | _, _ => None
        end
      else output_texts bs
  end.

(** Lines 177-182: the text rebuilt from the entries; any exception gives
    [None]. *)
Definition fallback_text (resp : response) : option pystr :=
  match first_content resp with
  | None => None
  | Some blocks =>
      match output_texts blocks with
      | None => None
      | Some [] => None
      | Some texts => Some (strip (join [chr_nl] texts))
      end
  end.

(** Lines 174-182. *)
Definition response_text (resp : response) : option pystr :=
  if is_empty_text (output_text resp) then fallback_text resp
  else output_text resp.

(** What the function shows to the user: [st.error] and [st.code]. *)
Inductive ui_event :=
| st_error (msg : pystr)
| st_code (body : pystr).

Definition chr_cross : char := 10060%N.   (* U+274C *)

Definition msg_empty_response : pystr :=
  chr_cross :: lit " Resposta vazia da API.".
Definition msg_no_json : pystr :=
  chr_cross :: lit " N" ++ [227%N] ++ lit "o foi poss" ++ [237%N]
    ++ lit "vel extrair JSON.".
Definition msg_processing : pystr :=
  chr_cross :: lit " Erro no processamento.".

Section Analyze.

Variable json_loads : pystr -> json + (pystr * nat).

(** Lines 188-190, inside the [try]. *)
Definition extract_and_coerce (text : pystr) : result json :=
  raw <- extract_json_from_model_output json_loads (Some text) ;;
  coerce_to_sections_schema raw.

(** Lines 173-194: the value returned and what is shown on the way. The
    [except Exception] catches whatever the two calls raise. *)
Definition analyze_response (resp : response) : option json * list ui_event :=
  match response_text resp with
  | None | Some [] => (None, [st_error msg_empty_response])
  | Some t =>
      match extract_and_coerce t with
      | Ok doc => (Some doc, [])
      | Raise _ => (None, [st_error msg_no_json; st_code t])
      end
  end.

(** Lines 293-306: a truthy result is rendered, anything else is reported.
    The renderer is called outside any [try]. *)
Definition show_result (analysis : option json)
    : result (option pystr) * list ui_event :=
  match analysis with
  | Some doc =>
      if truthy doc then
        match build_html_from_sections doc with
        | Ok html => (Ok (Some html), [])
        | Raise e => (Raise e, [])
        end
      else (Ok None, [st_error msg_processing])
  | None => (Ok None, [st_error msg_processing])
  end.

End Analyze.

(* ------------------------------------------------------------------ *)
(** ** Documents as the renderer reads them *)

(** The state after an item of the given kind and converted text. *)
Definition emit (st : render_state) (li : bool) (text : pystr)
    : render_state :=
  if li then (fst st, snd st ++ [li_block (clean_bullet text)])
  else (fst (flush st) ++ [p_block text], []).

(** A value the renderer reads as the item [it]: an object whose [text],
    or nothing when it is falsy, is the item's text, and whose [type], or
    [p] when absent, is [li] exactly when the item's is. Other keys are
    free. *)
Definition reads_as_item (j : json) (it : Item) : Prop :=
  exists d,
    j = JObject d
    /\ py_or (get_default k_text (JString []) d) (JString [])
       = JString (item_text it)
    /\ eq_str (get_default k_type (JString (lit "p")) d) (lit "li")
       = is_li it.

(** A value the renderer reads as the section [sec]: its [heading] is the
    section's, or is absent or [None] when the section has none, and its
    [items] is a list read as the section's items, or is absent when there
    are none. *)
Definition reads_as_section (j : json) (sec : Section) : Prop :=
  exists d,
    j = JObject d
    /\ (lookup k_heading d = Some (JString (sec_heading sec))
        \/ (sec_heading sec = []
            /\ (lookup k_heading d = None \/ lookup k_heading d = Some JNull)))
    /\ ((exists js, lookup k_items d = Some (JArray js)
                    /\ Forall2 reads_as_item js (sec_items sec))
        \/ (sec_items sec = [] /\ lookup k_items d = None)).

Definition reads_as_document (j : json) (doc : Document) : Prop :=
  exists d js,
    j = JObject d
    /\ lookup k_sections d = Some (JArray js)
    /\ Forall2 reads_as_section js doc.

(** The block of one item. *)
Definition item_block (it : Item) : pystr :=
  if is_li it then li_of it else p_of it.

(** The markers of a list block. *)
Definition is_list_marker (b : pystr) : bool :=
  PyStr.eqb b (lit "<ul>") || PyStr.eqb b (lit "</ul>").

(** Where a reader of the blocks stands: outside any list, just after
    the opening of a list, or inside a list after an item. *)
Inductive nesting := Outside | Opened | Inside.

(** The blocks are read from left to right: a paragraph or a heading may
    only come outside a list, a list opens outside a list, a list item
    comes in an open list, and a list closes after an item. [None] when a
    block is out of place. *)
Definition nesting_step (n : nesting) (b : pystr) : option nesting :=
  if PyStr.eqb b (lit "<ul>") then
    match n with Outside => Some Opened | _ => None end
  else if PyStr.eqb b (lit "</ul>") then
    match n with Inside => Some Outside | _ => None end
  else if startswith (lit "<li>") b then
    match n with Outside => None | _ => Some Inside end
  else
    match n with Outside => Some Outside | _ => None end.

Fixpoint nesting_after (n : nesting) (blocks : list pystr) : option nesting :=
  match blocks with
  | [] => Some n
  | b :: bs =>
      match nesting_step n b with
      | Some n' => nesting_after n' bs
      | None => None
      end
  end.

(** A document with the items under [content] instead of [text]. *)
Definition json_of_item_content (it : Item) : json :=
  JObject [(k_content, JString (item_text it));
           (k_type, JString (item_type it))].

Definition json_of_section_content (sec : Section) : json :=
  JObject [(k_heading, JString (sec_heading sec));
           (k_type, JString (lit "h2"));
           (k_items, JArray (List.map json_of_item_content (sec_items sec)))].

Definition json_of_document_content (doc : Document) : json :=
  JObject [(k_sections, JArray (List.map json_of_section_content doc))].

(** The section a flat list of items becomes: a first item of type [h1],
    [h2] or [h3] gives the heading. *)
Definition section_of_items (items : list Item) : Section :=
  match items with
  | it :: rest =>
      if existsb (PyStr.eqb (item_type it)) heading_tags
      then {| sec_heading := item_text it; sec_items := rest |}
      else {| sec_heading := []; sec_items := items |}
  | [] => {| sec_heading := []; sec_items := [] |}
  end.

(** [u] occurs in [s] as a contiguous part. *)
Definition substring (u s : pystr) : Prop := exists a b, s = a ++ u ++ b.

(* ------------------------------------------------------------------ *)
(** ** The tags of a rendered page *)

(** The tags the renderer writes around the converted texts. *)
Definition block_tags : list pystr :=
  [lit "<p>"; lit "</p>"; lit "<ul>"; lit "</ul>"; lit "<li>"; lit "</li>"].

Definition page_tags : list pystr := converter_tags ++ block_tags.

(** A string in which every angle bracket belongs to one of the given
    tags. *)
Inductive tagged_by (tags : list pystr) : pystr -> Prop :=
| tagged_by_nil : tagged_by tags []
| tagged_by_char c s :
    c <> chr_lt -> c <> chr_gt -> tagged_by tags s -> tagged_by tags (c :: s)
| tagged_by_tag t s :
    In t tags -> tagged_by tags s -> tagged_by tags (t ++ s).

(** Whether an entry of the response content is of type [output_text]. *)
Definition is_output_text (b : block) : bool :=
  PyStr.eqb (block_type b) (lit "output_text").

(** Every asterisk of the text is followed by a character other than an
    asterisk. *)
Fixpoint lone_stars (s : pystr) : bool :=
  match s with
  | [] => true
  | c :: rest =>
      (if N.eqb chr_star c then
         match rest with
         | [] => false
         | c' :: _ => negb (N.eqb chr_star c')
         end
       else true)
      && lone_stars rest
  end.

(* ------------------------------------------------------------------ *)
(** ** [json.loads] of CPython 3.11, with its errors

    The decoder of the standard library as the program calls it on line
    62, on a [str] and with the default arguments: the scanner and the
    string scanner of the [_json] accelerator behind [JSONDecoder.decode].
    It returns the value, or raises [JSONDecodeError] with one of ten
    messages and the index the error is found at, or raises [ValueError]
    on an integer literal of more digits than the interpreter converts,
    or [RecursionError] on arrays and objects nested deeper than the
    interpreter allows. *)

Module JsonLib.

(** The messages of [JSONDecodeError]. *)
Inductive syntax_error :=
| Expecting_value
| Expecting_comma
| Expecting_colon
| Expecting_property_name
| Extra_data
| Unterminated_string
| Invalid_control_character
| Invalid_escape
| Invalid_unicode_escape
| Unexpected_BOM.

Definition message (m : syntax_error) : pystr :=
  match m with
  | Expecting_value => lit "Expecting value"
  | Expecting_comma => lit "Expecting ',' delimiter"
  | Expecting_colon => lit "Expecting ':' delimiter"
  | Expecting_property_name =>
      lit "Expecting property name enclosed in double quotes"
  | Extra_data => lit "Extra data"
  | Unterminated_string => lit "Unterminated string starting at"
  | Invalid_control_character => lit "Invalid control character at"
  | Invalid_escape => lit "Invalid \escape"
  | Invalid_unicode_escape => lit "Invalid \uXXXX escape"
  | Unexpected_BOM => lit "Unexpected UTF-8 BOM (decode using utf-8-sig)"
  end.

(** The two limits of the interpreter the decoder can run into. *)
Inductive limit_error :=
| Digits   (* ValueError, from the conversion of the integer literal *)
| Depth.   (* RecursionError, from entering an array or an object *)

(** [max_str_digits] is [sys.get_int_max_str_digits()], 4300 unless set
    otherwise, 0 for no limit. [max_depth] is the number of arrays and
    objects inside one another that the interpreter still allows where
    [json.loads] is called: it depends on the recursion limit and on the
    depth of the call. *)
Record limits := { max_str_digits : nat; max_depth : nat }.

Inductive parsed (A : Type) :=
| Parsed (a : A) (rest : pystr) (idx : nat)
| Syntax (m : syntax_error) (pos : nat)
| Limit (e : limit_error).
Arguments Parsed {A} a rest idx.
Arguments Syntax {A} m pos.
Arguments Limit {A} e.

Definition is_ws (c : char) : bool :=
  ((c =? 32) || (c =? 9) || (c =? 10) || (c =? 13))%N.

(** The text from index [idx] on without its leading white space, and the
    index reached. *)
Fixpoint skip_ws (s : pystr) (idx : nat) : pystr * nat :=
  match s with
  | c :: r => if is_ws c then skip_ws r (S idx) else (s, idx)
  | [] => (s, idx)
  end.

Definition is_digit (c : char) : bool := ((48 <=? c) && (c <=? 57))%N.

(** A run of decimal digits: its value on top of [acc], its length, the
    rest. *)
Fixpoint digits (s : pystr) (acc : Z) (n : nat) : Z * nat * pystr :=
  match s with
  | c :: s' =>
      if is_digit c then digits s' (10 * acc + Z.of_N (c - 48))%Z (S n)
      else (acc, n, s)
  | [] => (acc, n, s)
  end.

Definition hex_val (c : char) : option N :=
  if is_digit c then Some (c - 48)%N
  else if ((97 <=? c) && (c <=? 102))%N then Some (c - 87)%N
  else if ((65 <=? c) && (c <=? 70))%N then Some (c - 55)%N
  else None.

Definition hex4 (s : pystr) : option (N * pystr) :=
  match s with
  | a :: b :: c :: d :: r =>
      match hex_val a, hex_val b, hex_val c, hex_val d with
      | Some a, Some b, Some c, Some d =>
          Some (((a * 16 + b) * 16 + c) * 16 + d, r)%N
      | _, _, _, _ => None
      end
  | _ => None
  end.

Definition is_high_surrogate (u : N) : bool :=
  ((55296 <=? u) && (u <=? 56319))%N.
Definition is_low_surrogate (u : N) : bool :=
  ((56320 <=? u) && (u <=? 57343))%N.

(** [scanstring], strict: the characters after the opening quote, which is
    at index [start]; [s] is the text from index [idx] on. An escape
    [\uXXXX] is read only when a character follows its four digits, and a
    second one is looked for after a high surrogate only when a character
    follows it too. *)
Fixpoint scanstring (fuel : nat) (start : nat) (acc : pystr) (s : pystr)
    (idx : nat) : parsed pystr :=
  match fuel with
  | O => Syntax Unterminated_string start
  | S f =>
      match s with
      | [] => Syntax Unterminated_string start
      | 34%N :: r => Parsed (rev acc) r (S idx)
      | 92%N :: [] => Syntax Unterminated_string start
      | 92%N :: e :: r =>
          let simple (c : char) := scanstring f start (c :: acc) r (idx + 2) in
          match e with
          | 34%N => simple 34%N
          | 92%N => simple 92%N
          | 47%N => simple 47%N
          | 98%N => simple 8%N
          | 102%N => simple 12%N
          | 110%N => simple 10%N
          | 114%N => simple 13%N
          | 116%N => simple 9%N
          | 117%N =>
              if List.length r <=? 4 then Syntax Invalid_unicode_escape (S idx)
              else
                match hex4 r with
                | None => Syntax Invalid_unicode_escape (S idx)
                | Some (u, r1) =>
                    let single := scanstring f start (u :: acc) r1 (idx + 6) in
                    if is_high_surrogate u && (7 <=? List.length r1) then
                      match r1 with
                      | 92%N :: 117%N :: r2 =>
                          match hex4 r2 with
                          | None => Syntax Invalid_unicode_escape (idx + 7)
                          | Some (l, r3) =>
                              if is_low_surrogate l then
                                scanstring f start
                                  ((65536 + (u - 55296) * 1024
                                    + (l - 56320))%N :: acc) r3 (idx + 12)
                              else single
                          end
                      | _ => single
                      end
                    else single
                end
          | _ => Syntax Invalid_escape idx
          end
      | c :: r =>
          if (c <=? 31)%N then Syntax Invalid_control_character idx
          else scanstring f start (c :: acc) r (S idx)
      end
  end.

(** The string whose opening quote is at index [start], [s] being the text
    after the quote. *)
Definition parse_string (start : nat) (s : pystr) : parsed pystr :=
  scanstring (S (List.length s)) start [] s (S start).

Section Numbers.
Variable lim : limits.

(** [_match_number]: an optional minus sign, an integer part without a
    leading zero, a fraction if a digit follows the point, an exponent if
    it has a digit. A literal with a fraction or an exponent is converted
    by [float], any other by [int], which refuses more than
    [max_str_digits] digits. *)
Definition match_number (s : pystr) (idx : nat) : parsed json :=
  let '(neg, s1) :=
    match s with 45%N :: r => (true, r) | _ => (false, s) end in
  let sign_len := if neg then 1 else 0 in
  let int_part :=
    match s1 with
    | 48%N :: r => Some (0%Z, 1, r)
    | c :: _ =>
        if is_digit c then
          let '(v, n, r) := digits s1 0%Z O in Some (v, n, r)
        else None
    | [] => None
    end in
  match int_part with
  | None => Syntax Expecting_value idx
  | Some (i, int_len, s2) =>
      let '(m, scale, s3) :=
        match s2 with
        | 46%N :: c :: r =>
            if is_digit c then
              let '(v, n, r') := digits (c :: r) i O in (v, n, r')
            else (i, O, s2)
        | _ => (i, O, s2)
        end in
      let frac_len := match scale with O => 0 | S _ => S scale end in
      let exp_digits (sign : Z) (signed_len : nat) (r : pystr) :=
        match r with
        | c :: _ =>
            if is_digit c then
              let '(v, n, r') := digits r 0%Z O in
              Some ((sign * v)%Z, S signed_len + n, r')
            else None
        | [] => None
        end in
      let exponent :=
        match s3 with
        | c :: r =>
            if ((c =? 101) || (c =? 69))%N then
              match r with
              | 43%N :: r' => exp_digits 1%Z 1 r'
              | 45%N :: r' => exp_digits (-1)%Z 1 r'
              | _ => exp_digits 1%Z 0 r
              end
            else None
        | [] => None
        end in
      let signed (v : Z) := if neg then (- v)%Z else v in
      let mantissa_end := idx + sign_len + int_len + frac_len in
      match exponent with
      | Some (e, exp_len, s4) =>
          Parsed (JFloat (FDec (signed m) (e - Z.of_nat scale))) s4
                 (mantissa_end + exp_len)
      | None =>
          match scale with
          | S _ =>
              Parsed (JFloat (FDec (signed m) (- Z.of_nat scale))) s3
                     mantissa_end
          | O =>
              if (0 <? max_str_digits lim) && (max_str_digits lim <? int_len)
              then Limit Digits
              else Parsed (JInt (signed i)) s3 mantissa_end
          end
      end
  end.

Definition constant (k : string) (v : json) (s : pystr) (idx : nat)
    : option (parsed json) :=
  match strip_prefix (lit k) s with
  | Some r => Some (Parsed v r (idx + List.length (lit k)))
  | None => None
  end.

Definition or_else {A} (a : option A) (b : A) : A :=
  match a with Some x => x | None => b end.

Section Containers.
(** The scanner for the values inside an array or an object. *)
Variable scan_once : pystr -> nat -> parsed json.

(** [_parse_array] after the white space that follows the bracket, when
    the next character does not close the array: a value, then a comma
    and the next value, or the closing bracket. Each turn reads at least
    one character, so [fuel], the length of the text, is not used up. *)
Fixpoint array_items (fuel : nat) (acc : list json) (s : pystr) (idx : nat)
    : parsed json :=
  match fuel with
  | O => Syntax Expecting_value idx
  | S f =>
      match scan_once s idx with
      | Parsed v r i =>
          match skip_ws r i with
          | (93%N :: r', i') => Parsed (JArray (rev (v :: acc))) r' (S i')
          | (44%N :: r', i') =>
              let '(r'', i'') := skip_ws r' (S i') in
              array_items f (v :: acc) r'' i''
          | (_, i') => Syntax Expecting_comma i'
          end
      | Syntax m pos => Syntax m pos
      | Limit e => Limit e
      end
  end.

Definition parse_array (s : pystr) (idx : nat) : parsed json :=
  match skip_ws s idx with
  | (93%N :: r, i) => Parsed (JArray []) r (S i)
  | (r, i) => array_items (S (List.length r)) [] r i
  end.

(** [_parse_object] in the same way: a key, a colon, a value, then a comma
    and the next key, or the closing brace. A key given twice keeps its
    place and takes the later value. *)
Fixpoint object_items (fuel : nat) (acc : dict) (s : pystr) (idx : nat)
    : parsed json :=
  match fuel with
  | O => Syntax Expecting_property_name idx
  | S f =>
      match s with
      | 34%N :: r =>
          match parse_string idx r with
          | Parsed k r1 i1 =>
              match skip_ws r1 i1 with
              | (58%N :: r2, i2) =>
                  let '(r3, i3) := skip_ws r2 (S i2) in
                  match scan_once r3 i3 with
                  | Parsed v r4 i4 =>
                      let acc' := PyVal.set k v acc in
                      match skip_ws r4 i4 with
                      | (125%N :: r5, i5) => Parsed (JObject acc') r5 (S i5)
                      | (44%N :: r5, i5) =>
                          let '(r6, i6) := skip_ws r5 (S i5) in
                          object_items f acc' r6 i6
                      | (_, i5) => Syntax Expecting_comma i5
                      end
                  | Syntax m pos => Syntax m pos
                  | Limit e => Limit e
                  end
              | (_, i2) => Syntax Expecting_colon i2
              end
          | Syntax m pos => Syntax m pos
          | Limit e => Limit e
          end
      | _ => Syntax Expecting_property_name idx
      end
  end.

Definition parse_object (s : pystr) (idx : nat) : parsed json :=
  match skip_ws s idx with
  | (125%N :: r, i) => Parsed (JObject []) r (S i)
  | (r, i) => object_items (S (List.length r)) [] r i
  end.
End Containers.

(** [scan_once] at index [idx], [s] being the text from there on, with
    [depth] arrays and objects still allowed around the value. *)
Fixpoint scan_once (depth : nat) (s : pystr) (idx : nat) : parsed json :=
  match s with
  | [] => Syntax Expecting_value idx
  | 34%N :: r =>
      match parse_string idx r with
      | Parsed t r' i => Parsed (JString t) r' i
      | Syntax m pos => Syntax m pos
      | Limit e => Limit e
      end
  | 123%N :: r =>
      match depth with
      | O => Limit Depth
      | S d => parse_object (scan_once d) r (S idx)
      end
  | 91%N :: r =>
      match depth with
      | O => Limit Depth
      | S d => parse_array (scan_once d) r (S idx)
      end
  | _ =>
      or_else (constant "null" JNull s idx)
     (or_else (constant "true" (JBool true) s idx)
     (or_else (constant "false" (JBool false) s idx)
     (or_else (constant "NaN" (JFloat FNaN) s idx)
     (or_else (constant "Infinity" (JFloat (FInf false)) s idx)
     (or_else (constant "-Infinity" (JFloat (FInf true)) s idx)
              (match_number s idx))))))
  end.

(** [json.loads] up to the exception: the test for a byte order mark,
    then [JSONDecoder.decode], which skips the white space around the one
    value it reads. *)
Definition decode (s : pystr) : parsed json :=
  match s with
  | 65279%N :: _ => Syntax Unexpected_BOM 0
  | _ =>
      let '(s1, i1) := skip_ws s 0 in
      match scan_once (max_depth lim) s1 i1 with
      | Parsed v r i =>
          match skip_ws r i with
          | ([], i') => Parsed v [] i'
          | (_, i') => Syntax Extra_data i'
          end
      | Syntax m pos => Syntax m pos
      | Limit e => Limit e
      end
  end.

(** [json.loads(s)]: the value, or the exception raised. The [doc] of a
    [JSONDecodeError] is the text given. *)
Definition loads (s : pystr) : result json :=
  match decode s with
  | Parsed v _ _ => Ok v
  | Syntax m pos => Raise (JSONDecodeError (message m) s pos)
  | Limit Digits => Raise ValueError
  | Limit Depth => Raise RecursionError
  end.
End Numbers.

(** The limits of an interpreter started without options: 4300 digits,
    and a recursion limit of 1000, which leaves a depth of 994 to a call
    of [json.loads] made in a function called from the top of a script,
    and less to a call made deeper. *)
Definition default_limits : limits :=
  {| max_str_digits := 4300; max_depth := 994 |}.

End JsonLib.

(* ------------------------------------------------------------------ *)
(** ** The extractor, whatever the decoder raises *)

(** [extract_json_from_model_output], lines 44-62, with the call of
    [json.loads] on line 62 free to return or to raise any exception: the
    function returns what the decoder returns and raises what it
    raises. *)
Definition extract_json_with (json_loads : pystr -> result json)
    (text : option pystr) : result json :=
  match text with
  | None | Some [] => Raise (JSONDecodeError (lit "empty") [] 0)
  | Some t => json_loads (candidate t)
  end.

(** An array holding one integer of [n] digits. *)
Definition long_integer_text (n : nat) : pystr :=
  lit "[" ++ repeat 57%N n ++ lit "]".

(* ================================================================== *)
(** * Properties *)

(* ------------------------------------------------------------------ *)
(** ** Strings *)

Lemma eqb_spec (a b : pystr) : PyStr.eqb a b = true <-> a = b.
Proof.
  revert b; induction a as [|x a IH]; intros [|y b]; simpl;
    try (split; (congruence || discriminate)).
  rewrite andb_true_iff, N.eqb_eq, IH. split.
  - intros [-> ->]; reflexivity.
  - intros E; inversion E; auto.
Qed.

Lemma eqb_refl (a : pystr) : PyStr.eqb a a = true.
Proof. apply eqb_spec; reflexivity. Qed.

Lemma strip_prefix_Some (p s r : pystr) :
  strip_prefix p s = Some r <-> s = p ++ r.
Proof.
  revert s; induction p as [|x p IH]; intros s; simpl.
  - split; congruence.
  - destruct s as [|y s]; [split; discriminate|].
    destruct (N.eqb_spec x y) as [->|Hne].
    + rewrite IH. split; [intros ->; reflexivity | intros E; inversion E; auto].
    + split; [discriminate | intros E; inversion E; congruence].
Qed.

Lemma strip_prefix_app (p r : pystr) : strip_prefix p (p ++ r) = Some r.
Proof. apply strip_prefix_Some; reflexivity. Qed.

Lemma startswith_true (p s : pystr) :
  startswith p s = true <-> exists r, s = p ++ r.
Proof.
  unfold startswith. destruct (strip_prefix p s) as [r|] eqn:E.
  - apply strip_prefix_Some in E. split; eauto.
  - split; [discriminate|]. intros [r Hr].
    apply strip_prefix_Some in Hr. congruence.
Qed.

Lemma startswith_false (p s : pystr) :
  startswith p s = false <-> strip_prefix p s = None.
Proof.
  unfold startswith. destruct (strip_prefix p s); split; congruence.
Qed.

(* ------------------------------------------------------------------ *)
(** ** The matcher is sound

    Whatever [rmatch] accepts is a word of the language of the expression,
    followed by a rest the continuation accepts. *)

Section Soundness.
Context {A : Type}.
Implicit Types (k : pystr -> option A) (x : A).

Lemma star_greedy_sound p k s x :
  star_greedy p k s = Some x ->
  exists u s', s = u ++ s' /\ Forall (fun c => p c = true) u
               /\ k s' = Some x.
Proof.
  induction s as [|c s IH]; simpl; intros H.
  - exists [], []; auto.
  - destruct (p c) eqn:Hc.
    + destruct (star_greedy p k s) as [y|] eqn:E.
      * inversion H; subst y. destruct (IH eq_refl) as (u & s' & -> & Hu & Hk).
        exists (c :: u), s'; auto.
      * exists [], (c :: s); auto.
    + exists [], (c :: s); auto.
Qed.

Lemma star_lazy_sound p k s x :
  star_lazy p k s = Some x ->
  exists u s', s = u ++ s' /\ Forall (fun c => p c = true) u
               /\ k s' = Some x.
Proof.
  induction s as [|c s IH]; simpl; intros H.
  - destruct (k []) eqn:E; [|discriminate].
    exists [], []; repeat split; [constructor | congruence].
  - destruct (k (c :: s)) eqn:E.
    + exists [], (c :: s); split; [reflexivity|]. split; [constructor|congruence].
    + destruct (p c) eqn:Hc; [|discriminate].
      destruct (IH H) as (u & s' & -> & Hu & Hk).
      exists (c :: u), s'; auto.
Qed.
End Soundness.

Lemma rmatch_sound (r : regex) :
  forall (A : Type) (s : pystr) (k : pystr -> option A) (x : A),
    rmatch r s k = Some x ->
    exists u s', s = u ++ s' /\ lang r u /\ k s' = Some x.
Proof.
  induction r as [l|p|p|p|r IH|r1 IH1 r2 IH2]; intros A s k x H; simpl in *.
  - destruct (strip_prefix l s) as [s'|] eqn:E; [|discriminate].
    apply strip_prefix_Some in E. exists l, s'; auto.
  - destruct s as [|c s]; [discriminate|].
    destruct (p c) eqn:Hc; [|discriminate].
    exists [c], s; repeat split; eauto.
  - apply star_greedy_sound in H. exact H.
  - apply star_lazy_sound in H. exact H.
  - destruct (rmatch r s k) as [y|] eqn:E.
    + inversion H; subst y. destruct (IH _ _ _ _ E) as (u & s' & -> & Hu & Hk).
      exists u, s'; auto.
    + exists [], s; auto.
  - destruct (IH1 _ _ _ _ H) as (u1 & s1 & -> & Hu1 & H1).
    destruct (IH2 _ _ _ _ H1) as (u2 & s2 & -> & Hu2 & H2).
    exists (u1 ++ u2), s2. rewrite <- app_assoc. repeat split; eauto.
Qed.

Lemma firstn_length_diff (g rest : pystr) :
  firstn (List.length (g ++ rest) - List.length rest) (g ++ rest) = g.
Proof.
  rewrite length_app.
  replace (List.length g + List.length rest - List.length rest)
    with (List.length g + 0) by lia.
  rewrite firstn_app_2. simpl. apply app_nil_r.
Qed.

(** A match found at the start of [s] splits [s] into the three parts of
    the pattern and the rest. *)
Lemma match_at_sound (pat : pattern) (s g rest : pystr) :
  match_at pat s = Some (g, rest) ->
  exists u1 u3, s = u1 ++ g ++ u3 ++ rest
                /\ lang (pre pat) u1 /\ lang (grp pat) g /\ lang (post pat) u3.
Proof.
  unfold match_at. intros H.
  apply rmatch_sound in H. destruct H as (u1 & s1 & -> & H1 & H).
  apply rmatch_sound in H. destruct H as (u2 & s2 & -> & H2 & H).
  apply rmatch_sound in H. destruct H as (u3 & s3 & -> & H3 & H).
  inversion H; subst. rewrite firstn_length_diff.
  exists u1, u3; auto.
Qed.

(* ------------------------------------------------------------------ *)
(** ** Substitution: the fuel of [sub] is enough *)

Section Sub.
Variable pat : pattern.
Variable repl : pystr -> pystr.
Hypothesis shrinks : match_shrinks pat.

Lemma sub_fuel_irrelevant :
  forall n m s,
    List.length s <= n -> List.length s <= m ->
    sub_fuel n pat repl s = sub_fuel m pat repl s.
Proof.
  induction n as [|n IH]; intros m s Hn Hm.
  - destruct s; [|simpl in Hn; lia]. destruct m; reflexivity.
  - destruct m as [|m].
    + destruct s; [reflexivity | simpl in Hm; lia].
    + destruct s as [|c s]; [reflexivity|]. simpl.
      destruct (match_at pat (c :: s)) as [[g rest]|] eqn:E.
      * apply shrinks in E. simpl in *. f_equal. apply IH; lia.
      * f_equal. simpl in *. apply IH; lia.
Qed.

Lemma sub_nil : sub pat repl [] = [].
Proof. reflexivity. Qed.

(** The equation of [re.sub]: replace a match and go on after it, or keep
    a character and go on after it. *)
Lemma sub_cons (c : char) (s : pystr) :
  sub pat repl (c :: s) =
  match match_at pat (c :: s) with
  | Some (g, rest) => repl g ++ sub pat repl rest
  | None => c :: sub pat repl s
  end.
Proof.
  unfold sub at 1. simpl.
  destruct (match_at pat (c :: s)) as [[g rest]|] eqn:E.
  - f_equal. apply shrinks in E. simpl in E.
    apply sub_fuel_irrelevant; lia.
  - reflexivity.
Qed.
End Sub.

(** *** The three markdown patterns *)

Lemma delimited_match (d s g rest : pystr) :
  match_at (delimited d) s = Some (g, rest) ->
  s = d ++ g ++ d ++ rest /\ g <> [] /\ Forall (fun c => dot c = true) g.
Proof.
  intros H. apply match_at_sound in H.
  destruct H as (u1 & u3 & -> & H1 & H2 & H3). simpl in *. subst u1 u3.
  destruct H2 as (a & b & -> & (c & -> & Hc) & Hb).
  repeat split; [discriminate | constructor; assumption].
Qed.

Lemma delimited_shrinks (x : char) (d : pystr) :
  match_shrinks (delimited (x :: d)).
Proof.
  intros s g rest H. apply delimited_match in H. destruct H as (-> & _).
  rewrite !length_app. simpl. lia.
Qed.

(** No match begins at a character other than the delimiter's first. *)
Lemma delimited_head (x c : char) (d s : pystr) :
  c <> x -> match_at (delimited (x :: d)) (c :: s) = None.
Proof.
  intros Hne. unfold match_at. simpl.
  destruct (N.eqb_spec x c); [congruence | reflexivity].
Qed.

Lemma sub_delimited_cons (x : char) (d : pystr) repl (c : char) (s : pystr) :
  sub (delimited (x :: d)) repl (c :: s) =
  match match_at (delimited (x :: d)) (c :: s) with
  | Some (g, rest) => repl g ++ sub (delimited (x :: d)) repl rest
  | None => c :: sub (delimited (x :: d)) repl s
  end.
Proof. apply sub_cons, delimited_shrinks. Qed.

(** A prefix without the delimiter's first character is copied. *)
Lemma sub_delimited_skip (x : char) (d : pystr) repl (t s : pystr) :
  ~ In x t ->
  sub (delimited (x :: d)) repl (t ++ s) = t ++ sub (delimited (x :: d)) repl s.
Proof.
  induction t as [|c t IH]; intros Hx; [reflexivity|].
  simpl. rewrite sub_delimited_cons, delimited_head.
  - f_equal. apply IH. intros Hin. apply Hx. right; assumption.
  - intros ->. apply Hx. left; reflexivity.
Qed.

Lemma sub_delimited_id (x : char) (d : pystr) repl (s : pystr) :
  ~ In x s -> sub (delimited (x :: d)) repl s = s.
Proof.
  intros Hx. rewrite <- (app_nil_r s) at 1.
  rewrite sub_delimited_skip by assumption. rewrite sub_nil, app_nil_r.
  reflexivity.
Qed.

(* ------------------------------------------------------------------ *)
(** ** [html.escape] *)

Lemma replace_absent (old : char) (new s : pystr) :
  ~ In old s -> replace old new s = s.
Proof.
  induction s as [|c s IH]; intros H; [reflexivity|].
  unfold replace in *. simpl.
  destruct (N.eqb_spec c old) as [->|Hne].
  - exfalso. apply H. left; reflexivity.
  - simpl. f_equal. apply IH. intros Hin. apply H. right; assumption.
Qed.

(** After a replacement a character is in the result only if it was in
    the input and is not the replaced one, or it is in the new text. *)
Lemma replace_In (old : char) (new s : pystr) (c : char) :
  In c (replace old new s) -> (In c s /\ c <> old) \/ In c new.
Proof.
  unfold replace. rewrite in_flat_map. intros (y & Hy & Hc).
  destruct (N.eqb_spec y old) as [->|Hne].
  - right; assumption.
  - destruct Hc as [<-|[]]. left; auto.
Qed.

Lemma escape_In (s : pystr) (c : char) :
  In c (escape s) ->
  c <> chr_lt /\ c <> chr_gt /\ c <> chr_quot /\ c <> chr_apos
  /\ (c = chr_star -> In chr_star s) /\ (c = chr_nl -> In chr_nl s).
Proof.
  unfold escape. intros H.
  apply replace_In in H. destruct H as [[H Ha]|H].
  2:{ simpl in H. intuition (subst; discriminate). }
  apply replace_In in H. destruct H as [[H Hq]|H].
  2:{ simpl in H. intuition (subst; discriminate). }
  apply replace_In in H. destruct H as [[H Hg]|H].
  2:{ simpl in H. intuition (subst; discriminate). }
  apply replace_In in H. destruct H as [[H Hl]|H].
  2:{ simpl in H. intuition (subst; discriminate). }
  apply replace_In in H. destruct H as [[H Hm]|H].
  2:{ simpl in H. intuition (subst; discriminate). }
  intuition (subst; auto).
Qed.

Lemma replace_app (old : char) (new a b : pystr) :
  replace old new (a ++ b) = replace old new a ++ replace old new b.
Proof. unfold replace. apply flat_map_app. Qed.

Lemma escape_app (a b : pystr) : escape (a ++ b) = escape a ++ escape b.
Proof. unfold escape. rewrite !replace_app. reflexivity. Qed.

(* ------------------------------------------------------------------ *)
(** ** Only the converter's tags *)

Lemma tagged_plain (s : pystr) :
  (forall c, In c s -> c <> chr_lt /\ c <> chr_gt) -> tagged s.
Proof.
  induction s as [|c s IH]; intros H; [constructor|].
  destruct (H c (or_introl eq_refl)).
  constructor; auto. apply IH. intros d Hd. apply H. right; assumption.
Qed.

Lemma tagged_app (a b : pystr) : tagged a -> tagged b -> tagged (a ++ b).
Proof.
  induction 1 as [|c s Hl Hg _ IH|t s Ht _ IH]; intros Hb; simpl; auto.
  - constructor; auto.
  - rewrite <- app_assoc. constructor; auto.
Qed.

Lemma converter_tag_facts (t : pystr) :
  In t converter_tags -> t <> [] /\ ~ In chr_star t.
Proof.
  unfold converter_tags. simpl.
  intros [<-|[<-|[<-|[<-|[]]]]]; (split; [discriminate|]);
    simpl; intuition discriminate.
Qed.

Lemma tagged_one_tag (t : pystr) : In t converter_tags -> tagged t.
Proof.
  intros H. rewrite <- (app_nil_r t). constructor; [assumption|constructor].
Qed.

(** An asterisk never lies inside a tag, so a tagged string can be cut at
    any asterisk. *)
Lemma tagged_cut (w : pystr) :
  tagged w ->
  forall a b, w = a ++ chr_star :: b -> tagged a /\ tagged (chr_star :: b).
Proof.
  induction 1 as [|c s Hl Hg Hs IH|t s Ht Hs IH]; intros a b E.
  - destruct a; discriminate.
  - destruct a as [|c' a]; simpl in E.
    + split; [constructor|]. rewrite <- E. constructor; assumption.
    + inversion E; subst c' s. destruct (IH a b eq_refl).
      split; [constructor|]; assumption.
  - apply app_eq_app in E. destruct E as (l & [[E1 E2]|[E1 E2]]).
    + destruct l as [|x l]; simpl in E2.
      * rewrite app_nil_r in E1. subst t s.
        split; [apply tagged_one_tag|]; assumption.
      * inversion E2; subst x b. subst t.
        destruct (converter_tag_facts _ Ht) as [_ Hn].
        exfalso. apply Hn. apply in_or_app. right; left; reflexivity.
    + subst a. destruct (IH l b E2). split; [|assumption].
      apply tagged_app; [apply tagged_one_tag|]; assumption.
Qed.

Lemma tagged_star_tail (b : pystr) : tagged (chr_star :: b) -> tagged b.
Proof.
  intros H. inversion H as [|c s Hl Hg Hs|t s Ht Hs E]; subst; [assumption|].
  destruct (converter_tag_facts _ Ht) as [Hne Hn].
  destruct t as [|x t]; [congruence|]. simpl in E. inversion E; subst x.
  exfalso. apply Hn. left; reflexivity.
Qed.

Lemma tagged_drop_stars (d s : pystr) :
  all_stars d -> tagged (d ++ s) -> tagged s.
Proof.
  induction 1 as [|c d -> _ IH]; simpl; intros H; [assumption|].
  apply IH. apply tagged_star_tail. assumption.
Qed.

(** A substitution keeps a tagged string tagged, when its template wraps
    the group in tagged text. *)
Lemma tagged_sub (d opening closing : pystr) :
  all_stars d -> tagged opening -> tagged closing ->
  forall s, tagged s ->
    tagged (sub (delimited (chr_star :: d)) (wrap opening closing) s).
Proof.
  intros Hd Ho Hc s.
  remember (List.length s) as n eqn:Hn.
  revert s Hn. induction n as [n IH] using lt_wf_ind. intros s Hn Hs.
  inversion Hs as [|c s' Hl Hg Hs'|t s' Ht Hs']; subst.
  - constructor.
  - rewrite sub_delimited_cons.
    destruct (match_at _ (c :: s')) as [[g rest]|] eqn:E.
    + apply delimited_match in E. destruct E as (E & _ & _).
      simpl in E. inversion E as [[Ec Es]]. subst c.
      assert (Hgr : tagged (g ++ chr_star :: d ++ rest)).
      { apply (tagged_drop_stars d _ Hd). rewrite <- Es. assumption. }
      destruct (tagged_cut _ Hgr g (d ++ rest) eq_refl) as [Htg Htr].
      apply tagged_star_tail, (tagged_drop_stars d _ Hd) in Htr.
      unfold wrap. rewrite <- !app_assoc.
      repeat (apply tagged_app; [assumption|]).
      apply (IH (List.length rest)); auto.
      rewrite Es. simpl. rewrite !length_app. simpl. rewrite length_app. lia.
    + constructor; auto. apply (IH (List.length s')); auto.
  - destruct (converter_tag_facts _ Ht) as [Hne Hstar].
    rewrite sub_delimited_skip by assumption.
    constructor; [assumption|].
    apply (IH (List.length s')); auto.
    rewrite length_app. destruct t; [congruence|simpl; lia].
Qed.

Lemma tagged_inline_html (t : pystr) : tagged (inline_html t).
Proof.
  unfold inline_html, sub_italic, sub_bold, sub_bold_italic.
  assert (T : forall x, In x converter_tags -> tagged x)
    by apply tagged_one_tag.
  apply (tagged_sub []); [constructor | apply T; simpl; auto ..|].
  apply (tagged_sub [chr_star]);
    [repeat constructor | apply T; simpl; auto ..|].
  apply (tagged_sub [chr_star; chr_star]); [repeat constructor | | |].
  - change (tagged (lit "<strong>" ++ lit "<em>")).
    apply tagged_app; apply T; simpl; auto.
  - change (tagged (lit "</em>" ++ lit "</strong>")).
    apply tagged_app; apply T; simpl; auto.
  - apply tagged_plain. intros c Hc. apply escape_In in Hc. tauto.
Qed.

(** C6. The converter escapes the raw text before any substitution: no
    angle bracket, quote or apostrophe of the input reaches the
    substitutions, a [<script>] in the input comes out with its angle
    brackets escaped, and in the output every angle bracket belongs to one
    of the four tags the converter itself writes. *)
Theorem escape_before_substitution :
  forall t : pystr,
    markdown_inline_to_html (JString t)
      = Ok (sub_italic (sub_bold (sub_bold_italic (escape t))))
    /\ (forall c, In c (escape t) ->
          c <> chr_lt /\ c <> chr_gt /\ c <> chr_quot /\ c <> chr_apos)
    /\ (forall a b, t = a ++ lit "<script>" ++ b ->
          escape t = escape a ++ lit "&lt;script&gt;" ++ escape b)
    /\ (exists out, markdown_inline_to_html (JString t) = Ok out /\ tagged out)
    /\ markdown_inline_to_html (JString (lit "<script>"))
         = Ok (lit "&lt;script&gt;").
Proof.
  intros t. split; [reflexivity|]. split.
  { intros c Hc. apply escape_In in Hc. tauto. }
  split.
  { intros a b ->. rewrite !escape_app. reflexivity. }
  split.
  { exists (inline_html t). split; [reflexivity | apply tagged_inline_html]. }
  vm_compute. reflexivity.
Qed.

Lemma escape_before_substitution_witness :
  escape (lit "a" ++ lit "<script>" ++ lit "b")
    = escape (lit "a") ++ lit "&lt;script&gt;" ++ escape (lit "b")
  /\ 38%N <> chr_lt.
Proof.
  destruct (escape_before_substitution (lit "a" ++ lit "<script>" ++ lit "b"))
    as (_ & Hc & Happ & _).
  split.
  - apply (Happ (lit "a") (lit "b")). reflexivity.
  - apply (Hc 38%N). vm_compute. auto.
Defined.

(* ------------------------------------------------------------------ *)
(** ** The matcher finds a delimited group *)

Lemma strip_prefix_cons_ne (x c : char) (d s : pystr) :
  c <> x -> strip_prefix (x :: d) (c :: s) = None.
Proof.
  intros H. cbn [strip_prefix]. destruct (N.eqb_spec x c); congruence.
Qed.

Section Lazy.
Context {A : Type}.
Variable p : char -> bool.
Variable k : pystr -> option A.

(** The lazy star walks over a text at no point of which the rest of the
    pattern matches. *)
Lemma star_lazy_scan (u rest : pystr) :
  Forall (fun c => p c = true) u ->
  (forall v w, u = v ++ w -> w <> [] -> k (w ++ rest) = None) ->
  star_lazy p k (u ++ rest) = star_lazy p k rest.
Proof.
  induction u as [|c u IH]; intros Hp Hk; [reflexivity|].
  inversion Hp as [|? ? Hc Hu]; subst.
  assert (H0 : k ((c :: u) ++ rest) = None)
    by (apply (Hk [] (c :: u) eq_refl); discriminate).
  cbn [app] in H0. cbn [app star_lazy]. rewrite H0, Hc.
  apply IH; [assumption|].
  intros v w -> Hw. apply (Hk (c :: v) w); [reflexivity | assumption].
Qed.

Lemma star_lazy_here (s : pystr) (x : A) :
  k s = Some x -> star_lazy p k s = Some x.
Proof. intros H. destruct s; cbn [star_lazy]; rewrite H; reflexivity. Qed.
End Lazy.

Lemma delimited_match_complete (d g rest : pystr) :
  g <> [] -> ~ In chr_star g -> ~ In chr_nl g ->
  match_at (delimited (chr_star :: d)) ((chr_star :: d) ++ g ++ (chr_star :: d) ++ rest)
    = Some (g, rest).
Proof.
  intros Hne Hstar Hnl.
  destruct g as [|c g]; [congruence|].
  unfold match_at, delimited, PlusLazy. cbn [pre grp post rmatch].
  rewrite strip_prefix_app.
  assert (Hc : dot c = true).
  { unfold dot. destruct (N.eqb_spec c chr_nl) as [->|]; [|reflexivity].
    exfalso. apply Hnl. left; reflexivity. }
  cbn [app]. rewrite Hc.
  rewrite star_lazy_scan.
  - apply star_lazy_here.
    pose proof (strip_prefix_app (chr_star :: d) rest) as Hp.
    pose proof (firstn_length_diff (c :: g) ((chr_star :: d) ++ rest)) as Hf.
    cbn [app] in Hp, Hf. rewrite Hp, Hf. reflexivity.
  - apply Forall_forall. intros y Hy. unfold dot.
    destruct (N.eqb_spec y chr_nl) as [->|]; [|reflexivity].
    exfalso. apply Hnl. right; assumption.
  - intros v w -> Hw. destruct w as [|y w]; [congruence|].
    cbn [app]. rewrite strip_prefix_cons_ne; [reflexivity|].
    intros ->. apply Hstar. right. apply in_or_app. right. left; reflexivity.
Qed.

(** No match begins at an asterisk that no other asterisk follows. *)
Lemma delimited_lonely_star (d s : pystr) :
  ~ In chr_star s -> match_at (delimited (chr_star :: d)) (chr_star :: s) = None.
Proof.
  intros Hs.
  destruct (match_at _ (chr_star :: s)) as [[g rest]|] eqn:E; [|reflexivity].
  apply delimited_match in E. destruct E as (E & _).
  exfalso. apply Hs. cbn [app] in E. inversion E as [E'].
  apply in_or_app. right. apply in_or_app. right. left; reflexivity.
Qed.

Lemma escape_star_free (x : pystr) : ~ In chr_star x -> ~ In chr_star (escape x).
Proof. intros H Hin. apply escape_In in Hin. tauto. Qed.

Lemma escape_nl_free (x : pystr) : ~ In chr_nl x -> ~ In chr_nl (escape x).
Proof. intros H Hin. apply escape_In in Hin. tauto. Qed.

Lemma replace_nonempty (old : char) (new s : pystr) :
  new <> [] -> s <> [] -> replace old new s <> [].
Proof.
  intros Hn Hs. destruct s as [|c s]; [congruence|].
  unfold replace. cbn [flat_map].
  destruct (N.eqb c old).
  - destruct new; [congruence | discriminate].
  - discriminate.
Qed.

Lemma escape_nonempty (x : pystr) : x <> [] -> escape x <> [].
Proof.
  intros H. unfold escape.
  repeat (apply replace_nonempty; [discriminate|]). assumption.
Qed.

(** A template around a group without asterisks, followed by nothing. *)
Lemma sub_delimited_wrap (d opening closing e : pystr) :
  e <> [] -> ~ In chr_star e -> ~ In chr_nl e ->
  sub (delimited (chr_star :: d)) (wrap opening closing)
      ((chr_star :: d) ++ e ++ (chr_star :: d))
    = opening ++ e ++ closing.
Proof.
  intros Hne Hs Hn.
  cbn [app]. rewrite sub_delimited_cons.
  change (chr_star :: d ++ e ++ chr_star :: d)
    with ((chr_star :: d) ++ e ++ (chr_star :: d)).
  rewrite <- (app_nil_r (chr_star :: d)) at 3.
  rewrite delimited_match_complete by assumption.
  rewrite sub_nil, app_nil_r. reflexivity.
Qed.

(** A shorter run of asterisks around a group is not a longer delimiter. *)
Lemma sub_delimited_short (n : nat) (d : pystr) repl (e : pystr) :
  e <> [] -> ~ In chr_star e ->
  all_stars d ->
  n < List.length (chr_star :: d) ->
  forall m, m <= n ->
  sub (delimited (chr_star :: d)) repl
      (repeat chr_star m ++ e ++ repeat chr_star n)
    = repeat chr_star m ++ e ++ repeat chr_star n.
Proof.
  intros Hne Hs Hd Hlen.
  assert (Htail : forall j, j <= n ->
    sub (delimited (chr_star :: d)) repl (repeat chr_star j)
      = repeat chr_star j).
  { induction j as [|j IHj]; intros Hj; [reflexivity|].
    cbn [repeat]. rewrite sub_delimited_cons.
    destruct (match_at _ (chr_star :: repeat chr_star j)) as [[g rest]|] eqn:E.
    - apply delimited_match in E. destruct E as (E & Hg & _).
      apply (f_equal (@List.length _)) in E.
      cbn [app] in E. cbn [List.length] in *.
      rewrite !length_app, repeat_length in E. cbn [List.length] in E.
      rewrite length_app in E. destruct g; [congruence|simpl in E; lia].
    - rewrite IHj by lia. reflexivity. }
  induction m as [|m IHm]; intros Hm.
  - cbn [repeat app]. rewrite sub_delimited_skip by assumption.
    rewrite Htail by lia. reflexivity.
  - cbn [repeat app]. rewrite sub_delimited_cons.
    destruct (match_at _ (chr_star :: repeat chr_star m ++ e ++ repeat chr_star n))
      as [[g rest]|] eqn:E.
    + exfalso. apply delimited_match in E. destruct E as (E & _).
      destruct e as [|c e]; [congruence|].
      assert (Hc : c <> chr_star) by (intros ->; apply Hs; left; reflexivity).
      (* the delimiter is longer than the run of asterisks before [c] *)
      assert (Hpre : forall (a : pystr) (i : nat) (u v : pystr),
        all_stars a -> repeat chr_star i ++ c :: u = a ++ v ->
        List.length a <= i).
      { clear -Hc. intros a. induction a as [|x a IHa]; intros i u v Ha Eq;
          [simpl; lia|].
        inversion Ha as [|? ? Hx Ha']; subst.
        destruct i as [|i]; cbn [repeat app] in Eq.
        - inversion Eq; congruence.
        - inversion Eq as [Eq']. apply IHa in Eq'; [simpl; lia | assumption]. }
      change (chr_star :: repeat chr_star m ++ (c :: e) ++ repeat chr_star n)
        with (repeat chr_star (S m) ++ c :: (e ++ repeat chr_star n)) in E.
      apply Hpre in E; [|constructor; [reflexivity|assumption]].
      cbn [List.length] in *. lia.
    + rewrite IHm by lia. reflexivity.
Qed.

(* ------------------------------------------------------------------ *)
(** ** The three substitutions, in their order *)

Section Wrapping.
Variable x : pystr.
Hypothesis x_nonempty : x <> [].
Hypothesis x_no_star : ~ In chr_star x.
Hypothesis x_no_newline : ~ In chr_nl x.

Let e := escape x.

Local Lemma e_nonempty : e <> [].
Proof. apply escape_nonempty, x_nonempty. Qed.
Local Lemma e_no_star : ~ In chr_star e.
Proof. apply escape_star_free, x_no_star. Qed.
Local Lemma e_no_newline : ~ In chr_nl e.
Proof. apply escape_nl_free, x_no_newline. Qed.

Local Lemma wrapped_no_star (opening closing : pystr) :
  ~ In chr_star opening -> ~ In chr_star closing ->
  ~ In chr_star (opening ++ e ++ closing).
Proof.
  intros Ho Hc Hin. apply in_app_or in Hin. destruct Hin as [H|H]; [tauto|].
  apply in_app_or in H. destruct H as [H|H]; [|tauto].
  apply e_no_star; assumption.
Qed.

Lemma inline_html_bold_italic :
  inline_html (lit "***" ++ x ++ lit "***")
    = lit "<strong><em>" ++ escape x ++ lit "</em></strong>".
Proof.
  unfold inline_html. rewrite !escape_app.
  change (escape (lit "***")) with (chr_star :: [chr_star; chr_star]).
  fold e. unfold sub_bold_italic.
  rewrite (sub_delimited_wrap [chr_star; chr_star])
    by (apply e_nonempty || apply e_no_star || apply e_no_newline).
  unfold sub_bold, sub_italic.
  change (lit "**") with (chr_star :: [chr_star]).
  change (lit "*") with (chr_star :: []).
  rewrite (sub_delimited_id chr_star [chr_star])
    by (apply wrapped_no_star; simpl; intuition discriminate).
  rewrite (sub_delimited_id chr_star [])
    by (apply wrapped_no_star; simpl; intuition discriminate).
  reflexivity.
Qed.

Lemma inline_html_bold :
  inline_html (lit "**" ++ x ++ lit "**")
    = lit "<strong>" ++ escape x ++ lit "</strong>".
Proof.
  unfold inline_html. rewrite !escape_app.
  change (escape (lit "**")) with (repeat chr_star 2).
  fold e. unfold sub_bold_italic.
  change (lit "***") with (chr_star :: [chr_star; chr_star]).
  rewrite (sub_delimited_short 2);
    [| apply e_nonempty | apply e_no_star | repeat constructor
     | simpl; lia | lia].
  unfold sub_bold.
  change (repeat chr_star 2) with (chr_star :: [chr_star]).
  change (lit "**") with (chr_star :: [chr_star]).
  rewrite (sub_delimited_wrap [chr_star])
    by (apply e_nonempty || apply e_no_star || apply e_no_newline).
  unfold sub_italic. change (lit "*") with (chr_star :: []).
  rewrite sub_delimited_id; [reflexivity|].
  apply wrapped_no_star; simpl; intuition discriminate.
Qed.

Lemma inline_html_italic :
  inline_html (lit "*" ++ x ++ lit "*")
    = lit "<em>" ++ escape x ++ lit "</em>".
Proof.
  unfold inline_html. rewrite !escape_app.
  change (escape (lit "*")) with (repeat chr_star 1).
  fold e. unfold sub_bold_italic, sub_bold.
  change (lit "***") with (chr_star :: [chr_star; chr_star]).
  change (lit "**") with (chr_star :: [chr_star]).
  rewrite (sub_delimited_short 1);
    [| apply e_nonempty | apply e_no_star | repeat constructor
     | simpl; lia | lia].
  rewrite (sub_delimited_short 1);
    [| apply e_nonempty | apply e_no_star | repeat constructor
     | simpl; lia | lia].
  unfold sub_italic.
  change (repeat chr_star 1) with (chr_star :: []).
  change (lit "*") with (chr_star :: []).
  rewrite (sub_delimited_wrap [])
    by (apply e_nonempty || apply e_no_star || apply e_no_newline).
  reflexivity.
Qed.
End Wrapping.

(** One asterisk between two texts without asterisks matches nothing. *)
Lemma sub_lonely_star (d : pystr) repl (a b : pystr) :
  ~ In chr_star a -> ~ In chr_star b ->
  sub (delimited (chr_star :: d)) repl (a ++ chr_star :: b)
    = a ++ chr_star :: b.
Proof.
  intros Ha Hb. rewrite sub_delimited_skip by assumption.
  rewrite sub_delimited_cons, delimited_lonely_star by assumption.
  rewrite sub_delimited_id by assumption. reflexivity.
Qed.

Lemma inline_html_lonely_star (a b : pystr) :
  ~ In chr_star a -> ~ In chr_star b ->
  inline_html (a ++ lit "*" ++ b) = escape a ++ lit "*" ++ escape b.
Proof.
  intros Ha Hb. unfold inline_html. rewrite !escape_app.
  change (escape (lit "*")) with [chr_star].
  change (lit "*") with [chr_star]. cbn [app].
  unfold sub_bold_italic, sub_bold, sub_italic.
  change (lit "***") with (chr_star :: [chr_star; chr_star]).
  change (lit "**") with (chr_star :: [chr_star]).
  change [chr_star] with (chr_star :: []) at 1.
  rewrite (sub_lonely_star [chr_star; chr_star]) by auto using escape_star_free.
  rewrite (sub_lonely_star [chr_star]) by auto using escape_star_free.
  rewrite (sub_lonely_star []) by auto using escape_star_free.
  reflexivity.
Qed.

(** C7. The substitutions run in the order bold+italic, bold, italic, each
    taking the shortest group: a text without asterisks and newlines
    between three, two or one asterisks on each side comes out in the
    bold+italic, bold or italic wrapping, a single asterisk between texts
    without asterisks stays as it is, and bold applied first would split a
    run of three asterisks. *)
Theorem substitution_precedence :
  (forall t, markdown_inline_to_html (JString t)
             = Ok (sub_italic (sub_bold (sub_bold_italic (escape t)))))
  /\ (forall x, x <> [] -> ~ In chr_star x -> ~ In chr_nl x ->
        markdown_inline_to_html (JString (lit "***" ++ x ++ lit "***"))
          = Ok (lit "<strong><em>" ++ escape x ++ lit "</em></strong>")
        /\ markdown_inline_to_html (JString (lit "**" ++ x ++ lit "**"))
          = Ok (lit "<strong>" ++ escape x ++ lit "</strong>")
        /\ markdown_inline_to_html (JString (lit "*" ++ x ++ lit "*"))
          = Ok (lit "<em>" ++ escape x ++ lit "</em>"))
  /\ (forall a b, ~ In chr_star a -> ~ In chr_star b ->
        markdown_inline_to_html (JString (a ++ lit "*" ++ b))
          = Ok (escape a ++ lit "*" ++ escape b))
  /\ markdown_inline_to_html (JString (lit "***a***"))
       = Ok (lit "<strong><em>a</em></strong>")
  /\ markdown_inline_to_html (JString (lit "**a**"))
       = Ok (lit "<strong>a</strong>")
  /\ markdown_inline_to_html (JString (lit "*a*")) = Ok (lit "<em>a</em>")
  /\ markdown_inline_to_html (JString (lit "a*b")) = Ok (lit "a*b")
  /\ markdown_inline_to_html (JString (lit "*a* *b*"))
       = Ok (lit "<em>a</em> <em>b</em>")
  /\ sub_bold (lit "***a***") = lit "<strong>*a</strong>*".
Proof.
  split; [reflexivity|]. split.
  { intros x H1 H2 H3. cbn [markdown_inline_to_html].
    rewrite inline_html_bold_italic, inline_html_bold, inline_html_italic
      by assumption.
    auto. }
  split.
  { intros a b Ha Hb. cbn [markdown_inline_to_html].
    rewrite inline_html_lonely_star by assumption. reflexivity. }
  repeat split; vm_compute; reflexivity.
Qed.

Lemma substitution_precedence_witness :
  markdown_inline_to_html (JString (lit "***" ++ lit "a b" ++ lit "***"))
    = Ok (lit "<strong><em>" ++ escape (lit "a b") ++ lit "</em></strong>")
  /\ markdown_inline_to_html (JString (lit "x" ++ lit "*" ++ lit "y"))
    = Ok (escape (lit "x") ++ lit "*" ++ escape (lit "y")).
Proof.
  destruct substitution_precedence as (_ & Hwrap & Hlone & _).
  split.
  - apply (Hwrap (lit "a b")).
    + discriminate.
    + simpl. intuition discriminate.
    + simpl. intuition discriminate.
  - apply (Hlone (lit "x") (lit "y")); simpl; intuition discriminate.
Defined.

(** C8, as amended. A text without asterisks comes out as its escaped form,
    so a text without asterisks and without any of the five characters that
    [escape] rewrites is returned unchanged, and converting it twice gives
    what converting it once gives. *)
Theorem plain_text_unchanged :
  forall s : pystr,
    ~ In chr_star s ->
    markdown_inline_to_html (JString s) = Ok (escape s)
    /\ (~ In chr_amp s -> ~ In chr_lt s -> ~ In chr_gt s ->
        ~ In chr_quot s -> ~ In chr_apos s ->
        markdown_inline_to_html (JString s) = Ok s
        /\ (o <- markdown_inline_to_html (JString s) ;;
            markdown_inline_to_html (JString o))
           = markdown_inline_to_html (JString s)).
Proof.
  intros s Hs.
  assert (E : markdown_inline_to_html (JString s) = Ok (escape s)).
  { cbn [markdown_inline_to_html]. unfold inline_html.
    unfold sub_bold_italic, sub_bold, sub_italic.
    change (lit "***") with (chr_star :: [chr_star; chr_star]).
    change (lit "**") with (chr_star :: [chr_star]).
    change (lit "*") with (chr_star :: []).
    rewrite (sub_delimited_id chr_star [chr_star; chr_star])
      by auto using escape_star_free.
    rewrite (sub_delimited_id chr_star [chr_star])
      by auto using escape_star_free.
    rewrite (sub_delimited_id chr_star []) by auto using escape_star_free.
    reflexivity. }
  split; [exact E|].
  intros H1 H2 H3 H4 H5.
  assert (Es : escape s = s).
  { unfold escape. cbv zeta.
    rewrite (replace_absent chr_amp) by assumption.
    rewrite (replace_absent chr_lt) by assumption.
    rewrite (replace_absent chr_gt) by assumption.
    rewrite (replace_absent chr_quot) by assumption.
    apply replace_absent; assumption. }
  rewrite E, Es. split; [reflexivity|].
  cbn [bind]. rewrite E, Es. reflexivity.
Qed.

Lemma plain_text_unchanged_witness :
  markdown_inline_to_html (JString (lit "plain text"))
    = Ok (lit "plain text").
Proof.
  refine (proj1 (proj2 (plain_text_unchanged (lit "plain text") _) _ _ _ _ _));
    simpl; intuition discriminate.
Defined.

(** The escaped form of [<] contains no asterisk, and the converter neither
    returns it unchanged nor is idempotent on it: the ampersand of the
    entity is escaped again. *)
Lemma escaped_text_not_fixed :
  ~ (forall t : pystr,
       let s := escape t in
       ~ In chr_star s ->
       markdown_inline_to_html (JString s) = Ok s
       /\ (o <- markdown_inline_to_html (JString s) ;;
           markdown_inline_to_html (JString o))
          = markdown_inline_to_html (JString s)).
Proof.
  intros H. specialize (H (lit "<")). cbv zeta in H.
  destruct H as [H _].
  - simpl. intuition discriminate.
  - vm_compute in H. discriminate.
Qed.

(* ------------------------------------------------------------------ *)
(** ** The normaliser *)

Lemma lookup_set_same (k : pystr) (v : json) (d : dict) :
  lookup k (PyVal.set k v d) = Some v.
Proof.
  induction d as [|[k' v'] d IH]; cbn [PyVal.set lookup].
  - rewrite eqb_refl. reflexivity.
  - destruct (PyStr.eqb k' k) eqn:E; cbn [lookup]; rewrite E; auto.
Qed.

Lemma mapM_total {A B} (f : A -> result B) (xs : list A) :
  (forall x, In x xs -> exists y, f x = Ok y) ->
  exists ys, mapM f xs = Ok ys.
Proof.
  induction xs as [|x xs IH]; intros H; cbn [mapM].
  - eexists; reflexivity.
  - destruct (H x (or_introl eq_refl)) as [y ->].
    destruct IH as [ys ->]; [intros z Hz; apply H; right; assumption|].
    eexists; reflexivity.
Qed.

Lemma patch_item_dict (it : json) :
  is_dict it = true -> exists it', patch_item it = Ok it'.
Proof.
  destruct it; try discriminate. intros _. unfold patch_item.
  destruct (_ && _); eexists; reflexivity.
Qed.

Lemma patch_section_ok (sec : json) :
  section_ok sec = true -> exists sec', patch_section sec = Ok sec'.
Proof.
  destruct sec as [| | | | | |d]; try discriminate.
  unfold section_ok, patch_section, attr_get, get_default, contains.
  destruct (lookup k_items d) as [v|] eqn:E; cbn [bind iter mapM].
  - destruct v as [| | | | |its|]; try discriminate. intros Hits.
    cbn [iter bind].
    destruct (mapM_total patch_item its) as [its' ->].
    + intros x Hx. apply patch_item_dict.
      rewrite forallb_forall in Hits. apply Hits; assumption.
    + cbn [bind]. eexists; reflexivity.
  - intros _. eexists; reflexivity.
Qed.

(** The loop that builds [items] yields one item per mapping, in order. *)
Lemma build_items_spec (elems acc : list json) :
  fold_left build_item elems acc
    = acc ++ List.map item_json (built_pairs elems).
Proof.
  revert acc. induction elems as [|it elems IH]; intros acc; cbn [fold_left].
  - cbn. rewrite app_nil_r. reflexivity.
  - rewrite IH. destruct it; cbn [build_item built_pairs flat_map app];
      try reflexivity.
    rewrite <- app_assoc. reflexivity.
Qed.

Lemma in_str_set_hashable (v : json) (ss : list pystr) :
  hashable v = true -> in_str_set v ss = Ok (existsb (eq_str v) ss).
Proof. destruct v; try discriminate; reflexivity. Qed.

Lemma in_str_set_unhashable (v : json) (ss : list pystr) :
  hashable v = false -> in_str_set v ss = Raise TypeError.
Proof. destruct v; try discriminate; reflexivity. Qed.

Lemma coerce_array (elems : list json) :
  coerce_to_sections_schema (JArray elems) =
  if first_type_hashable elems then
    Ok (one_section (fst (promoted (built_pairs elems)))
          (List.map item_json (snd (promoted (built_pairs elems)))))
  else Raise TypeError.
Proof.
  unfold coerce_to_sections_schema, first_type_hashable.
  rewrite build_items_spec. cbn [app].
  destruct (built_pairs elems) as [|[ty tx] rest]; [reflexivity|].
  cbn [List.map promote_heading item_json fst snd getitem lookup bind].
  change (PyStr.eqb k_type k_type) with true. cbv iota.
  cbn [bind].
  destruct (hashable ty) eqn:Hh.
  - rewrite (in_str_set_hashable _ _ Hh). cbn [bind promoted].
    fold (is_heading_tag ty).
    destruct (is_heading_tag ty); reflexivity.
  - rewrite (in_str_set_unhashable _ _ Hh). reflexivity.
Qed.

(** C2, as amended. For every array whose first built item has a type that
    can be hashed (anything but a non-empty list or object), the normaliser
    builds one item per mapping element, skipping the others, promotes a
    first item of type [h1], [h2] or [h3] to the heading, and returns
    exactly one section of type [h2] with that heading and the remaining
    items; the array of the example gives the heading [Title] and the
    single item of type [p] and text [body]. *)
Theorem array_becomes_one_section :
  forall elems : list json,
    first_type_hashable elems = true ->
    coerce_to_sections_schema (JArray elems)
      = Ok (one_section (fst (promoted (built_pairs elems)))
              (List.map item_json (snd (promoted (built_pairs elems)))))
    /\ (forall acc, fold_left build_item elems acc
                    = acc ++ List.map item_json (built_pairs elems))
    /\ coerce_to_sections_schema
         (JArray [JObject [(k_type, JString (lit "h2"));
                           (k_text, JString (lit "Title"))];
                  JObject [(k_text, JString (lit "body"))]])
       = Ok (one_section (JString (lit "Title"))
               [JObject [(k_type, JString (lit "p"));
                         (k_text, JString (lit "body"))]]).
Proof.
  intros elems H. rewrite coerce_array, H.
  split; [reflexivity|]. split; [apply build_items_spec|].
  vm_compute. reflexivity.
Qed.

Lemma array_becomes_one_section_witness :
  coerce_to_sections_schema
    (JArray [JInt 7;
             JObject [(k_type, JString (lit "h1")); (k_content, JString (lit "T"))];
             JObject [(k_text, JString (lit "x")); (k_type, JString (lit "li"))]])
  = Ok (one_section (JString (lit "T"))
          [JObject [(k_type, JString (lit "li")); (k_text, JString (lit "x"))]]).
Proof.
  refine (proj1 (array_becomes_one_section
    [JInt 7;
     JObject [(k_type, JString (lit "h1")); (k_content, JString (lit "T"))];
     JObject [(k_text, JString (lit "x")); (k_type, JString (lit "li"))]] _)).
  reflexivity.
Defined.

(** An array whose first mapping has a list as its type is not turned into
    a section: looking the list up in the set of heading tags raises. *)
Lemma array_with_list_type_raises :
  coerce_to_sections_schema
    (JArray [JObject [(k_type, JArray [JInt 1]); (k_text, JString (lit "x"))]])
    = Raise TypeError
  /\ ~ (forall elems : list json,
          exists heading items,
            coerce_to_sections_schema (JArray elems)
              = Ok (one_section heading items)).
Proof.
  split; [reflexivity|].
  intros H.
  destruct (H [JObject [(k_type, JArray [JInt 1]); (k_text, JString (lit "x"))]])
    as (h & its & E).
  vm_compute in E. discriminate.
Qed.

(** C10. In the array branch the fall-backs are triggered by falsiness: a
    [text] that is present but empty or null gives way to a non-empty
    [content], and a [type] that is empty or null gives [p]. *)
Theorem falsy_fields_fall_back :
  forall (acc : list json) (d : dict),
    let ty := py_or (get k_type d) (JString (lit "p")) in
    let tx := py_or (get k_text d) (py_or (get k_content d) (JString [])) in
    build_item acc (JObject d) = acc ++ [JObject [(k_type, ty); (k_text, tx)]]
    /\ (truthy (get k_text d) = false ->
        tx = py_or (get k_content d) (JString []))
    /\ (truthy (get k_type d) = false -> ty = JString (lit "p"))
    /\ (forall c,
          lookup k_text d = Some (JString []) \/ lookup k_text d = Some JNull ->
          lookup k_content d = Some (JString c) -> c <> [] ->
          tx = JString c)
    /\ (lookup k_type d = Some (JString []) \/ lookup k_type d = Some JNull ->
        ty = JString (lit "p")).
Proof.
  intros acc d ty tx. subst ty tx. split; [reflexivity|].
  split; [unfold py_or at 1; intros ->; reflexivity|].
  split; [unfold py_or at 1; intros ->; reflexivity|].
  split.
  - intros c Ht Hc Hne. unfold get, get_default.
    rewrite Hc. destruct c as [|x c]; [congruence|].
    destruct Ht as [-> | ->]; reflexivity.
  - intros Ht. unfold get, get_default.
    destruct Ht as [-> | ->]; reflexivity.
Qed.

Lemma falsy_fields_fall_back_witness :
  build_item []
    (JObject [(k_text, JString []); (k_content, JString (lit "c"));
              (k_type, JNull)])
  = [JObject [(k_type, JString (lit "p")); (k_text, JString (lit "c"))]].
Proof.
  destruct (falsy_fields_fall_back []
              [(k_text, JString []); (k_content, JString (lit "c"));
               (k_type, JNull)]) as (E & _ & _ & Htx & Hty).
  rewrite E.
  rewrite (Htx (lit "c")); [| left; reflexivity | reflexivity | discriminate].
  rewrite Hty; [reflexivity | right; reflexivity].
Defined.

(** C1, as amended. The normaliser returns a document without raising on
    every value that is neither an array nor an object with a [sections]
    key, and then the document has no sections; on every array whose first
    built item has a hashable type; and on every object whose [sections] is
    a list of objects in each of which [items], when present, is a list of
    objects. *)
Theorem normalize_total_on_well_shaped :
  forall data : json,
    well_shaped data = true ->
    exists doc,
      coerce_to_sections_schema data = Ok doc
      /\ is_document doc = true
      /\ (unrecognized data = true -> doc = empty_document).
Proof.
  intros data H. destruct data as [| | | | |elems|d]; cbn [well_shaped] in H;
    try (exists empty_document; repeat split; reflexivity).
  - rewrite coerce_array, H. eexists. split; [reflexivity|].
    split; [reflexivity | discriminate].
  - cbn [coerce_to_sections_schema unrecognized]. unfold contains.
    destruct (lookup k_sections d) as [secs|] eqn:E.
    + destruct secs as [| | | | |secs|]; try discriminate.
      cbn [iter bind].
      destruct (mapM_total patch_section secs) as [secs' ->].
      * intros x Hx. apply patch_section_ok.
        rewrite forallb_forall in H. apply H; assumption.
      * cbn [bind]. eexists. split; [reflexivity|].
        split; [|discriminate].
        cbn [is_document]. rewrite lookup_set_same. reflexivity.
    + exists empty_document. repeat split; reflexivity.
Qed.

Lemma normalize_total_on_well_shaped_witness :
  exists doc,
    coerce_to_sections_schema
      (JObject [(k_sections,
         JArray [JObject [(k_items,
           JArray [JObject [(k_content, JString (lit "c"))]])]])])
      = Ok doc
    /\ is_document doc = true.
Proof.
  destruct (normalize_total_on_well_shaped
    (JObject [(k_sections,
       JArray [JObject [(k_items,
         JArray [JObject [(k_content, JString (lit "c"))]])]])])
    eq_refl) as (doc & E & Hd & _).
  exists doc. split; assumption.
Defined.

(** An object whose [sections] is a number makes the normaliser raise:
    the first branch iterates over it. *)
Lemma malformed_sections_raises :
  coerce_to_sections_schema (JObject [(k_sections, JInt 5)]) = Raise TypeError
  /\ coerce_to_sections_schema (JObject [(k_sections, JArray [JInt 5])])
     = Raise AttributeError
  /\ ~ (forall data : json,
          exists doc, coerce_to_sections_schema data = Ok doc).
Proof.
  split; [reflexivity|]. split; [reflexivity|].
  intros H. destruct (H (JObject [(k_sections, JInt 5)])) as [doc E].
  vm_compute in E. discriminate.
Qed.

(* ------------------------------------------------------------------ *)
(** ** The renderer on a canonical document *)

Lemma flush_spec (html buffer : list pystr) :
  flush (html, buffer) = (html ++ closed_list buffer, []).
Proof.
  destruct buffer; cbn [flush closed_list]; [rewrite app_nil_r|]; reflexivity.
Qed.

Lemma markdown_of_text (t : pystr) :
  markdown_inline_to_html (py_or (JString t) (JString []))
    = Ok (inline_html t).
Proof. destruct t; reflexivity. Qed.

(** One step of the loop on an item of a canonical document: a list item
    joins the buffer, any other item closes the pending list first. *)
Lemma render_item_spec (html buffer : list pystr) (it : Item) :
  render_item (html, buffer) (json_of_item it) =
  if is_li it then Ok (html, buffer ++ [li_of it])
  else Ok ((html ++ closed_list buffer) ++ [p_of it], []).
Proof.
  unfold render_item.
  change (attr_get (json_of_item it) k_text (JString []))
    with (Ok (JString (item_text it))).
  cbn [bind]. rewrite markdown_of_text. cbn [bind].
  change (attr_get (json_of_item it) k_type (JString (lit "p")))
    with (Ok (JString (item_type it))).
  cbn [bind eq_str]. fold (is_li it).
  destruct (is_li it); [reflexivity|].
  rewrite flush_spec. reflexivity.
Qed.

Lemma groups_head_nonempty (items : list Item) (run : list Item) gs :
  groups items = GList run :: gs -> run <> [].
Proof.
  destruct items as [|it rest]; cbn [groups]; [discriminate|].
  destruct (is_li it); [|discriminate].
  destruct (groups rest) as [|[r|p] gs']; intros E; inversion E; discriminate.
Qed.

Lemma pending_blocks_empty (items : list Item) :
  pending_blocks [] items = item_blocks items.
Proof.
  unfold pending_blocks, item_blocks.
  destruct (groups items) as [|[run|it] gs] eqn:E; try reflexivity.
  apply groups_head_nonempty in E.
  destruct run; [congruence | reflexivity].
Qed.

Lemma render_loop_spec (items : list Item) :
  forall html buffer,
    (st <- foldM render_item (List.map json_of_item items) (html, buffer) ;;
     Ok (fst (flush st)))
    = Ok (html ++ pending_blocks buffer items).
Proof.
  induction items as [|it rest IH]; intros html buffer.
  - cbn [List.map foldM bind]. rewrite flush_spec.
    unfold pending_blocks. cbn [groups flat_map fst].
    rewrite app_nil_r. reflexivity.
  - cbn [List.map foldM]. rewrite render_item_spec.
    unfold pending_blocks. cbn [groups].
    destruct (is_li it); cbn [bind].
    + rewrite IH. unfold pending_blocks.
      destruct (groups rest) as [|[run|p] gs]; cbn [List.map];
        rewrite <- ?app_assoc; reflexivity.
    + rewrite IH, pending_blocks_empty. unfold item_blocks.
      cbn [flat_map group_blocks]. rewrite <- !app_assoc. reflexivity.
Qed.

Lemma render_items_spec (html : list pystr) (items : list Item) :
  render_items html (List.map json_of_item items)
    = Ok (html ++ item_blocks items).
Proof.
  unfold render_items. rewrite render_loop_spec, pending_blocks_empty.
  reflexivity.
Qed.

Lemma render_section_spec (html : list pystr) (sec : Section) :
  render_section html (json_of_section sec)
    = Ok (html ++ section_blocks sec).
Proof.
  unfold render_section.
  change (attr_get (json_of_section sec) k_heading (JString []))
    with (Ok (JString (sec_heading sec))).
  cbn [bind markdown_inline_to_html].
  change (attr_get (json_of_section sec) k_items (JArray []))
    with (Ok (JArray (List.map json_of_item (sec_items sec)))).
  cbn [bind iter]. rewrite render_items_spec.
  unfold section_blocks, heading_blocks.
  destruct (inline_html (sec_heading sec)); rewrite <- ?app_assoc; reflexivity.
Qed.

Lemma render_sections_spec (doc : Document) :
  forall html,
    foldM render_section (List.map json_of_section doc) html
      = Ok (html ++ document_blocks doc).
Proof.
  induction doc as [|sec doc IH]; intros html; cbn [List.map foldM].
  - cbn. rewrite app_nil_r. reflexivity.
  - rewrite render_section_spec. cbn [bind]. rewrite IH.
    unfold document_blocks. cbn [flat_map]. rewrite <- app_assoc. reflexivity.
Qed.

Lemma build_html_spec (doc : Document) :
  build_html_from_sections (json_of_document doc)
    = Ok (join [chr_nl] (document_blocks doc)).
Proof.
  unfold build_html_from_sections.
  change (truthy (json_of_document doc)) with true.
  change (py_contains_str k_sections (json_of_document doc)) with (Ok true).
  cbn [negb bind].
  change (getitem (json_of_document doc) k_sections)
    with (Ok (JArray (List.map json_of_section doc))).
  cbn [bind iter]. rewrite render_sections_spec. reflexivity.
Qed.

(** *** Maximal runs *)

Lemma groups_run (run rest : list Item) :
  run <> [] -> forallb is_li run = true -> head_is_li rest = false ->
  groups (run ++ rest) = GList run :: groups rest.
Proof.
  induction run as [|it run IH]; intros Hne Hli Hrest; [congruence|].
  cbn [forallb] in Hli. apply andb_true_iff in Hli. destruct Hli as [Hit Hrun].
  cbn [app groups]. rewrite Hit.
  destruct run as [|it' run'].
  - cbn [app]. destruct rest as [|r rest']; [reflexivity|].
    cbn [head_is_li] in Hrest. cbn [groups]. rewrite Hrest. reflexivity.
  - rewrite IH; [reflexivity | discriminate | assumption | assumption].
Qed.

(** C5. In every section of a canonical document the renderer emits the
    heading block and then the blocks of the items, in which each maximal
    run of consecutive [li] items is exactly one list block holding the
    list-item blocks of the run in order: a run of [li] items followed by
    nothing or by another kind of item is closed there, the other item is a
    paragraph outside any list, and list items after it open a new list
    block. *)
Theorem list_items_grouped_by_run :
  (forall (sec : Section) (html : list pystr),
      render_section html (json_of_section sec)
        = Ok (html ++ heading_blocks (sec_heading sec)
                   ++ item_blocks (sec_items sec)))
  /\ (forall run rest : list Item,
        run <> [] -> forallb is_li run = true -> head_is_li rest = false ->
        item_blocks (run ++ rest)
          = [lit "<ul>"] ++ List.map li_of run ++ [lit "</ul>"]
            ++ item_blocks rest)
  /\ (forall (it : Item) (rest : list Item),
        is_li it = false ->
        item_blocks (it :: rest) = p_of it :: item_blocks rest)
  /\ item_blocks [] = []
  /\ (forall html buffer it,
        render_item (html, buffer) (json_of_item it)
          = if is_li it then Ok (html, buffer ++ [li_of it])
            else Ok (fst (flush (html, buffer)) ++ [p_of it], [])).
Proof.
  split.
  { intros sec html. rewrite render_section_spec. reflexivity. }
  split.
  { intros run rest H1 H2 H3. unfold item_blocks.
    rewrite groups_run by assumption.
    cbn [flat_map group_blocks]. unfold list_block.
    rewrite <- !app_assoc. reflexivity. }
  split.
  { intros it rest H. unfold item_blocks. cbn [groups]. rewrite H.
    reflexivity. }
  split; [reflexivity|].
  intros html buffer it. rewrite render_item_spec, flush_spec. reflexivity.
Qed.

Lemma list_items_grouped_by_run_witness :
  let li t := {| item_text := t; item_type := lit "li" |} in
  let p t := {| item_text := t; item_type := lit "p" |} in
  item_blocks ([li (lit "a"); li (lit "b")] ++ [p (lit "x"); li (lit "c")])
    = [lit "<ul>"; lit "<li>a</li>"; lit "<li>b</li>"; lit "</ul>";
       lit "<p>x</p>";
       lit "<ul>"; lit "<li>c</li>"; lit "</ul>"].
Proof.
  intros li p.
  destruct list_items_grouped_by_run as (_ & Hrun & Hpara & Hnil & _).
  rewrite (Hrun [li (lit "a"); li (lit "b")] [p (lit "x"); li (lit "c")]);
    [| discriminate | reflexivity | reflexivity].
  rewrite (Hpara (p (lit "x")) [li (lit "c")]) by reflexivity.
  rewrite <- (app_nil_r [li (lit "c")]).
  rewrite (Hrun [li (lit "c")] []); [| discriminate | reflexivity | reflexivity].
  rewrite Hnil. vm_compute. reflexivity.
Defined.

Lemma newline_terminated_join (b : pystr) (blocks : list pystr) :
  newline_terminated (b :: blocks) = join [chr_nl] (b :: blocks) ++ [chr_nl].
Proof.
  revert b. induction blocks as [|b' blocks IH]; intros b.
  { unfold newline_terminated. cbn [flat_map join]. apply app_nil_r. }
  change (newline_terminated (b :: b' :: blocks))
    with ((b ++ [chr_nl]) ++ newline_terminated (b' :: blocks)).
  rewrite IH. cbn [join]. rewrite <- !app_assoc. reflexivity.
Qed.

(** C9, as amended. The renderer joins the blocks of all the sections, in
    order, with one newline between two consecutive blocks and none after
    the last; a document without sections gives the empty string. The
    output followed by a newline is the blocks each followed by a newline,
    when there is a block at all. *)
Theorem blocks_joined_by_newlines :
  forall doc : Document,
    build_html_from_sections (json_of_document doc)
      = Ok (join [chr_nl] (document_blocks doc))
    /\ build_html_from_sections (json_of_document []) = Ok []
    /\ newline_terminated (document_blocks doc)
       = match document_blocks doc with
         | [] => []
         | _ => join [chr_nl] (document_blocks doc) ++ [chr_nl]
         end.
Proof.
  intros doc. split; [apply build_html_spec|]. split; [reflexivity|].
  destruct (document_blocks doc) as [|b blocks]; [reflexivity|].
  apply newline_terminated_join.
Qed.

(** A document with one headed section renders to one block and no final
    newline, so the output is not the blocks each followed by a newline. *)
Lemma no_newline_after_last_block :
  build_html_from_sections
    (json_of_document [{| sec_heading := lit "x"; sec_items := [] |}])
    = Ok (lit "<p><strong>x</strong></p>")
  /\ ~ (forall doc : Document,
          build_html_from_sections (json_of_document doc)
            = Ok (newline_terminated (document_blocks doc))).
Proof.
  split; [vm_compute; reflexivity|].
  intros H.
  specialize (H [{| sec_heading := lit "x"; sec_items := [] |}]).
  vm_compute in H. discriminate.
Qed.

(* ------------------------------------------------------------------ *)
(** ** The extractor: failures *)

(** The model of the extractor over a decoder that fails only with
    [JSONDecodeError] is the extractor over that decoder. *)
Lemma extract_json_with_loads
    (json_loads : pystr -> json + (pystr * nat)) (text : option pystr) :
  extract_json_from_model_output json_loads text
    = extract_json_with (loads json_loads) text.
Proof. reflexivity. Qed.

Lemma message_not_empty (m : JsonLib.syntax_error) :
  JsonLib.message m <> lit "empty".
Proof. destruct m; discriminate. Qed.

Lemma extract_json_with_text (json_loads : pystr -> result json) (t : pystr) :
  t <> [] -> extract_json_with json_loads (Some t) = json_loads (candidate t).
Proof. intros H. destruct t; [congruence | reflexivity]. Qed.

(** C4, as amended. The extractor raises the error built on line 47 on an
    absent or empty text, and on any other text it does what [json.loads]
    does on the candidate: it returns the value the decoder returns and
    raises what the decoder raises. With the decoder of the standard
    library that is the value, or a [JSONDecodeError] that carries the
    candidate as its document and whose message is never [empty], or a
    [ValueError] for an integer literal of too many digits, or a
    [RecursionError] for arrays and objects nested too deep. *)
Theorem extractor_failure_modes :
  forall (json_loads : pystr -> result json) (text : option pystr),
    (is_empty_text text = true ->
       extract_json_with json_loads text = Raise EmptyResponse)
    /\ (forall t, text = Some t -> t <> [] ->
          extract_json_with json_loads text = json_loads (candidate t))
    /\ (forall e, extract_json_with json_loads text = Raise e ->
          (is_empty_text text = true /\ e = EmptyResponse)
          \/ (exists t, text = Some t /\ t <> []
                        /\ json_loads (candidate t) = Raise e))
    /\ (forall (lim : JsonLib.limits) t, text = Some t -> t <> [] ->
          match JsonLib.decode lim (candidate t) with
          | JsonLib.Parsed v _ _ =>
              extract_json_with (JsonLib.loads lim) text = Ok v
          | JsonLib.Syntax m pos =>
              extract_json_with (JsonLib.loads lim) text
                = Raise (MalformedJson (candidate t) (JsonLib.message m) pos)
              /\ MalformedJson (candidate t) (JsonLib.message m) pos
                 <> EmptyResponse
          | JsonLib.Limit JsonLib.Digits =>
              extract_json_with (JsonLib.loads lim) text = Raise ValueError
          | JsonLib.Limit JsonLib.Depth =>
              extract_json_with (JsonLib.loads lim) text
                = Raise RecursionError
          end).
Proof.
  intros json_loads text. split.
  { destruct text as [[|c t]|]; try discriminate; reflexivity. }
  split.
  { intros t -> Ht. apply extract_json_with_text. assumption. }
  split.
  { intros e He. destruct text as [[|c t]|].
    - left. cbn in He. inversion He. split; reflexivity.
    - right. exists (c :: t). repeat split; [discriminate | exact He].
    - left. cbn in He. inversion He. split; reflexivity. }
  intros lim t -> Ht. rewrite (extract_json_with_text _ t Ht).
  unfold JsonLib.loads.
  destruct (JsonLib.decode lim (candidate t)) as [v r i|m pos|[|]];
    try reflexivity.
  split; [reflexivity|].
  unfold MalformedJson, EmptyResponse. intros H. inversion H as [[Hm Hd Hp]].
  exact (message_not_empty m Hm).
Qed.

Lemma extractor_failure_modes_witness :
  extract_json_with (JsonLib.loads JsonLib.default_limits)
                    (Some (lit "{oops}"))
    = Raise (MalformedJson (lit "{oops}")
               (lit "Expecting property name enclosed in double quotes") 1)
  /\ extract_json_with (JsonLib.loads JsonLib.default_limits) (Some [])
     = Raise EmptyResponse
  /\ extract_json_with (JsonLib.loads JsonLib.default_limits)
                       (Some (lit "Here it is: {} I hope"))
     = Ok (JObject []).
Proof.
  split; [|split].
  - pose proof (proj2 (proj2 (proj2
      (extractor_failure_modes (JsonLib.loads JsonLib.default_limits)
                               (Some (lit "{oops}")))))
      JsonLib.default_limits (lit "{oops}") eq_refl) as H.
    exact (proj1 (H ltac:(discriminate))).
  - apply (proj1 (extractor_failure_modes
                    (JsonLib.loads JsonLib.default_limits) (Some []))).
    reflexivity.
  - rewrite (proj1 (proj2
      (extractor_failure_modes (JsonLib.loads JsonLib.default_limits)
                               (Some (lit "Here it is: {} I hope"))))
      (lit "Here it is: {} I hope") eq_refl) by discriminate.
    vm_compute. reflexivity.
Defined.

(** The claim as first stated fails. An array holding one integer of 4301
    digits is JSON, and decodes once the interpreter's limit on digits is
    lifted; with the limit, which is 4300 unless changed, the extractor
    raises [ValueError], and on two thousand opening brackets before a
    closing one [RecursionError]: neither is one of the two failures. And these two are
    of one kind: the text [x] has the empty candidate and fails with a
    [JSONDecodeError] that differs from the one for the empty text in its
    message alone. *)
Lemma long_integer_raises_value_error :
  extract_json_with (JsonLib.loads JsonLib.default_limits)
                    (Some (long_integer_text 4301))
    = Raise ValueError
  /\ extract_json_with
       (JsonLib.loads {| JsonLib.max_str_digits := 0;
                         JsonLib.max_depth := 994 |})
       (Some (long_integer_text 4301))
     = Ok (JArray [JInt (10 ^ 4301 - 1)])
  /\ extract_json_with (JsonLib.loads JsonLib.default_limits)
                       (Some (repeat 91%N 2000 ++ lit "]"))
     = Raise RecursionError
  /\ extract_json_with (JsonLib.loads JsonLib.default_limits) (Some [])
     = Raise (JSONDecodeError (lit "empty") [] 0)
  /\ extract_json_with (JsonLib.loads JsonLib.default_limits) (Some (lit "x"))
     = Raise (JSONDecodeError (lit "Expecting value") [] 0)
  /\ ~ (forall text e,
          extract_json_with (JsonLib.loads JsonLib.default_limits) text
            = Raise e ->
          e = EmptyResponse \/ exists doc msg pos, e = MalformedJson doc msg pos).
Proof.
  assert (E : extract_json_with (JsonLib.loads JsonLib.default_limits)
                                (Some (long_integer_text 4301))
              = Raise ValueError) by (vm_compute; reflexivity).
  split; [exact E|].
  split; [vm_compute; reflexivity|].
  split; [vm_compute; reflexivity|].
  split; [reflexivity|].
  split; [vm_compute; reflexivity|].
  intros H. destruct (H _ _ E) as [H0|(doc & msg & pos & H0)]; discriminate.
Qed.

(* ------------------------------------------------------------------ *)
(** ** Trimmed strings *)

Lemma dropwhile_length (p : char -> bool) (s : pystr) :
  List.length (dropwhile p s) <= List.length s.
Proof.
  induction s as [|c s IH]; cbn [dropwhile]; [lia|].
  destruct (p c); cbn [List.length]; lia.
Qed.

Lemma dropwhile_fixed (p : char -> bool) (s : pystr) :
  List.length (dropwhile p s) = List.length s ->
  match s with
  | [] => True
  | c :: _ => p c = false
  end.
Proof.
  destruct s as [|c s]; [trivial|]. cbn [dropwhile].
  destruct (p c); [|reflexivity].
  intros H. pose proof (dropwhile_length p s). cbn [List.length] in H. lia.
Qed.

Lemma dropwhile_id (p : char -> bool) (s : pystr) :
  match s with [] => True | c :: _ => p c = false end -> dropwhile p s = s.
Proof. destruct s as [|c s]; [reflexivity|]. cbn. intros ->. reflexivity. Qed.

(** A trimmed string has no white space at either end. *)
Lemma strip_fixed (s : pystr) :
  strip s = s ->
  match s with [] => True | c :: _ => isspace c = false end
  /\ match rev s with [] => True | c :: _ => isspace c = false end.
Proof.
  intros H.
  assert (L1 := dropwhile_length isspace s).
  assert (L2 := dropwhile_length isspace (rev (lstrip s))).
  apply (f_equal (@List.length _)) in H.
  unfold strip, rstrip in H. rewrite length_rev in H.
  rewrite length_rev in L2. unfold lstrip in *.
  assert (E1 : List.length (dropwhile isspace s) = List.length s) by lia.
  pose proof (dropwhile_fixed isspace s E1) as F1.
  split; [exact F1|].
  rewrite (dropwhile_id isspace s F1) in H.
  apply dropwhile_fixed. rewrite H. symmetry. apply length_rev.
Qed.

Lemma rev_head_last (s : pystr) (c : char) (r : pystr) :
  rev s = c :: r -> s = rev r ++ [c].
Proof.
  intros H. rewrite <- (rev_involutive s), H. reflexivity.
Qed.

(* ------------------------------------------------------------------ *)
(** ** Occurrences *)

Lemma occurs_head (sub s : pystr) :
  occurs sub s = false -> startswith sub s = false.
Proof.
  destruct s; cbn [occurs]; intros H; apply orb_false_iff in H; tauto.
Qed.

Lemma occurs_suffix (sub v w : pystr) :
  occurs sub (v ++ w) = false -> occurs sub w = false.
Proof.
  induction v as [|c v IH]; cbn [app]; [trivial|].
  cbn [occurs]. intros H. apply orb_false_iff in H. tauto.
Qed.

(** Whether a fence mark begins at the start of a text is decided by its
    first three characters. *)
Lemma fence_mark_local (w x : pystr) :
  w <> [] ->
  startswith fence_mark (w ++ fence_mark ++ x)
    = startswith fence_mark (w ++ lit "``").
Proof.
  intros Hw. destruct w as [|a [|b [|c w]]]; [congruence| | |];
    unfold startswith, fence_mark; cbn -[N.eqb];
    repeat match goal with
           | |- context [N.eqb ?u ?v] =>
               first [is_var v | is_var u]; destruct (N.eqb u v)
           end; reflexivity.
Qed.

Lemma fence_absent_before (before w v x : pystr) :
  occurs fence_mark (before ++ lit "``") = false ->
  before = v ++ w -> w <> [] ->
  startswith fence_mark (w ++ fence_mark ++ x) = false.
Proof.
  intros H -> Hw. rewrite fence_mark_local by assumption.
  apply occurs_head. apply (occurs_suffix _ v). rewrite app_assoc. exact H.
Qed.

(* ------------------------------------------------------------------ *)
(** ** The search for a fenced block *)

Lemma search_skip (pat : pattern) (u rest : pystr) :
  (forall v w, u = v ++ w -> w <> [] -> match_at pat (w ++ rest) = None) ->
  search pat (u ++ rest) = search pat rest.
Proof.
  induction u as [|c u IH]; intros H; [reflexivity|].
  cbn [app search].
  assert (E : match_at pat ((c :: u) ++ rest) = None)
    by (apply (H [] (c :: u)); [reflexivity | discriminate]).
  cbn [app] in E. rewrite E. apply IH.
  intros v w -> Hw. apply (H (c :: v) w); [reflexivity | assumption].
Qed.

Lemma search_here (pat : pattern) (s g rest : pystr) :
  match_at pat s = Some (g, rest) -> search pat s = Some g.
Proof. intros H. destruct s; cbn [search]; rewrite H; reflexivity. Qed.

Lemma search_sound (pat : pattern) (s g : pystr) :
  search pat s = Some g ->
  exists u w rest, s = u ++ w /\ match_at pat w = Some (g, rest).
Proof.
  induction s as [|c s IH]; cbn [search].
  - destruct (match_at pat []) as [[g' rest]|] eqn:E; [|discriminate].
    intros H; inversion H; subst g'. exists [], [], rest; auto.
  - destruct (match_at pat (c :: s)) as [[g' rest]|] eqn:E.
    + intros H; inversion H; subst g'. exists [], (c :: s), rest; auto.
    + intros H. destruct (IH H) as (u & w & rest & -> & Hm).
      exists (c :: u), w, rest; auto.
Qed.

Lemma fence_match_needs_mark (s : pystr) :
  startswith fence_mark s = false -> match_at fence_pattern s = None.
Proof.
  intros H. apply startswith_false in H.
  unfold match_at, fence_pattern. cbn [pre rmatch]. rewrite H. reflexivity.
Qed.

(** Without two fence marks one after the other, the search finds
    nothing. *)
Lemma search_fence_none (s : pystr) :
  ~ has_fence s -> search fence_pattern s = None.
Proof.
  intros Hn. destruct (search fence_pattern s) as [g|] eqn:E; [|reflexivity].
  exfalso. apply Hn.
  apply search_sound in E. destruct E as (u & w & rest & -> & Hm).
  apply match_at_sound in Hm.
  destruct Hm as (u1 & u3 & -> & H1 & _ & H3).
  cbn [pre post fence_pattern lang] in H1, H3.
  destruct H1 as (a & b & -> & -> & _).
  destruct H3 as (a3 & b3 & -> & _ & ->).
  exists u, (b ++ g ++ a3), rest.
  rewrite <- !app_assoc. reflexivity.
Qed.

Section Greedy.
Context {A : Type}.
Variable p : char -> bool.
Variable k : pystr -> option A.

(** The greedy star takes a whole run of the class when the rest of the
    pattern matches after it. *)
Lemma star_greedy_run (ws rest : pystr) (x : A) :
  forallb p ws = true ->
  match rest with [] => True | c :: _ => p c = false end ->
  k rest = Some x ->
  star_greedy p k (ws ++ rest) = Some x.
Proof.
  induction ws as [|c ws IH]; intros Hws Hrest Hk.
  - destruct rest as [|c rest]; cbn [app star_greedy]; [assumption|].
    rewrite Hrest. assumption.
  - cbn [forallb] in Hws. apply andb_true_iff in Hws.
    destruct Hws as [Hc Hws].
    cbn [app star_greedy]. rewrite Hc, IH by assumption. reflexivity.
Qed.

(** It fails when the rest of the pattern matches at no point of the
    leading run. *)
Lemma star_greedy_none (t : pystr) :
  (forall v w, t = v ++ w -> forallb p v = true -> k w = None) ->
  star_greedy p k t = None.
Proof.
  induction t as [|c t IH]; intros H; cbn [star_greedy].
  - apply (H [] []); reflexivity.
  - assert (Hk : k (c :: t) = None) by (apply (H [] (c :: t)); reflexivity).
    destruct (p c) eqn:Hc; [|assumption].
    rewrite IH; [assumption|].
    intros v w -> Hv. apply (H (c :: v) w); [reflexivity|].
    cbn [forallb]. rewrite Hc, Hv. reflexivity.
Qed.
End Greedy.

(** A run of white space at the start of a text that continues a word
    ending in a character that is no white space stops inside the word. *)
Lemma space_run_inside (w0 : pystr) (c : char) (y v w : pystr) :
  isspace c = false ->
  (w0 ++ [c]) ++ y = v ++ w -> forallb isspace v = true ->
  exists w1, w1 <> [] /\ w0 ++ [c] = v ++ w1 /\ w = w1 ++ y.
Proof.
  intros Hc E Hv. apply app_eq_app in E.
  destruct E as (l & [[E1 E2]|[E1 E2]]).
  - destruct l as [|a l].
    + rewrite app_nil_r in E1. subst v.
      rewrite forallb_app in Hv. cbn in Hv. rewrite Hc in Hv.
      rewrite andb_false_r in Hv. discriminate.
    + exists (a :: l). repeat split; [discriminate | assumption | assumption].
  - subst v. rewrite !forallb_app in Hv. cbn in Hv. rewrite Hc in Hv.
    rewrite andb_false_r in Hv. discriminate.
Qed.

Lemma suffix_keeps_last (s v w r : pystr) (c : char) :
  s = v ++ w -> w <> [] -> rev s = c :: r -> exists w0, w = w0 ++ [c].
Proof.
  intros -> Hw Hr. apply rev_head_last in Hr.
  destruct (exists_last Hw) as (w0 & a & ->).
  rewrite app_assoc in Hr. apply app_inj_tail in Hr. destruct Hr as [_ ->].
  exists w0; reflexivity.
Qed.

Section FenceMatch.
Variables tag ws1 inner ws2 after : pystr.

Hypothesis tag_ok :
  tag = lit "json"
  \/ (tag = []
      /\ startswith (lit "json") (ws1 ++ inner ++ ws2 ++ fence_mark ++ after)
         = false).
Hypothesis ws1_space : forallb isspace ws1 = true.
Hypothesis ws2_space : forallb isspace ws2 = true.
Hypothesis inner_trimmed : strip inner = inner.
Hypothesis closing_first : occurs fence_mark (inner ++ ws2 ++ lit "``") = false.
Hypothesis empty_inner : inner = [] -> ws2 = [].

(** What remains of the pattern after the opening mark, the tag and the
    white space: the group, and the closing mark. *)
Let body (s1 : pystr) : option (pystr * pystr) :=
  rmatch (grp fence_pattern) s1 (fun s2 =>
    rmatch (post fence_pattern) s2 (fun s3 =>
      Some (firstn (List.length s1 - List.length s2) s1, s3))).

Local Lemma closing_here (s1 : pystr) :
  rmatch (post fence_pattern) (ws2 ++ fence_mark ++ after) (fun s3 =>
    Some (firstn (List.length s1
                  - List.length (ws2 ++ fence_mark ++ after)) s1, s3))
  = Some (firstn (List.length s1
                  - List.length (ws2 ++ fence_mark ++ after)) s1, after).
Proof.
  cbn [post fence_pattern rmatch].
  apply star_greedy_run; [assumption | reflexivity|].
  rewrite strip_prefix_app. reflexivity.
Qed.

Local Lemma closing_not_before (s1 v w : pystr) :
  inner = v ++ w -> w <> [] ->
  rmatch (post fence_pattern) (w ++ ws2 ++ fence_mark ++ after) (fun s3 =>
    Some (firstn (List.length s1
                  - List.length (w ++ ws2 ++ fence_mark ++ after)) s1, s3))
  = None.
Proof.
  intros Hin Hw. cbn [post fence_pattern rmatch].
  apply star_greedy_none. intros v' w' E Hv'.
  destruct (strip_fixed inner inner_trimmed) as [_ Hlast].
  destruct (rev inner) as [|c r] eqn:Hr.
  { apply (f_equal (@List.length _)) in Hr. rewrite length_rev in Hr.
    rewrite Hin, length_app in Hr. destruct w; [congruence|].
    cbn in Hr. lia. }
  destruct (suffix_keeps_last inner v w r c Hin Hw Hr) as [w0 Hw0].
  subst w.
  destruct (space_run_inside w0 c _ v' w' Hlast E Hv')
    as (w1 & Hw1 & Ew & ->).
  assert (Hs : startswith fence_mark (w1 ++ ws2 ++ fence_mark ++ after) = false).
  { rewrite app_assoc. rewrite fence_mark_local
      by (destruct w1; [congruence | discriminate]).
    apply occurs_head. apply (occurs_suffix _ (v ++ v')).
    replace ((v ++ v') ++ (w1 ++ ws2) ++ lit "``")
      with (inner ++ ws2 ++ lit "``"); [exact closing_first|].
    rewrite Hin, Ew, <- !app_assoc. reflexivity. }
  apply startswith_false in Hs. rewrite Hs. reflexivity.
Qed.

Local Lemma body_match :
  body (inner ++ ws2 ++ fence_mark ++ after) = Some (inner, after).
Proof.
  unfold body. cbn [grp fence_pattern]. cbn [rmatch].
  rewrite star_lazy_scan.
  - apply star_lazy_here.
    change (star_greedy space ?k ?s)
      with (rmatch (post fence_pattern) s k).
    rewrite closing_here. f_equal. f_equal. apply firstn_length_diff.
  - apply Forall_forall. reflexivity.
  - intros v w Hin Hw.
    change (star_greedy space ?k ?s)
      with (rmatch (post fence_pattern) s k).
    apply (closing_not_before _ v w Hin Hw).
Qed.

Local Lemma inner_head :
  match inner ++ ws2 ++ fence_mark ++ after with
  | [] => True
  | c :: _ => isspace c = false
  end.
Proof.
  destruct (strip_fixed inner inner_trimmed) as [Hhead _].
  destruct inner as [|c i]; [|exact Hhead].
  rewrite empty_inner by reflexivity. reflexivity.
Qed.

(** The pattern matches at the opening mark, and its group is the inner
    text. *)
Lemma fence_match :
  match_at fence_pattern
    (fence_mark ++ tag ++ ws1 ++ inner ++ ws2 ++ fence_mark ++ after)
  = Some (inner, after).
Proof.
  unfold match_at. cbn [pre fence_pattern]. cbn [rmatch].
  rewrite strip_prefix_app.
  lazymatch goal with
  | |- context [star_greedy space ?K (tag ++ _)] =>
      assert (Hrun : star_greedy space K
                       (ws1 ++ inner ++ ws2 ++ fence_mark ++ after)
                     = Some (inner, after))
        by (apply star_greedy_run;
            [assumption | apply inner_head | exact body_match])
  end.
  destruct tag_ok as [-> | [-> Hj]].
  - rewrite strip_prefix_app. cbv beta iota. rewrite Hrun. reflexivity.
  - cbn [app]. apply startswith_false in Hj. rewrite Hj. exact Hrun.
Qed.
End FenceMatch.

(** The candidate of a text with a fenced block is the inner text of the
    first block. *)
Lemma candidate_fence (text before tag ws1 inner ws2 after : pystr) :
  strip text
    = before ++ fence_mark ++ tag ++ ws1 ++ inner ++ ws2 ++ fence_mark ++ after ->
  occurs fence_mark (before ++ lit "``") = false ->
  tag = lit "json"
  \/ (tag = []
      /\ startswith (lit "json") (ws1 ++ inner ++ ws2 ++ fence_mark ++ after)
         = false) ->
  forallb isspace ws1 = true ->
  forallb isspace ws2 = true ->
  strip inner = inner ->
  occurs fence_mark (inner ++ ws2 ++ lit "``") = false ->
  candidate text = inner.
Proof.
  intros Hs Hbefore Htag Hws1 Hws2 Hinner Hclosing.
  unfold candidate. cbv zeta. rewrite Hs.
  rewrite search_skip.
  2:{ intros v w Hv Hw. apply fence_match_needs_mark.
      apply (fence_absent_before before w v); assumption. }
  assert (Hm : match_at fence_pattern
                 (fence_mark ++ tag ++ ws1 ++ inner ++ ws2 ++ fence_mark ++ after)
               = Some (inner, after)).
  { destruct inner as [|c inner'] eqn:Ei.
    - replace (fence_mark ++ tag ++ ws1 ++ [] ++ ws2 ++ fence_mark ++ after)
        with (fence_mark ++ tag ++ (ws1 ++ ws2) ++ [] ++ [] ++ fence_mark ++ after)
        by (cbn [app]; rewrite <- !app_assoc; reflexivity).
      apply fence_match; try reflexivity.
      + destruct Htag as [->|[-> Hj]]; [left; reflexivity|].
        right. split; [reflexivity|].
        cbn [app] in *. rewrite <- app_assoc. exact Hj.
      + rewrite forallb_app, Hws1, Hws2. reflexivity.
    - apply fence_match; try assumption. discriminate. }
  rewrite (search_here _ _ _ _ Hm). exact Hinner.
Qed.

(* ------------------------------------------------------------------ *)
(** ** [find], [rfind] and slices *)

Lemma startswith_single (c : char) (s : pystr) :
  startswith [c] s = match s with x :: _ => N.eqb c x | [] => false end.
Proof.
  unfold startswith. destruct s as [|x s]; [reflexivity|].
  cbn [strip_prefix]. destruct (N.eqb c x); reflexivity.
Qed.

Lemma find_from_first (c : char) (s : pystr) :
  forall (a : nat) (i : Z),
    first_at c s a -> find_from [c] s i = (i + Z.of_nat a)%Z.
Proof.
  unfold first_at.
  induction s as [|x s IH]; intros a i [Hn Hf].
  - destruct a; discriminate.
  - cbn [find_from]. rewrite startswith_single.
    destruct a as [|a].
    + cbn in Hn. inversion Hn; subst x. rewrite N.eqb_refl. lia.
    + cbn [nth_error firstn] in Hn, Hf.
      destruct (N.eqb_spec c x) as [->|Hne].
      * exfalso. apply Hf. left; reflexivity.
      * rewrite (IH a); [lia|]. split; [assumption|].
        intros Hin. apply Hf. right; assumption.
Qed.

Lemma rfind_from_absent (c : char) (s : pystr) :
  forall i : Z, ~ In c s -> rfind_from [c] s i = (-1)%Z.
Proof.
  induction s as [|x s IH]; intros i H; cbn [rfind_from].
  - reflexivity.
  - rewrite IH by (intros Hin; apply H; right; assumption).
    rewrite startswith_single. cbn.
    destruct (N.eqb_spec c x) as [->|]; [|reflexivity].
    exfalso. apply H. left; reflexivity.
Qed.

Lemma rfind_from_last (c : char) (s : pystr) :
  forall (b : nat) (i : Z),
    (0 <= i)%Z -> last_at c s b ->
    rfind_from [c] s i = (i + Z.of_nat b)%Z.
Proof.
  unfold last_at.
  induction s as [|x s IH]; intros b i Hi [Hn Hl].
  - destruct b; discriminate.
  - cbn [rfind_from]. destruct b as [|b].
    + cbn in Hn, Hl. inversion Hn; subst x.
      rewrite rfind_from_absent by assumption.
      rewrite startswith_single, N.eqb_refl. cbn. lia.
    + cbn [nth_error] in Hn.
      change (skipn (S (S b)) (x :: s)) with (skipn (S b) s) in Hl.
      rewrite (IH b (i + 1)%Z); [|lia|split; assumption].
      destruct (Z.leb_spec 0 (i + 1 + Z.of_nat b)); lia.
Qed.

Lemma slice_range (s : pystr) (a b : nat) :
  a < List.length s -> b < List.length s ->
  slice s (Z.of_nat a) (Z.of_nat b + 1) = firstn (b + 1 - a) (skipn a s).
Proof.
  intros Ha Hb. unfold slice, adjust_index.
  destruct (Z.ltb_spec (Z.of_nat a) 0); [lia|].
  destruct (Z.ltb_spec (Z.of_nat b + 1) 0); [lia|].
  rewrite !Z.min_l by lia.
  rewrite Nat2Z.id. f_equal. lia.
Qed.

(** The candidate of a text without fenced block runs from the first
    opening bracket to the last closing bracket of the trimmed text. *)
Lemma candidate_brackets (text : pystr) (a b : nat) :
  ~ has_fence (strip text) ->
  first_at (opening_bracket (strip text)) (strip text) a ->
  last_at (closing_bracket (strip text)) (strip text) b ->
  candidate text = firstn (b + 1 - a) (skipn a (strip text)).
Proof.
  intros Hn Ha Hb. unfold candidate. cbv zeta.
  rewrite (search_fence_none _ Hn).
  assert (La : a < List.length (strip text)).
  { apply nth_error_Some. destruct Ha as [-> _]. discriminate. }
  assert (Lb : b < List.length (strip text)).
  { apply nth_error_Some. destruct Hb as [-> _]. discriminate. }
  unfold opening_bracket, closing_bracket in *.
  unfold find, rfind.
  destruct (startswith (lit "[") (strip text)).
  - change (lit "[") with [chr_lbracket]. change (lit "]") with [chr_rbracket].
    rewrite (find_from_first _ _ a 0 Ha).
    rewrite (rfind_from_last _ _ b 0 (Z.le_refl 0) Hb).
    apply slice_range; assumption.
  - change (lit "{") with [chr_lbrace]. change (lit "}") with [chr_rbrace].
    rewrite (find_from_first _ _ a 0 Ha).
    rewrite (rfind_from_last _ _ b 0 (Z.le_refl 0) Hb).
    apply slice_range; assumption.
Qed.

(* ------------------------------------------------------------------ *)
(** ** Every fenced block is found *)

Lemma dropwhile_split (p : char -> bool) (s : pystr) :
  exists u, s = u ++ dropwhile p s /\ forallb p u = true.
Proof.
  induction s as [|c s (u & E & Hu)]; [exists []; auto|].
  cbn [dropwhile]. destruct (p c) eqn:Hc.
  - exists (c :: u). cbn [app forallb]. rewrite Hc, Hu, <- E. auto.
  - exists []. auto.
Qed.

Lemma dropwhile_head (p : char -> bool) (s : pystr) :
  match dropwhile p s with [] => True | c :: _ => p c = false end.
Proof.
  induction s as [|c s IH]; cbn [dropwhile]; [trivial|].
  destruct (p c) eqn:Hc; assumption.
Qed.

Lemma dropwhile_idempotent (p : char -> bool) (s : pystr) :
  dropwhile p (dropwhile p s) = dropwhile p s.
Proof. apply dropwhile_id, dropwhile_head. Qed.

Lemma forallb_rev (p : char -> bool) (s : pystr) :
  forallb p (rev s) = forallb p s.
Proof.
  induction s as [|c s IH]; [reflexivity|].
  cbn [rev forallb]. rewrite forallb_app, IH. cbn [forallb].
  rewrite andb_true_r. apply andb_comm.
Qed.

(** A text is its right-trimmed part followed by white space. *)
Lemma rstrip_split (s : pystr) :
  exists ws, s = rstrip s ++ ws /\ forallb isspace ws = true.
Proof.
  unfold rstrip. destruct (dropwhile_split isspace (rev s)) as (u & E & Hu).
  exists (rev u). split.
  - rewrite <- rev_app_distr, <- E. symmetry. apply rev_involutive.
  - rewrite forallb_rev. assumption.
Qed.

Lemma rstrip_idempotent (s : pystr) : rstrip (rstrip s) = rstrip s.
Proof.
  unfold rstrip. rewrite rev_involutive, dropwhile_idempotent. reflexivity.
Qed.

Lemma occurs_here (sub w : pystr) : occurs sub (sub ++ w) = true.
Proof.
  assert (H : startswith sub (sub ++ w) = true)
    by (apply startswith_true; eauto).
  destruct (sub ++ w); cbn [occurs]; rewrite H; reflexivity.
Qed.

Lemma occurs_app_r (sub v w : pystr) :
  occurs sub w = true -> occurs sub (v ++ w) = true.
Proof.
  intros H. induction v as [|c v IH]; [assumption|].
  cbn [app occurs]. rewrite IH. apply orb_true_r.
Qed.

Lemma occurs_fence_skip (c : char) (s : pystr) :
  c <> 96%N -> occurs fence_mark (c :: s) = occurs fence_mark s.
Proof.
  intros Hc. cbn [occurs].
  replace (startswith fence_mark (c :: s)) with false; [reflexivity|].
  symmetry. apply startswith_false.
  apply strip_prefix_cons_ne. assumption.
Qed.

Lemma occurs_fence_skip_run (u s : pystr) :
  ~ In 96%N u -> occurs fence_mark (u ++ s) = occurs fence_mark s.
Proof.
  induction u as [|c u IH]; intros H; [reflexivity|].
  cbn [app]. rewrite occurs_fence_skip.
  - apply IH. intros Hin. apply H. right; assumption.
  - intros ->. apply H. left; reflexivity.
Qed.

Lemma space_not_backquote (u : pystr) :
  forallb isspace u = true -> ~ In 96%N u.
Proof.
  intros H Hin. rewrite forallb_forall in H. apply H in Hin. discriminate.
Qed.

(** The first fence mark of a text in which one occurs. *)
Lemma first_mark (s : pystr) :
  occurs fence_mark s = true ->
  exists before rest,
    s = before ++ fence_mark ++ rest
    /\ occurs fence_mark (before ++ lit "``") = false.
Proof.
  induction s as [|c s IH]; intros H.
  - discriminate.
  - destruct (startswith fence_mark (c :: s)) eqn:Hs.
    + apply startswith_true in Hs. destruct Hs as [r Hr].
      exists [], r. split; [exact Hr | reflexivity].
    + cbn [occurs] in H. rewrite Hs in H. cbn [orb] in H.
      destruct (IH H) as (b & r & -> & Hb).
      exists (c :: b), r. split; [reflexivity|].
      cbn [app occurs]. rewrite Hb, orb_false_r.
      change (c :: b ++ lit "``") with ((c :: b) ++ lit "``").
      rewrite <- (fence_mark_local (c :: b) r) by discriminate. exact Hs.
Qed.

(** After the first mark of a text with a fenced block comes another. *)
Lemma second_mark (s before rest : pystr) :
  has_fence s ->
  s = before ++ fence_mark ++ rest ->
  occurs fence_mark (before ++ lit "``") = false ->
  occurs fence_mark rest = true.
Proof.
  intros (u & v & w & E) Es Hb. rewrite Es in E. clear Es.
  apply app_eq_app in E. destruct E as (l & [[E1 E2]|[E1 E2]]).
  - destruct l as [|a l].
    + cbn [app] in E2. apply app_inv_head in E2. subst rest.
      apply occurs_app_r, occurs_here.
    + exfalso. subst before.
      assert (Hs : startswith fence_mark ((a :: l) ++ fence_mark ++ rest) = true)
        by (apply startswith_true; exists (v ++ fence_mark ++ w);
            symmetry; exact E2).
      rewrite fence_mark_local in Hs by discriminate.
      rewrite <- app_assoc in Hb. apply occurs_suffix in Hb.
      apply occurs_head in Hb. congruence.
  - destruct l as [|a l].
    + cbn [app] in E2. apply app_inv_head in E2. subst rest.
      apply occurs_app_r, occurs_here.
    + assert (Er : rest = skipn 3 ((a :: l) ++ fence_mark ++ v)
                          ++ fence_mark ++ w).
      { change rest with (skipn 3 (fence_mark ++ rest)). rewrite E2.
        replace ((a :: l) ++ fence_mark ++ v ++ fence_mark ++ w)
          with (((a :: l) ++ fence_mark ++ v) ++ fence_mark ++ w)
          by (rewrite <- !app_assoc; reflexivity).
        rewrite skipn_app.
        replace (3 - List.length ((a :: l) ++ fence_mark ++ v)) with 0.
        - reflexivity.
        - rewrite !length_app. change (List.length fence_mark) with 3.
          cbn [List.length]. lia. }
      rewrite Er. apply occurs_app_r, occurs_here.
Qed.

Lemma fence_decomposition (s : pystr) :
  has_fence s ->
  exists before tag ws1 inner ws2 after,
    s = before ++ fence_mark ++ tag ++ ws1 ++ inner ++ ws2 ++ fence_mark ++ after
    /\ occurs fence_mark (before ++ lit "``") = false
    /\ (tag = lit "json"
        \/ (tag = []
            /\ startswith (lit "json")
                 (ws1 ++ inner ++ ws2 ++ fence_mark ++ after) = false))
    /\ forallb isspace ws1 = true
    /\ forallb isspace ws2 = true
    /\ strip inner = inner
    /\ occurs fence_mark (inner ++ ws2 ++ lit "``") = false.
Proof.
  intros Hf.
  assert (Ho : occurs fence_mark s = true).
  { destruct Hf as (u & v & w & ->). apply occurs_app_r, occurs_here. }
  destruct (first_mark s Ho) as (before & rest & Es & Hb).
  pose proof (second_mark s before rest Hf Es Hb) as Hrest.
  (* the tag *)
  assert (Htag : exists tag rest1,
    rest = tag ++ rest1 /\ occurs fence_mark rest1 = true
    /\ (tag = lit "json"
        \/ (tag = [] /\ startswith (lit "json") rest1 = false))).
  { destruct (startswith (lit "json") rest) eqn:Hj.
    - apply startswith_true in Hj. destruct Hj as [r ->].
      exists (lit "json"), r. split; [reflexivity|]. split; [|left; reflexivity].
      rewrite occurs_fence_skip_run in Hrest; [assumption|].
      cbn. intuition discriminate.
    - exists [], rest. auto. }
  destruct Htag as (tag & rest1 & -> & Hrest1 & Htag).
  (* the white space after the tag *)
  destruct (dropwhile_split isspace rest1) as (ws1 & E1 & Hws1).
  pose proof (dropwhile_head isspace rest1) as Hhead.
  set (rest2 := dropwhile isspace rest1) in *.
  assert (Hrest2 : occurs fence_mark rest2 = true).
  { rewrite E1, occurs_fence_skip_run in Hrest1;
      [assumption | apply space_not_backquote; assumption]. }
  (* the closing mark *)
  destruct (first_mark rest2 Hrest2) as (mid & after & E2 & Hmid).
  destruct (rstrip_split mid) as (ws2 & Emid & Hws2).
  exists before, tag, ws1, (rstrip mid), ws2, after.
  split.
  { rewrite Es, E1, E2, Emid at 1. rewrite <- !app_assoc. reflexivity. }
  split; [assumption|]. split.
  { destruct Htag as [->|[-> Hj]]; [left; reflexivity|].
    right. split; [reflexivity|].
    replace (ws1 ++ rstrip mid ++ ws2 ++ fence_mark ++ after) with rest1;
      [assumption|].
    rewrite E1, E2, Emid at 1. rewrite <- !app_assoc. reflexivity. }
  split; [assumption|]. split; [assumption|]. split.
  - unfold strip.
    assert (Hl : lstrip (rstrip mid) = rstrip mid).
    { apply dropwhile_id.
      destruct (rstrip mid) as [|c r] eqn:Er; [trivial|].
      rewrite Emid in E2. cbn [app] in E2. rewrite E2 in Hhead.
      exact Hhead. }
    rewrite Hl. apply rstrip_idempotent.
  - rewrite app_assoc, <- Emid. assumption.
Qed.

Lemma no_backquote_no_fence (s : pystr) : ~ In 96%N s -> ~ has_fence s.
Proof.
  intros H (u & v & w & E). apply H. rewrite E.
  apply in_or_app. right. left. reflexivity.
Qed.

(** C3. On a non-empty text the extractor decodes the candidate and returns
    the decoded value. When the trimmed text holds a fenced block (an
    opening mark, an optional [json] tag, white space, the inner text,
    white space, the closing mark, these being the first two marks), the
    candidate is exactly the inner text; and a text with two fence marks
    one after the other always holds such a block. When it holds none, the
    candidate is the slice from the first opening bracket to the last
    closing bracket, square brackets if the trimmed text begins with one,
    curly ones otherwise. The fenced example, once normalised, is the
    document without sections. *)
Theorem candidate_selection :
  forall (json_loads : pystr -> json + (pystr * nat)) (text : pystr),
    text <> [] ->
    extract_json_from_model_output json_loads (Some text)
      = loads json_loads (candidate text)
    /\ (forall before tag ws1 inner ws2 after : pystr,
          strip text = before ++ fence_mark ++ tag ++ ws1 ++ inner ++ ws2
                              ++ fence_mark ++ after ->
          occurs fence_mark (before ++ lit "``") = false ->
          tag = lit "json"
          \/ (tag = []
              /\ startswith (lit "json")
                   (ws1 ++ inner ++ ws2 ++ fence_mark ++ after) = false) ->
          forallb isspace ws1 = true ->
          forallb isspace ws2 = true ->
          strip inner = inner ->
          occurs fence_mark (inner ++ ws2 ++ lit "``") = false ->
          candidate text = inner)
    /\ (has_fence (strip text) ->
        exists before tag ws1 inner ws2 after : pystr,
          strip text = before ++ fence_mark ++ tag ++ ws1 ++ inner ++ ws2
                              ++ fence_mark ++ after
          /\ occurs fence_mark (before ++ lit "``") = false
          /\ (tag = lit "json" \/ tag = [])
          /\ forallb isspace ws1 = true
          /\ forallb isspace ws2 = true
          /\ candidate text = inner)
    /\ (forall a b : nat,
          ~ has_fence (strip text) ->
          first_at (opening_bracket (strip text)) (strip text) a ->
          last_at (closing_bracket (strip text)) (strip text) b ->
          candidate text = firstn (b + 1 - a) (skipn a (strip text)))
    /\ (json_loads empty_sections_text = inl empty_document ->
        (v <- extract_json_from_model_output json_loads (Some fenced_example) ;;
         coerce_to_sections_schema v) = Ok empty_document).
Proof.
  intros json_loads text Hne.
  split; [destruct text; [congruence | reflexivity]|].
  split; [intros; eapply candidate_fence; eassumption|].
  split.
  { intros Hf.
    destruct (fence_decomposition _ Hf)
      as (before & tag & ws1 & inner & ws2 & after
          & Es & Hb & Htag & Hws1 & Hws2 & Hin & Hcl).
    exists before, tag, ws1, inner, ws2, after.
    repeat split; try assumption.
    - destruct Htag as [->|[-> _]]; auto.
    - eapply candidate_fence; eassumption. }
  split; [intros; apply candidate_brackets; assumption|].
  intros Hl.
  change (extract_json_from_model_output json_loads (Some fenced_example))
    with (loads json_loads (candidate fenced_example)).
  replace (candidate fenced_example) with empty_sections_text
    by (vm_compute; reflexivity).
  unfold loads. rewrite Hl. reflexivity.
Qed.

Lemma candidate_selection_witness :
  candidate fenced_example = empty_sections_text
  /\ (v <- extract_json_from_model_output RefDecoder.loads (Some fenced_example) ;;
      coerce_to_sections_schema v) = Ok empty_document
  /\ candidate (lit "  note {x} bye } ") = lit "{x} bye }".
Proof.
  destruct (candidate_selection RefDecoder.loads fenced_example)
    as (_ & Hfence & _ & _ & Hex); [discriminate|].
  destruct (candidate_selection RefDecoder.loads (lit "  note {x} bye } "))
    as (_ & _ & _ & Hbr & _); [discriminate|].
  split.
  - apply (Hfence (lit "prose ") (lit "json") (lit " ") empty_sections_text
             (lit " ") (lit " more prose"));
      try reflexivity.
    left; reflexivity.
  - split.
    + apply Hex. reflexivity.
    + apply (Hbr 5 13).
      * apply no_backquote_no_fence. vm_compute. intuition discriminate.
      * split; [reflexivity|]. vm_compute. intuition discriminate.
      * split; [reflexivity|]. vm_compute. intuition discriminate.
Defined.

(* ================================================================== *)
(** * Further properties of the renderer *)

Lemma render_item_dict (st : render_state) (d : dict) :
  render_item st (JObject d) =
  (text <- markdown_inline_to_html
             (py_or (get_default k_text (JString []) d) (JString [])) ;;
   Ok (emit st (eq_str (get_default k_type (JString (lit "p")) d) (lit "li"))
         text)).
Proof.
  unfold render_item. cbn [attr_get bind].
  destruct (markdown_inline_to_html _) as [text|e]; [|reflexivity].
  cbn [bind]. unfold emit. destruct st as [html buffer].
  destruct (eq_str _ _); [reflexivity|].
  destruct (flush (html, buffer)); reflexivity.
Qed.

Lemma render_item_reads (st : render_state) (j : json) (it : Item) :
  reads_as_item j it ->
  render_item st j = Ok (emit st (is_li it) (inline_html (item_text it))).
Proof.
  intros (d & -> & Ht & Hli). rewrite render_item_dict, Ht, Hli. reflexivity.
Qed.

Lemma json_of_item_reads (it : Item) : reads_as_item (json_of_item it) it.
Proof.
  exists [(k_text, JString (item_text it)); (k_type, JString (item_type it))].
  split; [reflexivity|]. split; [|reflexivity].
  change (get_default k_text (JString [])
            [(k_text, JString (item_text it)); (k_type, JString (item_type it))])
    with (JString (item_text it)).
  destruct (item_text it); reflexivity.
Qed.

Lemma foldM_render_reads (js : list json) (items : list Item) :
  Forall2 reads_as_item js items ->
  forall st,
    foldM render_item js st
      = foldM render_item (List.map json_of_item items) st.
Proof.
  induction 1 as [|j it js items Hj _ IH]; intros st; [reflexivity|].
  cbn [List.map foldM].
  rewrite (render_item_reads st j it Hj).
  rewrite (render_item_reads st _ it (json_of_item_reads it)).
  cbn [bind]. apply IH.
Qed.

Lemma render_items_reads (html : list pystr) (js : list json)
    (items : list Item) :
  Forall2 reads_as_item js items ->
  render_items html js = Ok (html ++ item_blocks items).
Proof.
  intros H. unfold render_items. rewrite (foldM_render_reads js items H).
  apply render_items_spec.
Qed.

Lemma render_section_reads (html : list pystr) (j : json) (sec : Section) :
  reads_as_section j sec ->
  render_section html j = Ok (html ++ section_blocks sec).
Proof.
  intros (d & -> & Hh & Hi). unfold render_section.
  cbn [attr_get bind]. unfold get_default.
  assert (Hm : markdown_inline_to_html
                 match lookup k_heading d with
                 | Some v => v
                 | None => JString []
                 end = Ok (inline_html (sec_heading sec))).
  { destruct Hh as [-> | [-> [-> | ->]]]; reflexivity. }
  rewrite Hm. cbn [bind].
  assert (Hr : (items <- iter match lookup k_items d with
                              | Some v => v
                              | None => JArray []
                              end ;;
                render_items
                  match inline_html (sec_heading sec) with
                  | [] => html
                  | _ :: _ => html ++ [heading_block (inline_html (sec_heading sec))]
                  end items)
               = Ok (html ++ section_blocks sec)).
  { unfold section_blocks, heading_blocks.
    destruct Hi as [(js & -> & Hjs) | [Hnil ->]]; cbn [iter bind].
    - rewrite (render_items_reads _ js _ Hjs).
      destruct (inline_html (sec_heading sec)); rewrite <- ?app_assoc;
        reflexivity.
    - rewrite Hnil.
      change (render_items ?h []) with (Ok (A := list pystr) h).
      destruct (inline_html (sec_heading sec)); cbn [item_blocks];
        rewrite ?app_nil_r; reflexivity. }
  exact Hr.
Qed.

Lemma render_sections_reads (js : list json) (doc : Document) :
  Forall2 reads_as_section js doc ->
  forall html,
    foldM render_section js html = Ok (html ++ document_blocks doc).
Proof.
  induction 1 as [|j sec js doc Hj _ IH]; intros html; cbn [foldM].
  - cbn. rewrite app_nil_r. reflexivity.
  - rewrite (render_section_reads html j sec Hj). cbn [bind]. rewrite IH.
    unfold document_blocks. cbn [flat_map]. rewrite <- app_assoc. reflexivity.
Qed.

Lemma lookup_contains (k : pystr) (d : dict) (v : json) :
  lookup k d = Some v -> contains k d = true.
Proof. unfold contains. intros ->. reflexivity. Qed.

Lemma build_html_reads :
  forall (j : json) (doc : Document),
    reads_as_document j doc ->
    build_html_from_sections j = Ok (join [chr_nl] (document_blocks doc)).
Proof.
  intros j doc (d & js & -> & Hs & Hjs).
  unfold build_html_from_sections.
  assert (Ht : truthy (JObject d) = true).
  { destruct d; [discriminate | reflexivity]. }
  rewrite Ht. cbn [negb py_contains_str bind].
  rewrite (lookup_contains _ _ _ Hs). cbn [negb getitem bind].
  rewrite Hs. cbn [bind iter].
  rewrite (render_sections_reads js doc Hjs). reflexivity.
Qed.

(** X1. The renderer reads only the heading of a section and the text and
    type of an item: whatever other keys a document carries, and whether
    an empty heading, an empty text or a type [p] is written out or left
    out, it renders as the canonical document it is read as. *)
Theorem render_reads_only_known_fields :
  forall (j : json) (doc : Document),
    reads_as_document j doc ->
    build_html_from_sections j = Ok (join [chr_nl] (document_blocks doc)).
Proof. exact build_html_reads. Qed.

Lemma render_reads_only_known_fields_witness :
  build_html_from_sections
    (JObject [(lit "model", JString (lit "gpt-4o"));
              (k_sections,
               JArray [JObject [(k_items,
                 JArray [JObject [(lit "id", JInt 1);
                                  (k_text, JString (lit "a"))];
                         JObject [(k_type, JString (lit "li"));
                                  (k_text, JString (lit "b"));
                                  (lit "confidence", JFloat (FDec 9 (-1)))]])]])])
  = Ok (lit "<p>a</p>" ++ [chr_nl] ++ lit "<ul>" ++ [chr_nl]
        ++ lit "<li>b</li>" ++ [chr_nl] ++ lit "</ul>").
Proof.
  apply (render_reads_only_known_fields _
    [{| sec_heading := [];
        sec_items := [{| item_text := lit "a"; item_type := lit "p" |};
                      {| item_text := lit "b"; item_type := lit "li" |}] |}]).
  eexists _, _. split; [reflexivity|]. split; [reflexivity|].
  constructor; [|constructor].
  eexists. split; [reflexivity|]. split.
  - right. split; [reflexivity|]. left; reflexivity.
  - left. eexists. split; [reflexivity|].
    constructor; [|constructor; [|constructor]];
      (eexists; split; [reflexivity|]; split; reflexivity).
Defined.

(** X2. The guard of the renderer: a falsy value and an object without a
    [sections] key give the error paragraph; a value that is no object
    never gives anything but the error paragraph or a [TypeError], the
    latter for a number other than zero, for [True], and for a list or a
    string in which [sections] occurs. *)
Theorem render_guard :
  (forall data, truthy data = false ->
     build_html_from_sections data = Ok error_html)
  /\ (forall d, contains k_sections d = false ->
        build_html_from_sections (JObject d) = Ok error_html)
  /\ (forall data, is_dict data = false ->
        build_html_from_sections data = Ok error_html
        \/ build_html_from_sections data = Raise TypeError)
  /\ (forall z, z <> 0%Z ->
        build_html_from_sections (JInt z) = Raise TypeError)
  /\ build_html_from_sections (JBool true) = Raise TypeError
  /\ (forall xs, In (JString k_sections) xs ->
        build_html_from_sections (JArray xs) = Raise TypeError)
  /\ (forall a b,
        build_html_from_sections (JString (a ++ k_sections ++ b))
          = Raise TypeError).
Proof.
  split.
  { intros data H. unfold build_html_from_sections. rewrite H. reflexivity. }
  split.
  { intros d H. unfold build_html_from_sections.
    destruct (truthy (JObject d)); [|reflexivity].
    cbn [negb py_contains_str bind]. rewrite H. reflexivity. }
  split.
  { intros data H. unfold build_html_from_sections.
    destruct (truthy data) eqn:Ht; [|left; reflexivity].
    destruct data as [| | | | s | xs | d]; try discriminate;
      cbn [negb py_contains_str bind]; try (right; reflexivity).
    - destruct (0 <=? find k_sections s)%Z; [right|left]; reflexivity.
    - destruct (existsb _ xs); [right|left]; reflexivity. }
  split.
  { intros z Hz. unfold build_html_from_sections. cbn [truthy].
    destruct (Z.eqb_spec z 0); [congruence | reflexivity]. }
  split; [reflexivity|].
  split.
  { intros xs Hin. unfold build_html_from_sections.
    assert (Ht : truthy (JArray xs) = true)
      by (destruct xs; [destruct Hin | reflexivity]).
    rewrite Ht. cbn [negb py_contains_str bind].
    assert (He : existsb (fun x => eq_str x k_sections) xs = true).
    { apply existsb_exists. exists (JString k_sections).
      split; [assumption | apply eqb_refl]. }
    rewrite He. reflexivity. }
  intros a b. unfold build_html_from_sections.
  assert (Ht : truthy (JString (a ++ k_sections ++ b)) = true).
  { destruct a; reflexivity. }
  rewrite Ht. cbn [negb py_contains_str bind].
  assert (Hf : (0 <=? find k_sections (a ++ k_sections ++ b))%Z = true).
  { unfold find.
    assert (G : forall (u : pystr) (n : Z), (0 <= n)%Z ->
      (0 <= find_from k_sections (u ++ k_sections ++ b) n)%Z).
    { induction u as [|c u IH]; intros n Hn.
      - cbn [app]. assert (Hs : startswith k_sections (k_sections ++ b) = true)
          by (apply startswith_true; eauto).
        destruct (k_sections ++ b) eqn:E; cbn [find_from]; rewrite Hs; lia.
      - cbn [app find_from].
        destruct (startswith k_sections (c :: u ++ k_sections ++ b)); [lia|].
        apply IH. lia. }
    apply Z.leb_le. apply G. lia. }
  rewrite Hf. reflexivity.
Qed.

Lemma render_guard_witness :
  build_html_from_sections (JObject []) = Ok error_html
  /\ build_html_from_sections (JObject [(k_items, JArray [])]) = Ok error_html
  /\ build_html_from_sections (JInt 5) = Raise TypeError
  /\ build_html_from_sections (JArray [JString k_sections]) = Raise TypeError.
Proof.
  destruct render_guard as (Hfalsy & Hkey & _ & Hint & _ & Hlist & _).
  split; [apply Hfalsy; reflexivity|].
  split; [apply Hkey; reflexivity|].
  split; [apply Hint; discriminate|].
  apply Hlist. left; reflexivity.
Defined.

(** X3. The text of an item may be any value. A falsy one ([None], the
    empty string, zero, [False], an empty list or object) or none at all is
    rendered as the empty text, a string is converted, and any other value
    makes the renderer raise [AttributeError], as does an item that is no
    object. A heading has no such fall-back: only a string or [None] is
    accepted, so a heading of zero raises where a text of zero does not. *)
Theorem render_text_values :
  forall (st : render_state) (d : dict),
    let raw := get_default k_text (JString []) d in
    let li := eq_str (get_default k_type (JString (lit "p")) d) (lit "li") in
    (truthy raw = false -> render_item st (JObject d) = Ok (emit st li []))
    /\ (forall t, raw = JString t ->
          render_item st (JObject d) = Ok (emit st li (inline_html t)))
    /\ (truthy raw = true -> (forall t, raw <> JString t) ->
          render_item st (JObject d) = Raise AttributeError)
    /\ (forall j, is_dict j = false ->
          render_item st j = Raise AttributeError)
    /\ (forall html h,
          lookup k_heading d = Some h -> h <> JNull ->
          (forall t, h <> JString t) ->
          render_section html (JObject d) = Raise AttributeError).
Proof.
  intros st d raw li. subst raw li.
  split.
  { intros H. rewrite render_item_dict. unfold py_or. rewrite H. reflexivity. }
  split.
  { intros t H. rewrite render_item_dict, H.
    destruct t; reflexivity. }
  split.
  { intros H Hn. rewrite render_item_dict. unfold py_or. rewrite H.
    destruct (get_default k_text (JString []) d) eqn:E;
      try reflexivity; try discriminate.
    exfalso. apply (Hn s). reflexivity. }
  split.
  { intros j H. destruct j; try reflexivity. discriminate. }
  intros html h Hh Hnull Hstr. unfold render_section.
  cbn [attr_get bind]. unfold get_default. rewrite Hh.
  destruct h; try reflexivity; [congruence|].
  exfalso. apply (Hstr s). reflexivity.
Qed.

Lemma render_text_values_witness :
  render_item ([], []) (JObject [(k_text, JInt 0)])
    = Ok ([lit "<p></p>"], [])
  /\ render_item ([], []) (JObject [(k_text, JInt 7)]) = Raise AttributeError
  /\ render_section [] (JObject [(k_heading, JInt 0)]) = Raise AttributeError.
Proof.
  destruct (render_text_values ([], []) [(k_text, JInt 0)])
    as (Hfalsy & _).
  destruct (render_text_values ([], []) [(k_text, JInt 7)])
    as (_ & _ & Hraise & _).
  destruct (render_text_values ([], []) [(k_heading, JInt 0)])
    as (_ & _ & _ & _ & Hhead).
  split; [apply Hfalsy; reflexivity|].
  split.
  - apply Hraise; [reflexivity | discriminate].
  - apply (Hhead [] (JInt 0)); [reflexivity | discriminate | discriminate].
Defined.

(** X4. Every type other than the string [li] is rendered alike: an item
    whose type is [h1], [h2], [h3], [p], anything else, or absent, comes
    out as the paragraph that the same item without any type gives. *)
Theorem non_list_types_render_alike :
  forall (st : render_state) (d : dict),
    eq_str (get_default k_type (JString (lit "p")) d) (lit "li") = false ->
    render_item st (JObject d)
      = render_item st (JObject [(k_text, get_default k_text (JString []) d)])
    /\ (forall text,
          markdown_inline_to_html
            (py_or (get_default k_text (JString []) d) (JString [])) = Ok text ->
          render_item st (JObject d)
            = Ok (fst (flush st) ++ [p_block text], [])).
Proof.
  intros st d H. rewrite !render_item_dict, H.
  change (get_default k_text (JString [])
            [(k_text, get_default k_text (JString []) d)])
    with (get_default k_text (JString []) d).
  change (eq_str (get_default k_type (JString (lit "p"))
                    [(k_text, get_default k_text (JString []) d)]) (lit "li"))
    with false.
  split; [reflexivity|].
  intros text ->. reflexivity.
Qed.

Lemma non_list_types_render_alike_witness :
  render_item ([], [lit "<li>x</li>"])
    (JObject [(k_type, JString (lit "h1")); (k_text, JString (lit "T"))])
  = Ok ([lit "<ul>"; lit "<li>x</li>"; lit "</ul>"; lit "<p>T</p>"], []).
Proof.
  exact (proj2 (non_list_types_render_alike ([], [lit "<li>x</li>"])
    [(k_type, JString (lit "h1")); (k_text, JString (lit "T"))] eq_refl)
    (lit "T") eq_refl).
Defined.

(* ------------------------------------------------------------------ *)
(** ** The bullet of a list item *)

Lemma star_greedy_all (p : char -> bool) (s : pystr) :
  star_greedy p (fun rest => Some rest) s = Some (dropwhile p s).
Proof.
  induction s as [|c s IH]; cbn [star_greedy dropwhile]; [reflexivity|].
  destruct (p c); [rewrite IH|]; reflexivity.
Qed.

Lemma lstrip_run (v w : pystr) :
  forallb isspace v = true -> lstrip (v ++ w) = lstrip w.
Proof.
  unfold lstrip. induction v as [|c v IH]; intros H; [reflexivity|].
  cbn [forallb] in H. apply andb_true_iff in H. destruct H as [Hc Hv].
  cbn [app dropwhile]. rewrite Hc. apply IH. assumption.
Qed.

Lemma strip_lstrip (s : pystr) : strip (lstrip s) = strip s.
Proof.
  unfold strip, lstrip. rewrite dropwhile_idempotent. reflexivity.
Qed.

(** What the bullet pattern removes at the start of a text. *)
Lemma bullet_match (t : pystr) :
  rmatch bullet_regex t (fun rest => Some rest) =
  match lstrip t with
  | c :: rest => if N.eqb chr_bullet c then Some (lstrip rest) else None
  | [] => None
  end.
Proof.
  unfold bullet_regex. cbn [rmatch].
  destruct (dropwhile_split isspace t) as (u & Et & Hu).
  pose proof (dropwhile_head isspace t) as Hhead.
  fold (lstrip t) in Et, Hhead.
  destruct (lstrip t) as [|c rest] eqn:El.
  - apply star_greedy_none. intros v w Ev Hv.
    destruct w as [|x w]; [reflexivity|].
    destruct (N.eqb_spec chr_bullet x) as [<-|]; [|reflexivity].
    exfalso. rewrite Ev, lstrip_run in El by assumption.
    unfold lstrip in El. cbn in El. discriminate.
  - destruct (N.eqb_spec chr_bullet c) as [<-|Hne].
    + rewrite Et at 1. apply star_greedy_run; [assumption | reflexivity|].
      rewrite N.eqb_refl. apply star_greedy_all.
    + apply star_greedy_none. intros v w Ev Hv.
      destruct w as [|x w]; [reflexivity|].
      destruct (N.eqb_spec chr_bullet x) as [<-|]; [|reflexivity].
      exfalso. rewrite Ev, lstrip_run in El by assumption.
      unfold lstrip in El. cbn in El. inversion El. congruence.
Qed.

Lemma clean_bullet_spec (t : pystr) :
  clean_bullet t =
  strip match lstrip t with
        | c :: rest => if N.eqb chr_bullet c then rest else t
        | [] => t
        end.
Proof.
  unfold clean_bullet, sub_anchored_delete. rewrite bullet_match.
  destruct (lstrip t) as [|c rest]; [reflexivity|].
  destruct (N.eqb chr_bullet c); [apply strip_lstrip | reflexivity].
Qed.

(** X5. Of the converted text of a list item, one leading bullet glyph is
    removed together with the white space around it, and the rest is
    trimmed; a text that does not begin with a bullet, white space apart,
    is only trimmed, so a second bullet or a bullet further on stays. A
    list item [U+2022 Hello] is the block [<li>Hello</li>]. *)
Theorem leading_bullet_removed :
  (forall ws rest,
     forallb isspace ws = true ->
     clean_bullet (ws ++ chr_bullet :: rest) = strip rest)
  /\ (forall t,
        (forall rest, lstrip t <> chr_bullet :: rest) ->
        clean_bullet t = strip t)
  /\ (forall it ws rest,
        inline_html (item_text it) = ws ++ chr_bullet :: rest ->
        forallb isspace ws = true ->
        li_of it = li_block (strip rest))
  /\ li_of {| item_text := chr_bullet :: lit " Hello"; item_type := lit "li" |}
     = lit "<li>Hello</li>".
Proof.
  assert (H1 : forall ws rest,
     forallb isspace ws = true ->
     clean_bullet (ws ++ chr_bullet :: rest) = strip rest).
  { intros ws rest Hws. rewrite clean_bullet_spec, lstrip_run by assumption.
    unfold lstrip. cbn [dropwhile].
    change (isspace chr_bullet) with false. cbv iota.
    rewrite N.eqb_refl. reflexivity. }
  split; [exact H1|]. split.
  { intros t Hn. rewrite clean_bullet_spec.
    destruct (lstrip t) as [|c rest] eqn:E; [reflexivity|].
    destruct (N.eqb_spec chr_bullet c) as [<-|]; [|reflexivity].
    exfalso. apply (Hn rest). reflexivity. }
  split.
  { intros it ws rest E Hws. unfold li_of. rewrite E, H1 by assumption.
    reflexivity. }
  vm_compute. reflexivity.
Qed.

Lemma leading_bullet_removed_witness :
  clean_bullet (lit "  " ++ chr_bullet :: chr_bullet :: lit " a ")
    = chr_bullet :: lit " a"
  /\ clean_bullet (lit " a " ++ [chr_bullet]) = lit "a " ++ [chr_bullet].
Proof.
  destruct leading_bullet_removed as (Hb & Hn & _).
  split.
  - rewrite (Hb (lit "  ") (chr_bullet :: lit " a ") eq_refl).
    vm_compute. reflexivity.
  - rewrite (Hn (lit " a " ++ [chr_bullet])).
    + vm_compute. reflexivity.
    + intros rest. vm_compute. discriminate.
Defined.

(* ------------------------------------------------------------------ *)
(** ** Headings and empty sections *)

Lemma sub_delimited_nonempty (d opening closing : pystr) (s : pystr) :
  s <> [] ->
  sub (delimited (chr_star :: d)) (wrap opening closing) s <> [].
Proof.
  destruct s as [|c s]; [congruence|]. intros _.
  rewrite sub_delimited_cons.
  destruct (match_at _ (c :: s)) as [[g rest]|] eqn:E; [|discriminate].
  apply delimited_match in E. destruct E as (_ & Hg & _).
  unfold wrap. intros H.
  apply app_eq_nil in H. destruct H as [H _].
  apply app_eq_nil in H. destruct H as [_ H].
  apply app_eq_nil in H. destruct H as [H _]. congruence.
Qed.

Lemma inline_html_nil (t : pystr) : inline_html t = [] <-> t = [].
Proof.
  split; [|intros ->; reflexivity].
  intros H. destruct t as [|c t]; [reflexivity|]. exfalso.
  revert H. unfold inline_html, sub_italic, sub_bold, sub_bold_italic.
  change (lit "***") with (chr_star :: [chr_star; chr_star]).
  change (lit "**") with (chr_star :: [chr_star]).
  change (lit "*") with (chr_star :: []).
  repeat apply sub_delimited_nonempty.
  apply escape_nonempty. discriminate.
Qed.

Lemma item_blocks_nil (items : list Item) :
  item_blocks items = [] <-> items = [].
Proof.
  split; [|intros ->; reflexivity].
  destruct items as [|it rest]; [reflexivity|].
  unfold item_blocks. cbn [groups].
  destruct (is_li it).
  - destruct (groups rest) as [|[run|p] gs]; discriminate.
  - discriminate.
Qed.

(** X6. A section gets a heading block exactly when its heading is not the
    empty string, and the block holds the converted heading; a section
    emits no block at all exactly when it has an empty heading and no
    items. *)
Theorem heading_block_iff_heading :
  forall (sec : Section) (html : list pystr),
    (sec_heading sec = [] ->
       render_section html (json_of_section sec)
         = Ok (html ++ item_blocks (sec_items sec)))
    /\ (sec_heading sec <> [] ->
          render_section html (json_of_section sec)
            = Ok (html ++ [heading_block (inline_html (sec_heading sec))]
                       ++ item_blocks (sec_items sec)))
    /\ (render_section html (json_of_section sec) = Ok html
        <-> sec_heading sec = [] /\ sec_items sec = []).
Proof.
  intros sec html. rewrite render_section_spec.
  unfold section_blocks, heading_blocks.
  assert (Hnil := inline_html_nil (sec_heading sec)).
  split; [intros ->; reflexivity|]. split.
  - intros Hne. destruct (inline_html (sec_heading sec)) eqn:E; [|reflexivity].
    exfalso. apply Hne, Hnil. reflexivity.
  - split.
    + intros H. inversion H as [H'].
      rewrite <- (app_nil_r html) in H' at 2. apply app_inv_head in H'.
      apply app_eq_nil in H'. destruct H' as [Hh Hi].
      split; [|apply item_blocks_nil; assumption].
      apply Hnil. destruct (inline_html (sec_heading sec)); [reflexivity|].
      discriminate.
    + intros [Hh Hi]. rewrite Hh, Hi. cbn. rewrite app_nil_r. reflexivity.
Qed.

Lemma heading_block_iff_heading_witness :
  render_section [] (json_of_section {| sec_heading := lit "a*b";
                                        sec_items := [] |})
    = Ok [lit "<p><strong>a*b</strong></p>"]
  /\ render_section [lit "x"]
       (json_of_section {| sec_heading := []; sec_items := [] |})
     = Ok [lit "x"].
Proof.
  split.
  - refine (proj1 (proj2 (heading_block_iff_heading
      {| sec_heading := lit "a*b"; sec_items := [] |} [])) _).
    discriminate.
  - apply (proj2 (proj2 (heading_block_iff_heading
      {| sec_heading := []; sec_items := [] |} [lit "x"]))).
    split; reflexivity.
Defined.

(* ------------------------------------------------------------------ *)
(** ** The shape of the blocks *)

Lemma nesting_after_app (n : nesting) (a b : list pystr) :
  nesting_after n (a ++ b) =
  match nesting_after n a with
  | Some n' => nesting_after n' b
  | None => None
  end.
Proof.
  revert n. induction a as [|x a IH]; intros n; [reflexivity|].
  cbn [app nesting_after]. destruct (nesting_step n x); [apply IH|reflexivity].
Qed.

Lemma nesting_li (n : nesting) (c : pystr) :
  n <> Outside -> nesting_step n (li_block c) = Some Inside.
Proof. intros H. destruct n; [congruence | reflexivity | reflexivity]. Qed.

Lemma nesting_p (text : pystr) :
  nesting_step Outside (p_block text) = Some Outside.
Proof. reflexivity. Qed.

Lemma nesting_heading (h : pystr) :
  nesting_step Outside (heading_block h) = Some Outside.
Proof. reflexivity. Qed.

Lemma nesting_items (run : list Item) (n : nesting) :
  n <> Outside -> run <> [] ->
  nesting_after n (List.map li_of run) = Some Inside.
Proof.
  revert n. induction run as [|it run IH]; intros n Hn Hr; [congruence|].
  cbn [List.map nesting_after]. unfold li_of at 1. rewrite nesting_li by assumption.
  destruct run as [|it' run']; [reflexivity|].
  apply IH; discriminate.
Qed.

Lemma nesting_list_block (run : list Item) :
  run <> [] -> nesting_after Outside (list_block run) = Some Outside.
Proof.
  intros Hr. unfold list_block.
  change ([lit "<ul>"] ++ List.map li_of run ++ [lit "</ul>"])
    with (lit "<ul>" :: (List.map li_of run ++ [lit "</ul>"])).
  cbn [nesting_after].
  change (nesting_step Outside (lit "<ul>")) with (Some Opened).
  cbv iota. rewrite nesting_after_app, nesting_items by (discriminate || assumption).
  reflexivity.
Qed.

Lemma groups_runs_nonempty (items : list Item) :
  Forall (fun g => match g with GList run => run <> [] | GPara _ => True end)
         (groups items).
Proof.
  induction items as [|it rest IH]; cbn [groups]; [constructor|].
  destruct (is_li it).
  - destruct (groups rest) as [|[run|p] gs].
    + constructor; [discriminate | constructor].
    + inversion IH; subst. constructor; [discriminate | assumption].
    + constructor; [discriminate | assumption].
  - constructor; [trivial | assumption].
Qed.

Lemma nesting_item_blocks (items : list Item) :
  nesting_after Outside (item_blocks items) = Some Outside.
Proof.
  unfold item_blocks. pose proof (groups_runs_nonempty items) as H.
  induction H as [|g gs Hg _ IH]; [reflexivity|].
  cbn [flat_map]. rewrite nesting_after_app.
  destruct g as [run|it]; cbn [group_blocks].
  - rewrite nesting_list_block by assumption. exact IH.
  - cbn [nesting_after]. unfold p_of. rewrite nesting_p. exact IH.
Qed.

(** X7. The blocks of a document are well nested: read from left to right,
    a list is opened only outside a list, holds at least one item, nothing
    but items, and is closed before the next paragraph or heading and
    before the end. *)
Theorem blocks_well_nested :
  forall doc : Document,
    nesting_after Outside (document_blocks doc) = Some Outside
    /\ build_html_from_sections (json_of_document doc)
       = Ok (join [chr_nl] (document_blocks doc)).
Proof.
  intros doc. split; [|apply build_html_spec].
  unfold document_blocks.
  induction doc as [|sec doc IH]; [reflexivity|].
  cbn [flat_map]. rewrite nesting_after_app.
  unfold section_blocks at 1. rewrite nesting_after_app.
  assert (Hh : nesting_after Outside (heading_blocks (sec_heading sec))
               = Some Outside).
  { unfold heading_blocks. destruct (inline_html (sec_heading sec)) eqn:E;
      [reflexivity|].
    cbn [nesting_after]. rewrite nesting_heading. reflexivity. }
  rewrite Hh, nesting_item_blocks. exact IH.
Qed.

Lemma is_list_marker_li (it : Item) : is_list_marker (li_of it) = false.
Proof. reflexivity. Qed.

Lemma is_list_marker_p (it : Item) : is_list_marker (p_of it) = false.
Proof. reflexivity. Qed.

(** X8. The renderer loses no item and invents none: without the markers
    that open and close the lists, the blocks of the items are the blocks
    of the single items, one for each and in their order. *)
Theorem every_item_rendered_once :
  forall items : list Item,
    filter (fun b => negb (is_list_marker b)) (item_blocks items)
      = List.map item_block items
    /\ forall html,
         render_items html (List.map json_of_item items)
           = Ok (html ++ item_blocks items).
Proof.
  intros items. split; [|intros; apply render_items_spec].
  unfold item_blocks.
  induction items as [|it rest IH]; [reflexivity|].
  cbn [groups List.map]. unfold item_block at 1.
  destruct (is_li it) eqn:Hli.
  - destruct (groups rest) as [|[run|p] gs] eqn:Eg;
      cbn [flat_map group_blocks] in *; unfold list_block in *;
      cbn [List.map app filter] in *.
    + change (is_list_marker (lit "<ul>")) with true.
      change (is_list_marker (lit "</ul>")) with true.
      rewrite is_list_marker_li. cbn [negb]. rewrite <- IH. reflexivity.
    + change (is_list_marker (lit "<ul>")) with true in *.
      rewrite is_list_marker_li. cbn [negb] in *.
      rewrite <- IH. reflexivity.
    + change (is_list_marker (lit "<ul>")) with true.
      change (is_list_marker (lit "</ul>")) with true.
      rewrite is_list_marker_li. cbn [negb]. rewrite <- IH. reflexivity.
  - cbn [flat_map group_blocks app filter].
    rewrite is_list_marker_p. cbn [negb]. rewrite IH. reflexivity.
Qed.

(* ================================================================== *)
(** * Further properties of the normaliser *)

Lemma set_lookup_same (k : pystr) (v : json) (d : dict) :
  lookup k d = Some v -> PyVal.set k v d = d.
Proof.
  induction d as [|[k' v'] d IH]; cbn [lookup PyVal.set]; [discriminate|].
  destruct (PyStr.eqb k' k); intros H.
  - inversion H. reflexivity.
  - rewrite IH by assumption. reflexivity.
Qed.

Lemma set_set (k : pystr) (v v' : json) (d : dict) :
  PyVal.set k v (PyVal.set k v' d) = PyVal.set k v d.
Proof.
  induction d as [|[k0 v0] d IH]; cbn [PyVal.set].
  - rewrite eqb_refl. reflexivity.
  - destruct (PyStr.eqb k0 k) eqn:E; cbn [PyVal.set]; rewrite E;
      [reflexivity | rewrite IH; reflexivity].
Qed.

Lemma lookup_set_other (k k' : pystr) (v : json) (d : dict) :
  k' <> k -> lookup k' (PyVal.set k v d) = lookup k' d.
Proof.
  intros Hne.
  assert (Hf : PyStr.eqb k k' = false).
  { destruct (PyStr.eqb k k') eqn:E; [|reflexivity].
    apply eqb_spec in E. congruence. }
  induction d as [|[k0 v0] d IH]; cbn [PyVal.set lookup].
  - rewrite Hf. reflexivity.
  - destruct (PyStr.eqb k0 k) eqn:E; cbn [lookup].
    + apply eqb_spec in E. subst k0. rewrite Hf. reflexivity.
    + rewrite IH. reflexivity.
Qed.

Lemma get_set_same (k : pystr) (v : json) (d : dict) :
  get k (PyVal.set k v d) = v.
Proof. unfold get, get_default. rewrite lookup_set_same. reflexivity. Qed.

Lemma patch_item_idempotent (it it' : json) :
  patch_item it = Ok it' -> patch_item it' = Ok it'.
Proof.
  destruct it as [| | | | | |d]; try discriminate. cbn [patch_item].
  destruct (is_none (get k_text d) && negb (is_none (get k_content d))) eqn:E;
    intros H; inversion H; subst it'; cbn [patch_item].
  - apply andb_true_iff in E. destruct E as [_ Ec].
    rewrite get_set_same.
    destruct (is_none (get k_content d)); [discriminate | reflexivity].
  - rewrite E. reflexivity.
Qed.

Lemma mapM_idempotent {A} (f : A -> result A) :
  (forall x y, f x = Ok y -> f y = Ok y) ->
  forall xs ys, mapM f xs = Ok ys -> mapM f ys = Ok ys.
Proof.
  intros Hf. induction xs as [|x xs IH]; intros ys H; cbn [mapM] in H.
  - inversion H. reflexivity.
  - destruct (f x) as [y|] eqn:Ex; [|discriminate]. cbn [bind] in H.
    destruct (mapM f xs) as [zs|] eqn:Ez; [|discriminate].
    cbn [bind] in H. inversion H; subst ys.
    cbn [mapM]. rewrite (Hf _ _ Ex). cbn [bind].
    rewrite (IH zs eq_refl). reflexivity.
Qed.

Lemma patch_section_idempotent (sec sec' : json) :
  patch_section sec = Ok sec' -> patch_section sec' = Ok sec'.
Proof.
  destruct sec as [| | | | | |d]; try discriminate.
  unfold patch_section at 1. cbn [attr_get bind].
  destruct (iter (get_default k_items (JArray []) d)) as [its|] eqn:Ei;
    [|discriminate].
  cbn [bind].
  destruct (mapM patch_item its) as [its'|] eqn:Em; [|discriminate].
  cbn [bind].
  assert (Hsame : patch_section (JObject d) = Ok (JObject d) ->
                  forall x, Ok (JObject d) = Ok x -> patch_section x = Ok x).
  { intros H x Hx. inversion Hx; subst x. exact H. }
  assert (Hdet : forall r,
    match get_default k_items (JArray []) d with
    | JArray _ =>
        if contains k_items d
        then Ok (JObject (PyVal.set k_items (JArray its') d))
        else Ok (JObject d)
    | _ => Ok (JObject d)
    end = r -> patch_section (JObject d) = r).
  { intros r Hr. unfold patch_section. cbn [attr_get bind].
    rewrite Ei. cbn [bind]. rewrite Em. cbn [bind]. exact Hr. }
  destruct (get_default k_items (JArray []) d) as [| | | | |xs|] eqn:Ev;
    try (intros H; apply (Hsame (Hdet _ eq_refl) _ H)).
  destruct (contains k_items d) eqn:Ec;
    [|intros H; apply (Hsame (Hdet _ eq_refl) _ H)].
  intros H. inversion H; subst sec'.
  unfold patch_section. cbn [attr_get bind]. unfold get_default.
  rewrite lookup_set_same. cbn [iter bind].
  rewrite (mapM_idempotent patch_item patch_item_idempotent its its' Em).
  cbn [bind]. unfold contains. rewrite lookup_set_same, set_set. reflexivity.
Qed.

Lemma built_pair_text (d : dict) : is_none (snd (built_pair d)) = false.
Proof.
  unfold built_pair, py_or. cbn [snd].
  destruct (truthy (get k_text d)) eqn:E1.
  - destruct (get k_text d); try reflexivity. discriminate.
  - destruct (truthy (get k_content d)) eqn:E2; [|reflexivity].
    destruct (get k_content d); try reflexivity. discriminate.
Qed.

Lemma built_pairs_text (elems : list json) :
  Forall (fun p => is_none (snd p) = false) (built_pairs elems).
Proof.
  induction elems as [|it elems IH]; [constructor|].
  unfold built_pairs in *. cbn [flat_map].
  destruct it; cbn [app]; try assumption.
  constructor; [apply built_pair_text | assumption].
Qed.

Lemma patch_items_built (ps : list (json * json)) :
  Forall (fun p => is_none (snd p) = false) ps ->
  mapM patch_item (List.map item_json ps) = Ok (List.map item_json ps).
Proof.
  induction 1 as [|[ty tx] ps Hp _ IH]; [reflexivity|].
  cbn [List.map mapM]. cbn [snd] in Hp.
  assert (E : patch_item (item_json (ty, tx)) = Ok (item_json (ty, tx))).
  { unfold item_json, patch_item. cbn [fst snd].
    change (get k_text [(k_type, ty); (k_text, tx)]) with tx.
    rewrite Hp. reflexivity. }
  rewrite E. cbn [bind]. rewrite IH. reflexivity.
Qed.

Lemma coerce_one_section (heading : json) (ps : list (json * json)) :
  Forall (fun p => is_none (snd p) = false) ps ->
  coerce_to_sections_schema (one_section heading (List.map item_json ps))
    = Ok (one_section heading (List.map item_json ps)).
Proof.
  intros H. unfold one_section, coerce_to_sections_schema.
  change (lookup k_sections [(k_sections, ?v)]) with (Some v).
  cbn [iter bind mapM]. unfold patch_section at 1.
  cbn [attr_get bind].
  change (get_default k_items (JArray [])
            [(k_heading, heading); (k_type, JString (lit "h2"));
             (k_items, JArray (List.map item_json ps))])
    with (JArray (List.map item_json ps)).
  cbn [iter bind]. rewrite (patch_items_built ps H). cbn [bind].
  reflexivity.
Qed.

Lemma promoted_text (ps : list (json * json)) :
  Forall (fun p => is_none (snd p) = false) ps ->
  Forall (fun p => is_none (snd p) = false) (snd (promoted ps)).
Proof.
  intros H. destruct ps as [|[ty tx] rest]; [constructor|].
  cbn [promoted]. destruct (is_heading_tag ty); cbn [snd]; [|assumption].
  inversion H; assumption.
Qed.

(** X9. Normalising is idempotent: a value the normaliser returns is
    returned unchanged when normalised again. *)
Theorem normalize_idempotent :
  forall data doc : json,
    coerce_to_sections_schema data = Ok doc ->
    coerce_to_sections_schema doc = Ok doc.
Proof.
  intros data doc H.
  assert (Hempty : coerce_to_sections_schema empty_document = Ok empty_document)
    by reflexivity.
  destruct data as [| | | | |elems|d];
    try (cbn in H; inversion H; subst doc; exact Hempty).
  - rewrite coerce_array in H.
    destruct (first_type_hashable elems); [|discriminate].
    inversion H; subst doc.
    apply coerce_one_section, promoted_text, built_pairs_text.
  - cbn [coerce_to_sections_schema] in H.
    destruct (lookup k_sections d) as [secs|] eqn:El.
    + destruct (iter secs) as [xs|] eqn:Ei; [|discriminate]. cbn [bind] in H.
      destruct (mapM patch_section xs) as [xs'|] eqn:Em; [|discriminate].
      cbn [bind] in H.
      destruct secs as [| | | | |ys|];
        try (inversion H; subst doc; cbn [coerce_to_sections_schema];
             rewrite El, Ei; cbn [bind]; rewrite Em; reflexivity).
      cbn [iter] in Ei. inversion Ei; subst ys.
      inversion H; subst doc. cbn [coerce_to_sections_schema].
      rewrite lookup_set_same. cbn [iter bind].
      rewrite (mapM_idempotent patch_section patch_section_idempotent xs xs' Em).
      cbn [bind]. rewrite set_set. reflexivity.
    + inversion H; subst doc. exact Hempty.
Qed.

Lemma normalize_idempotent_witness :
  exists doc,
    coerce_to_sections_schema
      (JArray [JObject [(k_type, JString (lit "h3")); (k_content, JString (lit "T"))];
               JInt 4; JObject [(lit "x", JNull)]]) = Ok doc
    /\ coerce_to_sections_schema doc = Ok doc.
Proof.
  eexists. split; [reflexivity|].
  apply (normalize_idempotent
    (JArray [JObject [(k_type, JString (lit "h3")); (k_content, JString (lit "T"))];
             JInt 4; JObject [(lit "x", JNull)]])).
  reflexivity.
Defined.

(** X10. Whatever the normaliser returns is a non-empty object with a
    [sections] key, so the renderer never answers it with its guard: it
    goes on to iterate the sections. *)
Theorem normalized_passes_guard :
  forall data doc : json,
    coerce_to_sections_schema data = Ok doc ->
    exists d secs,
      doc = JObject d
      /\ lookup k_sections d = Some secs
      /\ truthy doc = true
      /\ build_html_from_sections doc
         = (sections <- iter secs ;;
            html <- foldM render_section sections [] ;;
            Ok (join [chr_nl] html)).
Proof.
  intros data doc H.
  assert (G : forall d secs, lookup k_sections d = Some secs ->
    exists d' secs',
      JObject d = JObject d'
      /\ lookup k_sections d' = Some secs'
      /\ truthy (JObject d) = true
      /\ build_html_from_sections (JObject d)
         = (sections <- iter secs' ;;
            html <- foldM render_section sections [] ;;
            Ok (join [chr_nl] html))).
  { intros d secs Hl. exists d, secs.
    assert (Ht : truthy (JObject d) = true)
      by (destruct d; [discriminate | reflexivity]).
    repeat split; try assumption.
    unfold build_html_from_sections. rewrite Ht.
    cbn [negb py_contains_str bind]. rewrite (lookup_contains _ _ _ Hl).
    cbn [negb getitem bind]. rewrite Hl. reflexivity. }
  assert (Hempty : lookup k_sections [(k_sections, JArray [])]
                   = Some (JArray [])) by reflexivity.
  destruct data as [| | | | |elems|d];
    try (cbn in H; inversion H; subst doc; apply (G _ _ Hempty)).
  - rewrite coerce_array in H.
    destruct (first_type_hashable elems); [|discriminate].
    inversion H; subst doc. unfold one_section.
    eapply G. reflexivity.
  - cbn [coerce_to_sections_schema] in H.
    destruct (lookup k_sections d) as [secs|] eqn:El.
    + destruct (iter secs) as [xs|] eqn:Ei; [|discriminate]. cbn [bind] in H.
      destruct (mapM patch_section xs) as [xs'|] eqn:Em; [|discriminate].
      cbn [bind] in H.
      destruct secs; inversion H; subst doc;
        try (apply (G _ _ El)).
      eapply G. apply lookup_set_same.
    + inversion H; subst doc. apply (G _ _ Hempty).
Qed.

Lemma normalized_passes_guard_witness :
  exists d secs,
    JObject [(k_sections, JString [])] = JObject d
    /\ lookup k_sections d = Some secs
    /\ build_html_from_sections (JObject [(k_sections, JString [])])
       = (sections <- iter secs ;;
          html <- foldM render_section sections [] ;;
          Ok (join [chr_nl] html)).
Proof.
  destruct (normalized_passes_guard (JObject [(k_sections, JString [])])
              (JObject [(k_sections, JString [])]) eq_refl)
    as (d & secs & E & Hl & _ & Hb).
  exists d, secs. auto.
Defined.

(** X11. The copy of [content] into [text]: in an item whose [text] is
    absent or [None] and whose [content] is not, [text] becomes the value
    of [content] and every other key keeps its value, [content] included;
    any other item is left as it is, so a [text] that is present, be it
    empty, is never overwritten. *)
Theorem content_copied_when_text_missing :
  forall d : dict,
    (get k_text d = JNull -> get k_content d <> JNull ->
       exists d',
         patch_item (JObject d) = Ok (JObject d')
         /\ get k_text d' = get k_content d
         /\ forall k, k <> k_text -> lookup k d' = lookup k d)
    /\ (get k_text d <> JNull -> patch_item (JObject d) = Ok (JObject d))
    /\ (get k_content d = JNull -> patch_item (JObject d) = Ok (JObject d)).
Proof.
  intros d. cbn [patch_item]. split.
  { intros Ht Hc. rewrite Ht. cbn [is_none andb].
    destruct (get k_content d) eqn:Ec; try congruence; cbn [is_none negb];
      (eexists; split; [reflexivity|]; split;
       [apply get_set_same | intros k Hk; apply lookup_set_other; assumption]). }
  split.
  { intros Ht. destruct (get k_text d); try reflexivity. congruence. }
  intros ->. rewrite andb_false_r. reflexivity.
Qed.

Lemma content_copied_when_text_missing_witness :
  patch_item (JObject [(k_content, JString (lit "c")); (k_type, JString (lit "li"))])
    = Ok (JObject [(k_content, JString (lit "c")); (k_type, JString (lit "li"));
                   (k_text, JString (lit "c"))])
  /\ patch_item (JObject [(k_text, JString []); (k_content, JString (lit "c"))])
     = Ok (JObject [(k_text, JString []); (k_content, JString (lit "c"))]).
Proof.
  split.
  - destruct (content_copied_when_text_missing
      [(k_content, JString (lit "c")); (k_type, JString (lit "li"))])
      as (H & _).
    destruct H as (d' & E & _); [reflexivity | discriminate|].
    rewrite E. vm_compute in E. inversion E. reflexivity.
  - apply (proj1 (proj2 (content_copied_when_text_missing
             [(k_text, JString []); (k_content, JString (lit "c"))]))).
    discriminate.
Defined.

(* ------------------------------------------------------------------ *)
(** ** Normalising, then rendering *)

Lemma mapM_fixed {A} (f : A -> result A) (xs : list A) :
  (forall x, In x xs -> f x = Ok x) -> mapM f xs = Ok xs.
Proof.
  induction xs as [|x xs IH]; intros H; [reflexivity|].
  cbn [mapM]. rewrite (H x (or_introl eq_refl)). cbn [bind].
  rewrite IH; [reflexivity|]. intros y Hy. apply H. right; assumption.
Qed.

Lemma patch_section_canonical (sec : Section) :
  patch_section (json_of_section sec) = Ok (json_of_section sec).
Proof.
  unfold patch_section, json_of_section. cbn [attr_get bind].
  change (get_default k_items (JArray []) _)
    with (JArray (List.map json_of_item (sec_items sec))).
  cbn [iter bind]. rewrite mapM_fixed.
  - reflexivity.
  - intros x Hx. apply in_map_iff in Hx. destruct Hx as (it & <- & _).
    reflexivity.
Qed.

Lemma coerce_canonical (doc : Document) :
  coerce_to_sections_schema (json_of_document doc)
    = Ok (json_of_document doc).
Proof.
  unfold coerce_to_sections_schema, json_of_document.
  change (lookup k_sections [(k_sections, ?v)]) with (Some v).
  cbn [iter bind]. rewrite mapM_fixed.
  - reflexivity.
  - intros x Hx. apply in_map_iff in Hx. destruct Hx as (sec & <- & _).
    apply patch_section_canonical.
Qed.

(** The item with [content] for [text], once patched. *)
Lemma patch_item_content (it : Item) :
  patch_item (json_of_item_content it)
    = Ok (JObject [(k_content, JString (item_text it));
                   (k_type, JString (item_type it));
                   (k_text, JString (item_text it))]).
Proof. reflexivity. Qed.

Lemma patched_item_reads (it : Item) :
  reads_as_item (JObject [(k_content, JString (item_text it));
                          (k_type, JString (item_type it));
                          (k_text, JString (item_text it))]) it.
Proof.
  eexists. split; [reflexivity|]. split; [|reflexivity].
  change (get_default k_text (JString []) _) with (JString (item_text it)).
  destruct (item_text it); reflexivity.
Qed.

Lemma mapM_patch_content (items : list Item) :
  exists js,
    mapM patch_item (List.map json_of_item_content items) = Ok js
    /\ Forall2 reads_as_item js items.
Proof.
  induction items as [|it items (js & E & H)].
  - exists []. split; [reflexivity | constructor].
  - eexists. cbn [List.map mapM]. rewrite patch_item_content. cbn [bind].
    rewrite E. cbn [bind]. split; [reflexivity|].
    constructor; [apply patched_item_reads | assumption].
Qed.

Lemma patch_section_content (sec : Section) :
  exists j,
    patch_section (json_of_section_content sec) = Ok j
    /\ reads_as_section j sec.
Proof.
  destruct (mapM_patch_content (sec_items sec)) as (js & E & H).
  unfold patch_section, json_of_section_content. cbn [attr_get bind].
  change (get_default k_items (JArray []) _)
    with (JArray (List.map json_of_item_content (sec_items sec))).
  cbn [iter bind]. rewrite E. cbn [bind].
  eexists. split; [reflexivity|].
  eexists. split; [reflexivity|]. split.
  - left. reflexivity.
  - left. exists js. split; [reflexivity | assumption].
Qed.

Lemma mapM_patch_sections_content (doc : Document) :
  exists js,
    mapM patch_section (List.map json_of_section_content doc) = Ok js
    /\ Forall2 reads_as_section js doc.
Proof.
  induction doc as [|sec doc (js & E & H)].
  - exists []. split; [reflexivity | constructor].
  - destruct (patch_section_content sec) as (j & Ej & Hj).
    exists (j :: js). cbn [List.map mapM]. rewrite Ej. cbn [bind].
    rewrite E. cbn [bind]. split; [reflexivity|].
    constructor; assumption.
Qed.

(** X12. A canonical document goes through the normaliser unchanged, and a
    document whose items carry their text under [content] instead of [text]
    renders, once normalised, exactly as the canonical one does. *)
Theorem content_document_renders_alike :
  forall doc : Document,
    coerce_to_sections_schema (json_of_document doc)
      = Ok (json_of_document doc)
    /\ (v <- coerce_to_sections_schema (json_of_document_content doc) ;;
        build_html_from_sections v)
       = Ok (join [chr_nl] (document_blocks doc))
    /\ (v <- coerce_to_sections_schema (json_of_document doc) ;;
        build_html_from_sections v)
       = Ok (join [chr_nl] (document_blocks doc)).
Proof.
  intros doc. split; [apply coerce_canonical|]. split.
  - destruct (mapM_patch_sections_content doc) as (js & E & H).
    unfold coerce_to_sections_schema, json_of_document_content.
    change (lookup k_sections [(k_sections, ?v)]) with (Some v).
    cbn [iter bind]. rewrite E. cbn [bind].
    apply build_html_reads.
    eexists _, js. split; [reflexivity|]. split; [reflexivity | assumption].
  - rewrite coerce_canonical. cbn [bind]. apply build_html_spec.
Qed.

Lemma built_pair_of_item (it : Item) :
  built_pair [(k_text, JString (item_text it));
              (k_type, JString (item_type it))]
  = (JString match item_type it with [] => lit "p" | ty => ty end,
     JString (item_text it)).
Proof.
  unfold built_pair.
  change (get k_type _) with (JString (item_type it)).
  change (get k_text _) with (JString (item_text it)).
  change (get k_content _) with JNull.
  destruct (item_type it), (item_text it); reflexivity.
Qed.

Lemma built_pairs_of_items (items : list Item) :
  built_pairs (List.map json_of_item items)
  = List.map (fun it =>
      (JString match item_type it with [] => lit "p" | ty => ty end,
       JString (item_text it))) items.
Proof.
  induction items as [|it items IH]; [reflexivity|].
  unfold built_pairs in *. cbn [List.map flat_map json_of_item].
  rewrite built_pair_of_item, IH. reflexivity.
Qed.

Lemma built_item_reads (it : Item) :
  reads_as_item
    (item_json (JString match item_type it with [] => lit "p" | ty => ty end,
                JString (item_text it))) it.
Proof.
  eexists. split; [reflexivity|]. cbn [fst snd]. split.
  - change (get_default k_text (JString []) _) with (JString (item_text it)).
    destruct (item_text it); reflexivity.
  - change (get_default k_type (JString (lit "p")) _)
      with (JString match item_type it with [] => lit "p" | ty => ty end).
    unfold is_li. destruct (item_type it); reflexivity.
Qed.

Lemma built_items_read (items : list Item) :
  Forall2 reads_as_item
    (List.map item_json
       (List.map (fun it =>
          (JString match item_type it with [] => lit "p" | ty => ty end,
           JString (item_text it))) items))
    items.
Proof.
  induction items as [|it items IH]; [constructor|].
  cbn [List.map]. constructor; [apply built_item_reads | assumption].
Qed.

Lemma heading_tag_of_item (it : Item) :
  is_heading_tag
    (JString match item_type it with [] => lit "p" | ty => ty end)
  = existsb (PyStr.eqb (item_type it)) heading_tags.
Proof. destruct (item_type it); reflexivity. Qed.

(** X13. A flat list of items, normalised and rendered: its first item,
    when of type [h1], [h2] or [h3], is the heading, and the others are
    rendered in order; a heading-like item further on is an ordinary
    paragraph. *)
Theorem array_rendered_as_one_section :
  forall items : list Item,
    (v <- coerce_to_sections_schema (JArray (List.map json_of_item items)) ;;
     build_html_from_sections v)
    = Ok (join [chr_nl] (section_blocks (section_of_items items))).
Proof.
  intros items. rewrite coerce_array.
  unfold first_type_hashable. rewrite built_pairs_of_items.
  assert (Hdoc : forall sec, document_blocks [sec] = section_blocks sec).
  { intros sec. unfold document_blocks. cbn [flat_map]. apply app_nil_r. }
  destruct items as [|it rest].
  - cbn [List.map bind promoted fst snd]. reflexivity.
  - cbn [List.map hashable bind promoted].
    rewrite heading_tag_of_item. unfold section_of_items.
    destruct (existsb (PyStr.eqb (item_type it)) heading_tags);
      cbn [fst snd]; rewrite <- Hdoc;
      apply build_html_reads;
      (eexists _, _; split; [reflexivity|]; split; [reflexivity|]);
      (constructor; [|constructor]);
      (eexists; split; [reflexivity|]; split;
       [left; reflexivity | left; eexists; split; [reflexivity|]]).
    + apply built_items_read.
    + apply (built_items_read (it :: rest)).
Qed.

(* ================================================================== *)
(** * Further properties of the extractor *)

Lemma substring_refl (s : pystr) : substring s s.
Proof. exists [], []. rewrite app_nil_r. reflexivity. Qed.

Lemma substring_trans (a b c : pystr) :
  substring a b -> substring b c -> substring a c.
Proof.
  intros (u & v & ->) (x & y & ->).
  exists (x ++ u), (v ++ y). rewrite <- !app_assoc. reflexivity.
Qed.

Lemma strip_substring (s : pystr) : substring (strip s) s.
Proof.
  destruct (dropwhile_split isspace s) as (u & E & _).
  destruct (rstrip_split (lstrip s)) as (ws & E' & _).
  exists u, ws. unfold strip. rewrite <- E'. exact E.
Qed.

Lemma slice_substring (s : pystr) (a b : Z) : substring (slice s a b) s.
Proof.
  unfold slice. cbv zeta.
  set (m := Z.to_nat (adjust_index (Z.of_nat (List.length s)) a)).
  set (n := Z.to_nat _).
  exists (firstn m s), (skipn n (skipn m s)).
  rewrite (firstn_skipn n (skipn m s)). symmetry. apply firstn_skipn.
Qed.

Lemma search_substring (pat : pattern) (s g : pystr) :
  search pat s = Some g -> substring g s.
Proof.
  intros H. apply search_sound in H. destruct H as (u & w & rest & -> & Hm).
  apply match_at_sound in Hm. destruct Hm as (u1 & u3 & -> & _).
  exists (u ++ u1), (u3 ++ rest). rewrite <- !app_assoc. reflexivity.
Qed.

(** X14. The candidate handed to the decoder is always a contiguous part
    of the text: the extractor cuts, it never rewrites or adds a
    character. *)
Theorem candidate_is_part_of_text :
  forall text : pystr, exists before after,
    text = before ++ candidate text ++ after.
Proof.
  intros text. change (substring (candidate text) text).
  apply (substring_trans _ (strip text)); [|apply strip_substring].
  unfold candidate. cbv zeta.
  destruct (search fence_pattern (strip text)) as [g|] eqn:E.
  - apply (substring_trans _ g); [apply strip_substring|].
    apply (search_substring _ _ _ E).
  - destruct (startswith (lit "[") (strip text)); apply slice_substring.
Qed.

Lemma find_from_absent (c : char) (s : pystr) :
  forall i : Z, ~ In c s -> find_from [c] s i = (-1)%Z.
Proof.
  induction s as [|x s IH]; intros i H; cbn [find_from];
    rewrite startswith_single; [reflexivity|].
  destruct (N.eqb_spec c x) as [->|].
  - exfalso. apply H. left; reflexivity.
  - apply IH. intros Hin. apply H. right; assumption.
Qed.

Lemma nth_error_last (m : pystr) (c : char) (a : pystr) :
  nth_error (a ++ m ++ [c]) (List.length a + List.length m) = Some c.
Proof.
  rewrite app_assoc.
  rewrite nth_error_app2 by (rewrite length_app; lia).
  rewrite length_app.
  replace (List.length a + List.length m - (List.length a + List.length m))
    with 0 by lia.
  reflexivity.
Qed.

(** X15. A text that, trimmed, begins with an opening brace and ends with a
    closing brace, or begins and ends with square brackets, and holds no
    fenced block, is handed to the decoder whole: the extractor only trims
    it. *)
Theorem bare_json_passes_whole :
  forall (json_loads : pystr -> json + (pystr * nat)) (text m : pystr),
    ~ has_fence (strip text) ->
    strip text = [chr_lbrace] ++ m ++ [chr_rbrace]
    \/ strip text = [chr_lbracket] ++ m ++ [chr_rbracket] ->
    candidate text = strip text
    /\ extract_json_from_model_output json_loads (Some text)
       = loads json_loads (strip text).
Proof.
  intros json_loads text m Hn Hs.
  assert (Hc : candidate text = strip text).
  { rewrite (candidate_brackets text 0 (S (List.length m)) Hn).
    - cbn [skipn].
      replace (S (List.length m) + 1 - 0) with (List.length (strip text)).
      + apply firstn_all.
      + destruct Hs as [-> | ->]; rewrite !length_app; cbn; lia.
    - unfold first_at, opening_bracket.
      destruct Hs as [-> | ->]; split; cbn; auto.
    - unfold last_at, closing_bracket.
      destruct Hs as [E | E]; rewrite E.
      + change (startswith (lit "[") ([chr_lbrace] ++ m ++ [chr_rbrace]))
          with false. cbv iota. split.
        * apply (nth_error_last m chr_rbrace [chr_lbrace]).
        * rewrite skipn_all2; [auto|]. rewrite !length_app. cbn. lia.
      + change (startswith (lit "[") ([chr_lbracket] ++ m ++ [chr_rbracket]))
          with true. cbv iota. split.
        * apply (nth_error_last m chr_rbracket [chr_lbracket]).
        * rewrite skipn_all2; [auto|]. rewrite !length_app. cbn. lia. }
  split; [exact Hc|].
  destruct text as [|c text].
  - cbn in Hs. destruct Hs; discriminate.
  - cbn [extract_json_from_model_output]. rewrite Hc. reflexivity.
Qed.

Lemma bare_json_passes_whole_witness :
  candidate (lit "  {x} ") = lit "{x}"
  /\ candidate (lit "[1, 2]") = lit "[1, 2]".
Proof.
  split.
  - refine (proj1 (bare_json_passes_whole RefDecoder.loads
                     (lit "  {x} ") (lit "x") _ _)).
    + apply no_backquote_no_fence. vm_compute. intuition discriminate.
    + left. reflexivity.
  - refine (proj1 (bare_json_passes_whole RefDecoder.loads
                     (lit "[1, 2]") (lit "1, 2") _ _)).
    + apply no_backquote_no_fence. vm_compute. intuition discriminate.
    + right. reflexivity.
Defined.

Lemma slice_empty_stop (s : pystr) (a : Z) : slice s a 0 = [].
Proof.
  unfold slice, adjust_index. cbv zeta.
  change (0 <? 0)%Z with false. cbv iota.
  replace (Z.to_nat (Z.min 0 (Z.of_nat (List.length s)) - _)) with 0;
    [reflexivity|].
  destruct (Z.ltb_spec a 0); lia.
Qed.

Lemma slice_last (m : pystr) (c : char) :
  slice (m ++ [c]) (-1) (Z.of_nat (List.length m) + 1) = [c].
Proof.
  unfold slice, adjust_index. cbv zeta.
  rewrite length_app. cbn [List.length].
  change (-1 <? 0)%Z with true. cbv iota.
  destruct (Z.ltb_spec (Z.of_nat (List.length m) + 1) 0); [lia|].
  replace (Z.to_nat (Z.max 0 (-1 + Z.of_nat (List.length m + 1))))
    with (List.length m) by lia.
  replace (Z.to_nat _) with 1 by lia.
  rewrite skipn_app, skipn_all, Nat.sub_diag. reflexivity.
Qed.

(** X16. When a bracket is missing, the slice bounds are the [-1] of a
    failed search. Without fenced block: a text with neither brace, and a
    text that begins with a square bracket but has no closing one, give
    the empty candidate; a text without opening brace that ends with a
    closing brace gives that closing brace alone, the start [-1] counting
    from the end. *)
Theorem missing_bracket_candidates :
  forall text : pystr,
    ~ has_fence (strip text) ->
    (startswith (lit "[") (strip text) = false ->
       ~ In chr_lbrace (strip text) -> ~ In chr_rbrace (strip text) ->
       candidate text = [])
    /\ (startswith (lit "[") (strip text) = true ->
          ~ In chr_rbracket (strip text) ->
          candidate text = [])
    /\ (forall m,
          strip text = m ++ [chr_rbrace] ->
          startswith (lit "[") (strip text) = false ->
          ~ In chr_lbrace (strip text) ->
          candidate text = [chr_rbrace]).
Proof.
  intros text Hn. unfold candidate. cbv zeta.
  rewrite (search_fence_none _ Hn). unfold find, rfind.
  split.
  { intros -> Ho Hc.
    change (lit "}") with [chr_rbrace].
    rewrite (rfind_from_absent _ _ 0 Hc). apply slice_empty_stop. }
  split.
  { intros -> Hc.
    change (lit "]") with [chr_rbracket].
    rewrite (rfind_from_absent _ _ 0 Hc). apply slice_empty_stop. }
  intros m Es -> Ho.
  change (lit "{") with [chr_lbrace]. change (lit "}") with [chr_rbrace].
  rewrite (find_from_absent _ _ 0 Ho).
  rewrite (rfind_from_last chr_rbrace (strip text) (List.length m) 0).
  - rewrite Es. apply slice_last.
  - lia.
  - rewrite Es. split.
    + rewrite nth_error_app2, Nat.sub_diag by lia. reflexivity.
    + rewrite skipn_all2; [auto|]. rewrite length_app. cbn. lia.
Qed.

Lemma missing_bracket_candidates_witness :
  candidate (lit "no json here") = []
  /\ candidate (lit "[1, 2") = []
  /\ candidate (lit "oops}") = lit "}".
Proof.
  split; [|split].
  - apply (proj1 (missing_bracket_candidates (lit "no json here")
             ltac:(apply no_backquote_no_fence; vm_compute;
                   intuition discriminate)));
      [reflexivity | | ]; vm_compute; intuition discriminate.
  - apply (proj1 (proj2 (missing_bracket_candidates (lit "[1, 2")
             ltac:(apply no_backquote_no_fence; vm_compute;
                   intuition discriminate))));
      [reflexivity | vm_compute; intuition discriminate].
  - apply (proj2 (proj2 (missing_bracket_candidates (lit "oops}")
             ltac:(apply no_backquote_no_fence; vm_compute;
                   intuition discriminate))) (lit "oops"));
      [reflexivity | reflexivity | vm_compute; intuition discriminate].
Defined.

Lemma lstrip_spaces (ws : pystr) :
  forallb isspace ws = true -> lstrip ws = [].
Proof.
  intros H. rewrite <- (app_nil_r ws). rewrite lstrip_run by assumption.
  reflexivity.
Qed.

(** X17. Only the empty string and [None] are the empty response. A text
    of white space alone passes the first test, is trimmed to nothing, and
    fails in the decoder, on the empty document. *)
Theorem blank_text_fails_in_decoder :
  forall (json_loads : pystr -> json + (pystr * nat)) (ws : pystr)
         (msg : pystr) (pos : nat),
    ws <> [] -> forallb isspace ws = true ->
    json_loads [] = inr (msg, pos) ->
    candidate ws = []
    /\ extract_json_from_model_output json_loads (Some ws)
       = Raise (JSONDecodeError msg [] pos)
    /\ (msg <> lit "empty" ->
        extract_json_from_model_output json_loads (Some ws)
        <> extract_json_from_model_output json_loads (Some [])).
Proof.
  intros json_loads ws msg pos Hne Hws Hl.
  assert (Hs : strip ws = []).
  { unfold strip. rewrite lstrip_spaces by assumption. reflexivity. }
  assert (Hc : candidate ws = []).
  { unfold candidate. cbv zeta. rewrite Hs. reflexivity. }
  assert (He : extract_json_from_model_output json_loads (Some ws)
               = Raise (JSONDecodeError msg [] pos)).
  { destruct ws as [|c ws]; [congruence|].
    cbn [extract_json_from_model_output]. rewrite Hc. unfold loads.
    rewrite Hl. reflexivity. }
  split; [exact Hc|]. split; [exact He|].
  intros Hm. rewrite He. cbn [extract_json_from_model_output].
  intros H. inversion H. congruence.
Qed.

Lemma blank_text_fails_in_decoder_witness :
  extract_json_from_model_output RefDecoder.loads (Some (lit "  "))
    = Raise (JSONDecodeError (lit "Expecting value") [] 0).
Proof.
  refine (proj1 (proj2 (blank_text_fails_in_decoder RefDecoder.loads
            (lit "  ") (lit "Expecting value") 0 _ _ _))).
  - discriminate.
  - reflexivity.
  - reflexivity.
Defined.

(* ================================================================== *)
(** * The analysis after the request, and the display of its result *)

Lemma coerce_has_sections (data doc : json) :
  coerce_to_sections_schema data = Ok doc ->
  exists d secs, doc = JObject d /\ lookup k_sections d = Some secs.
Proof.
  intros H.
  destruct data as [| | | | |elems|d];
    try (cbn in H; inversion H; subst doc;
         eexists _, _; split; reflexivity).
  - rewrite coerce_array in H.
    destruct (first_type_hashable elems); [|discriminate].
    inversion H; subst doc. eexists _, _; split; reflexivity.
  - cbn [coerce_to_sections_schema] in H.
    destruct (lookup k_sections d) as [secs|] eqn:El.
    + destruct (iter secs) as [xs|] eqn:Ei; [|discriminate]. cbn [bind] in H.
      destruct (mapM patch_section xs) as [xs'|] eqn:Em; [|discriminate].
      cbn [bind] in H.
      destruct secs; inversion H; subst doc;
        try (exists d; eexists; split; [reflexivity | exact El]).
      eexists _, _. split; [reflexivity | apply lookup_set_same].
    + inversion H; subst doc. eexists _, _; split; reflexivity.
Qed.

(** X18. The analysis never raises and is never silent about a failure:
    it returns a value only when the extractor and the normaliser both
    succeed on a non-empty response text, shows nothing then, and the value
    is an object with a [sections] key, so that the display takes it for a
    result and calls the renderer; otherwise it returns nothing and shows
    an error first. *)
Theorem analysis_result_reaches_renderer :
  forall (json_loads : pystr -> json + (pystr * nat)) (resp : response),
    (forall doc events,
       analyze_response json_loads resp = (Some doc, events) ->
       events = []
       /\ (exists t, response_text resp = Some t /\ t <> []
                     /\ extract_and_coerce json_loads t = Ok doc)
       /\ (exists d, doc = JObject d /\ contains k_sections d = true)
       /\ show_result (Some doc)
          = match build_html_from_sections doc with
            | Ok html => (Ok (Some html), [])
            | Raise e => (Raise e, [])
            end)
    /\ (forall events,
          analyze_response json_loads resp = (None, events) ->
          exists msg rest, events = st_error msg :: rest).
Proof.
  intros json_loads resp. unfold analyze_response. split.
  - intros doc events H.
    destruct (response_text resp) as [[|c t]|]; try discriminate.
    destruct (extract_and_coerce json_loads (c :: t)) as [v|e] eqn:E;
      [|discriminate].
    inversion H; subst v events. split; [reflexivity|].
    split; [exists (c :: t); repeat split; [discriminate | exact E]|].
    assert (Hs : exists d secs, doc = JObject d /\ lookup k_sections d = Some secs).
    { unfold extract_and_coerce in E.
      match type of E with
      | bind ?m _ = _ => destruct m as [raw|]
      end; cbn [bind] in E; [|discriminate].
      apply (coerce_has_sections raw doc E). }
    destruct Hs as (d & secs & -> & Hl).
    split; [exists d; split; [reflexivity | apply (lookup_contains _ _ _ Hl)]|].
    unfold show_result.
    assert (Ht : truthy (JObject d) = true)
      by (destruct d; [discriminate | reflexivity]).
    rewrite Ht. reflexivity.
  - intros events H.
    destruct (response_text resp) as [[|c t]|];
      try (inversion H; eexists _, _; reflexivity).
    destruct (extract_and_coerce json_loads (c :: t));
      [discriminate | inversion H; eexists _, _; reflexivity].
Qed.

Lemma analysis_result_reaches_renderer_witness :
  analyze_response RefDecoder.loads
    {| output_text := Some fenced_example; first_content := None |}
    = (Some empty_document, [])
  /\ show_result (Some empty_document) = (Ok (Some []), []).
Proof.
  assert (E : analyze_response RefDecoder.loads
                {| output_text := Some fenced_example; first_content := None |}
              = (Some empty_document, [])) by (vm_compute; reflexivity).
  split; [exact E|].
  destruct (analysis_result_reaches_renderer RefDecoder.loads
              {| output_text := Some fenced_example; first_content := None |})
    as (H & _).
  destruct (H _ _ E) as (_ & _ & _ & Hshow).
  rewrite Hshow. reflexivity.
Defined.

(** X19. White space alone is treated differently in the two places a
    response text can come from: as [output_text] it is not empty, goes to
    the extractor and is reported, with the text shown, as a text from
    which no JSON could be extracted; rebuilt from the content entries it
    is trimmed to nothing and reported as an empty response. *)
Theorem blank_response_reported_two_ways :
  forall (json_loads : pystr -> json + (pystr * nat)) (ws msg : pystr)
         (pos : nat) (content : option (list block)),
    ws <> [] -> forallb isspace ws = true ->
    json_loads [] = inr (msg, pos) ->
    analyze_response json_loads
      {| output_text := Some ws; first_content := content |}
      = (None, [st_error msg_no_json; st_code ws])
    /\ analyze_response json_loads
         {| output_text := None;
            first_content := Some [{| block_type := lit "output_text";
                                      block_text := Some ws |}] |}
       = (None, [st_error msg_empty_response]).
Proof.
  intros json_loads ws msg pos content Hne Hws Hl.
  assert (Hs : strip ws = []).
  { unfold strip. rewrite lstrip_spaces by assumption. reflexivity. }
  split.
  - unfold analyze_response, response_text. cbn [output_text].
    destruct ws as [|c ws]; [congruence|]. cbn [is_empty_text].
    unfold extract_and_coerce. cbn [extract_json_from_model_output].
    assert (Hc : candidate (c :: ws) = []).
    { unfold candidate. cbv zeta. rewrite Hs. reflexivity. }
    rewrite Hc. unfold loads. rewrite Hl. reflexivity.
  - unfold analyze_response, response_text, fallback_text.
    cbn [output_text first_content is_empty_text output_texts block_type
         block_text].
    change (PyStr.eqb (lit "output_text") (lit "output_text")) with true.
    cbv iota. cbn [join]. rewrite Hs. reflexivity.
Qed.

Lemma blank_response_reported_two_ways_witness :
  analyze_response RefDecoder.loads
    {| output_text := Some [chr_nl]; first_content := None |}
    = (None, [st_error msg_no_json; st_code [chr_nl]]).
Proof.
  refine (proj1 (blank_response_reported_two_ways RefDecoder.loads
            [chr_nl] (lit "Expecting value") 0 None _ _ _)).
  - discriminate.
  - reflexivity.
  - reflexivity.
Defined.

(** X20. Normalising does not make a document renderable: a value that is
    neither falsy nor a string, as the text of an item, passes the
    normaliser unchanged and makes the renderer raise [AttributeError],
    which the display does not catch. *)
Theorem unrenderable_text_passes_normalizer :
  forall v : json,
    truthy v = true -> (forall t, v <> JString t) ->
    let data :=
      JObject [(k_sections,
        JArray [JObject [(k_items, JArray [JObject [(k_text, v)]])]])] in
    coerce_to_sections_schema data = Ok data
    /\ build_html_from_sections data = Raise AttributeError
    /\ show_result (Some data) = (Raise AttributeError, []).
Proof.
  intros v Ht Hs data. subst data.
  assert (Hn : is_none v = false) by (destruct v; try reflexivity; discriminate).
  assert (Hc : coerce_to_sections_schema
                 (JObject [(k_sections,
                    JArray [JObject [(k_items, JArray [JObject [(k_text, v)]])]])])
               = Ok (JObject [(k_sections,
                    JArray [JObject [(k_items, JArray [JObject [(k_text, v)]])]])])).
  { unfold coerce_to_sections_schema.
    change (lookup k_sections [(k_sections, ?x)]) with (Some x).
    cbn [iter bind mapM]. unfold patch_section. cbn [attr_get bind].
    change (get_default k_items (JArray []) [(k_items, ?x)]) with x.
    cbn [iter bind mapM patch_item].
    change (get k_text [(k_text, v)]) with v. rewrite Hn. reflexivity. }
  assert (Hb : build_html_from_sections
                 (JObject [(k_sections,
                    JArray [JObject [(k_items, JArray [JObject [(k_text, v)]])]])])
               = Raise AttributeError).
  { unfold build_html_from_sections. cbn [truthy negb py_contains_str bind].
    change (contains k_sections [(k_sections, ?x)]) with true.
    cbn [negb getitem bind].
    change (lookup k_sections [(k_sections, ?x)]) with (Some x).
    cbn [iter bind foldM]. unfold render_section. cbn [attr_get bind].
    change (get_default k_heading (JString []) [(k_items, ?x)])
      with (JString []).
    cbn [markdown_inline_to_html bind].
    change (get_default k_items (JArray []) [(k_items, ?x)]) with x.
    cbn [iter bind]. unfold render_items. cbn [foldM].
    rewrite render_item_dict.
    change (get_default k_text (JString []) [(k_text, v)]) with v.
    unfold py_or. rewrite Ht.
    destruct v; try reflexivity; try discriminate.
    exfalso. apply (Hs s). reflexivity. }
  split; [exact Hc|]. split; [exact Hb|].
  unfold show_result. cbn [truthy]. rewrite Hb. reflexivity.
Qed.

Lemma unrenderable_text_passes_normalizer_witness :
  build_html_from_sections
    (JObject [(k_sections,
       JArray [JObject [(k_items, JArray [JObject [(k_text, JInt 42)]])]])])
  = Raise AttributeError.
Proof.
  refine (proj1 (proj2 (unrenderable_text_passes_normalizer (JInt 42) _ _))).
  - reflexivity.
  - discriminate.
Defined.

(* ================================================================== *)
(** * Further properties of the inline converter *)

Lemma sub_delimited_In (d opening closing : pystr) (c : char) :
  forall s,
    In c (sub (delimited (chr_star :: d)) (wrap opening closing) s) ->
    In c s \/ In c opening \/ In c closing.
Proof.
  intros s. remember (List.length s) as n eqn:Hn. revert s Hn.
  induction n as [n IH] using lt_wf_ind. intros s Hn.
  destruct s as [|x s]; [intros []|].
  rewrite sub_delimited_cons.
  destruct (match_at _ (x :: s)) as [[g rest]|] eqn:E.
  - apply delimited_match in E. destruct E as (E & _).
    unfold wrap. intros H.
    apply in_app_or in H. destruct H as [H|H].
    + apply in_app_or in H. destruct H as [H|H]; [auto|].
      apply in_app_or in H. destruct H as [H|H]; [|auto].
      left. rewrite E. apply in_or_app. right. apply in_or_app.
      left; assumption.
    + apply (IH (List.length rest)) in H; [| |reflexivity].
      * destruct H as [H|H]; [|auto]. left. rewrite E.
        apply in_or_app. right. apply in_or_app. right.
        apply in_or_app. right. assumption.
      * rewrite Hn, E. rewrite !length_app. cbn [List.length]. lia.
  - intros [->|H]; [left; left; reflexivity|].
    apply (IH (List.length s)) in H; [| subst n; cbn; lia | reflexivity].
    destruct H as [H|H]; [left; right; assumption | auto].
Qed.

(** X21. The converted text holds no double quote and no apostrophe, and
    an asterisk or a newline only if the text had one: the substitutions
    add nothing but their tags. *)
Theorem converted_text_characters :
  forall (t : pystr) (c : char),
    In c (inline_html t) ->
    c <> chr_quot /\ c <> chr_apos
    /\ (c = chr_star -> In chr_star t)
    /\ (c = chr_nl -> In chr_nl t).
Proof.
  intros t c H. unfold inline_html, sub_italic, sub_bold, sub_bold_italic in H.
  change (lit "***") with (chr_star :: [chr_star; chr_star]) in H.
  change (lit "**") with (chr_star :: [chr_star]) in H.
  change (lit "*") with (chr_star :: []) in H.
  assert (Htag : forall tag,
    In tag [lit "<em>"; lit "</em>"; lit "<strong>"; lit "</strong>";
            lit "<strong><em>"; lit "</em></strong>"] ->
    In c tag ->
    c <> chr_quot /\ c <> chr_apos /\ c <> chr_star /\ c <> chr_nl).
  { intros tag Ht Hc. cbn in Ht.
    repeat (destruct Ht as [<-|Ht];
            [cbn in Hc; intuition (subst; discriminate)|]).
    destruct Ht. }
  assert (Hesc : In c (escape t) ->
    c <> chr_quot /\ c <> chr_apos
    /\ (c = chr_star -> In chr_star t) /\ (c = chr_nl -> In chr_nl t)).
  { intros He. apply escape_In in He. tauto. }
  assert (Hfrom : forall tag,
    In tag [lit "<em>"; lit "</em>"; lit "<strong>"; lit "</strong>";
            lit "<strong><em>"; lit "</em></strong>"] ->
    In c tag ->
    c <> chr_quot /\ c <> chr_apos
    /\ (c = chr_star -> In chr_star t) /\ (c = chr_nl -> In chr_nl t)).
  { intros tag Ht Hc. destruct (Htag tag Ht Hc) as (H1 & H2 & H3 & H4).
    repeat split; (assumption || (intros; congruence)). }
  apply sub_delimited_In in H. destruct H as [H|[H|H]];
    [| apply (Hfrom (lit "<em>")); [cbn; auto | assumption]
     | apply (Hfrom (lit "</em>")); [cbn; auto | assumption]].
  apply sub_delimited_In in H. destruct H as [H|[H|H]];
    [| apply (Hfrom (lit "<strong>")); [cbn; auto 10 | assumption]
     | apply (Hfrom (lit "</strong>")); [cbn; auto 10 | assumption]].
  apply sub_delimited_In in H. destruct H as [H|[H|H]];
    [| apply (Hfrom (lit "<strong><em>")); [cbn; auto 10 | assumption]
     | apply (Hfrom (lit "</em></strong>")); [cbn; auto 10 | assumption]].
  apply Hesc. assumption.
Qed.

Lemma converted_text_characters_witness :
  ~ In chr_quot (inline_html (lit "say 'x' **y**")).
Proof.
  intros H.
  destruct (converted_text_characters (lit "say 'x' **y**") chr_quot H)
    as (Hq & _).
  apply Hq. reflexivity.
Defined.

(* ------------------------------------------------------------------ *)
(** ** Line by line *)

Lemma strip_prefix_line (d a b : pystr) :
  all_stars d ->
  strip_prefix d (a ++ chr_nl :: b)
    = option_map (fun r => r ++ chr_nl :: b) (strip_prefix d a).
Proof.
  intros Hd. revert a. induction Hd as [|x d -> _ IH]; intros a;
    [reflexivity|].
  destruct a as [|y a]; cbn [app strip_prefix]; [reflexivity|].
  destruct (N.eqb chr_star y); [apply IH | reflexivity].
Qed.

Section Related.
Context {A B : Type}.
Variable p : char -> bool.
Variable K : pystr -> option A.
Variable K' : pystr -> option B.
Variable F : B -> A.
Variable b : pystr.
Hypothesis newline_excluded : p chr_nl = false.
Hypothesis related :
  forall x, K (x ++ chr_nl :: b) = option_map F (K' x).

(** The lazy star stops at the newline, so what follows the line plays no
    part. *)
Lemma star_lazy_line (x : pystr) :
  star_lazy p K (x ++ chr_nl :: b) = option_map F (star_lazy p K' x).
Proof.
  induction x as [|c x IH].
  - pose proof (related []) as R0. cbn [app] in R0.
    cbn [app star_lazy]. rewrite R0, newline_excluded.
    destruct (K' []); reflexivity.
  - cbn [app star_lazy].
    change (c :: x ++ chr_nl :: b) with ((c :: x) ++ chr_nl :: b).
    rewrite (related (c :: x)).
    destruct (K' (c :: x)); [reflexivity|]. cbn [option_map].
    destruct (p c); [exact IH | reflexivity].
Qed.
End Related.

Lemma firstn_line (a1 x l : pystr) :
  firstn (List.length (a1 ++ l) - List.length (x ++ l)) (a1 ++ l)
    = firstn (List.length a1 - List.length x) a1.
Proof.
  rewrite !length_app.
  replace (List.length a1 + List.length l - (List.length x + List.length l))
    with (List.length a1 - List.length x) by lia.
  rewrite firstn_app.
  replace (List.length a1 - List.length x - List.length a1) with 0 by lia.
  cbn [firstn]. apply app_nil_r.
Qed.

Lemma match_at_line (d a b : pystr) :
  all_stars d ->
  match_at (delimited (chr_star :: d)) (a ++ chr_nl :: b) =
  match match_at (delimited (chr_star :: d)) a with
  | Some (g, rest) => Some (g, rest ++ chr_nl :: b)
  | None => None
  end.
Proof.
  intros Hd.
  assert (HD : all_stars (chr_star :: d)) by (constructor; auto).
  unfold match_at, delimited, PlusLazy. cbn [pre grp post rmatch].
  rewrite (strip_prefix_line _ a b HD).
  destruct (strip_prefix (chr_star :: d) a) as [a1|]; cbn [option_map];
    [|reflexivity].
  destruct a1 as [|c a1]; cbn [app]; [reflexivity|].
  destruct (dot c); [|reflexivity].
  lazymatch goal with
  | |- star_lazy dot ?K _ = match star_lazy dot ?K' _ with _ => _ end =>
      rewrite (star_lazy_line dot K K'
                 (fun gr : pystr * pystr => (fst gr, snd gr ++ chr_nl :: b)) b);
      [destruct (star_lazy dot K' a1) as [[g r]|]; reflexivity | | ]
  end.
  - reflexivity.
  - intros x. rewrite (strip_prefix_line _ x b HD).
    destruct (strip_prefix (chr_star :: d) x) as [r|]; cbn [option_map fst snd];
      [|reflexivity].
    change (c :: a1 ++ chr_nl :: b) with ((c :: a1) ++ chr_nl :: b).
    rewrite (firstn_line (c :: a1) x (chr_nl :: b)). reflexivity.
Qed.

Lemma sub_line (d : pystr) repl (b : pystr) :
  all_stars d ->
  forall a,
    sub (delimited (chr_star :: d)) repl (a ++ chr_nl :: b)
    = sub (delimited (chr_star :: d)) repl a
      ++ chr_nl :: sub (delimited (chr_star :: d)) repl b.
Proof.
  intros Hd a. remember (List.length a) as n eqn:Hn. revert a Hn.
  induction n as [n IH] using lt_wf_ind. intros a Hn.
  destruct a as [|c a].
  - cbn [app]. rewrite sub_delimited_cons, delimited_head by discriminate.
    reflexivity.
  - cbn [app]. rewrite !sub_delimited_cons.
    change (c :: a ++ chr_nl :: b) with ((c :: a) ++ chr_nl :: b).
    rewrite (match_at_line d (c :: a) b Hd).
    destruct (match_at _ (c :: a)) as [[g rest]|] eqn:E.
    + apply delimited_match in E. destruct E as (E & _).
      rewrite (IH (List.length rest)); [| |reflexivity].
      * rewrite <- app_assoc. reflexivity.
      * rewrite Hn, E. rewrite !length_app. cbn [List.length]. lia.
    + cbn [app]. rewrite (IH (List.length a)); [reflexivity | | reflexivity].
      subst n. cbn. lia.
Qed.

Lemma inline_html_line (a b : pystr) :
  inline_html (a ++ chr_nl :: b)
    = inline_html a ++ chr_nl :: inline_html b.
Proof.
  unfold inline_html. cbv zeta.
  change (a ++ chr_nl :: b) with (a ++ [chr_nl] ++ b).
  rewrite !escape_app. change (escape [chr_nl]) with [chr_nl].
  cbn [app]. unfold sub_bold_italic, sub_bold, sub_italic.
  change (lit "***") with (chr_star :: [chr_star; chr_star]).
  change (lit "**") with (chr_star :: [chr_star]).
  change (lit "*") with (chr_star :: []).
  rewrite !sub_line by (repeat constructor). reflexivity.
Qed.

(** X22. Markup never spans a line break: the converter treats each line
    by itself, so a text of several lines is converted line by line, and
    asterisks on two different lines never form a pair. *)
Theorem converted_line_by_line :
  (forall a b : pystr,
     inline_html (a ++ [chr_nl] ++ b)
       = inline_html a ++ [chr_nl] ++ inline_html b)
  /\ (forall lines : list pystr,
        inline_html (join [chr_nl] lines)
          = join [chr_nl] (List.map inline_html lines))
  /\ (forall a b : pystr,
        ~ In chr_star a -> ~ In chr_star b ->
        inline_html (lit "*" ++ a ++ [chr_nl] ++ b ++ lit "*")
          = lit "*" ++ escape a ++ [chr_nl] ++ escape b ++ lit "*").
Proof.
  split; [intros a b; apply inline_html_line|]. split.
  - induction lines as [|l lines IH]; [reflexivity|].
    destruct lines as [|l' lines']; [reflexivity|].
    change (join [chr_nl] (l :: l' :: lines'))
      with (l ++ chr_nl :: join [chr_nl] (l' :: lines')).
    rewrite inline_html_line, IH. reflexivity.
  - intros a b Ha Hb.
    replace (lit "*" ++ a ++ [chr_nl] ++ b ++ lit "*")
      with ((lit "*" ++ a) ++ chr_nl :: (b ++ lit "*"))
      by (rewrite <- !app_assoc; reflexivity).
    rewrite inline_html_line.
    change (lit "*" ++ a) with ([] ++ lit "*" ++ a).
    rewrite (inline_html_lonely_star [] a) by (auto; intros []).
    replace (b ++ lit "*") with (b ++ lit "*" ++ [])
      by (rewrite app_nil_r; reflexivity).
    rewrite (inline_html_lonely_star b []) by (auto; intros []).
    change (escape []) with (@nil char). cbn [app].
    rewrite app_nil_r, <- !app_assoc. reflexivity.
Qed.

Lemma converted_line_by_line_witness :
  inline_html (lit "*" ++ lit "a" ++ [chr_nl] ++ lit "b" ++ lit "*")
    = lit "*" ++ escape (lit "a") ++ [chr_nl] ++ escape (lit "b") ++ lit "*".
Proof.
  apply (proj2 (proj2 converted_line_by_line) (lit "a") (lit "b"));
    simpl; intuition discriminate.
Defined.

(* ================================================================== *)
(** * The response text *)

Lemma output_texts_filter (blocks : list block) :
  output_texts (filter is_output_text blocks) = output_texts blocks.
Proof.
  induction blocks as [|b blocks IH]; [reflexivity|].
  cbn [filter output_texts]. unfold is_output_text at 1.
  destruct (PyStr.eqb (block_type b) (lit "output_text")) eqn:E;
    [|exact IH].
  cbn [output_texts]. rewrite E, IH. reflexivity.
Qed.

Lemma output_texts_all (blocks : list block) :
  (forall b, In b blocks -> is_output_text b = true -> block_text b <> None) ->
  exists ts,
    output_texts blocks = Some ts
    /\ List.map Some ts
       = List.map block_text (filter is_output_text blocks).
Proof.
  induction blocks as [|b blocks IH]; intros H.
  - exists []. split; reflexivity.
  - destruct IH as (ts & E & Hm);
      [intros x Hx; apply H; right; assumption|].
    cbn [output_texts filter]. unfold is_output_text at 1 3.
    destruct (PyStr.eqb (block_type b) (lit "output_text")) eqn:Eb.
    + destruct (block_text b) as [t|] eqn:Et.
      * rewrite E. exists (t :: ts). split; [reflexivity|].
        cbn [List.map]. rewrite Et, Hm. reflexivity.
      * exfalso. apply (H b (or_introl eq_refl)); assumption.
    + exists ts. split; assumption.
Qed.

Lemma output_texts_broken (blocks : list block) (b : block) :
  In b blocks -> is_output_text b = true -> block_text b = None ->
  output_texts blocks = None.
Proof.
  induction blocks as [|x blocks IH]; intros Hin Ho Ht; [destruct Hin|].
  cbn [output_texts]. destruct Hin as [->|Hin].
  - unfold is_output_text in Ho. rewrite Ho, Ht. reflexivity.
  - rewrite (IH Hin Ho Ht).
    destruct (PyStr.eqb (block_type x) (lit "output_text")); [|reflexivity].
    destruct (block_text x); reflexivity.
Qed.

(** X23. Where the response text comes from: a non-empty [output_text] is
    taken as it is and the content entries are not looked at; otherwise
    the texts of the entries of type [output_text] are joined by newlines,
    in order, and trimmed, the entries of other types being ignored; and
    one such entry whose text cannot be read discards them all, the
    response then being reported as empty. *)
Theorem response_text_selection :
  forall (json_loads : pystr -> json + (pystr * nat)) (resp : response),
    (is_empty_text (output_text resp) = false ->
       response_text resp = output_text resp)
    /\ (forall blocks,
          is_empty_text (output_text resp) = true ->
          first_content resp = Some blocks ->
          (forall b, In b blocks -> is_output_text b = true ->
                     block_text b <> None) ->
          exists ts,
            List.map Some ts
              = List.map block_text (filter is_output_text blocks)
            /\ response_text resp
               = match ts with
                 | [] => None
                 | _ => Some (strip (join [chr_nl] ts))
                 end)
    /\ (forall blocks b,
          is_empty_text (output_text resp) = true ->
          first_content resp = Some blocks ->
          In b blocks -> is_output_text b = true -> block_text b = None ->
          analyze_response json_loads resp
            = (None, [st_error msg_empty_response])).
Proof.
  intros json_loads resp. unfold response_text. split.
  { intros ->. reflexivity. }
  split.
  { intros blocks -> Hc Hall. unfold fallback_text. rewrite Hc.
    destruct (output_texts_all blocks Hall) as (ts & E & Hm).
    exists ts. split; [exact Hm|]. rewrite E. destruct ts; reflexivity. }
  intros blocks b He Hc Hin Ho Ht.
  unfold analyze_response, response_text, fallback_text.
  rewrite He, Hc, (output_texts_broken blocks b Hin Ho Ht). reflexivity.
Qed.

Lemma response_text_selection_witness :
  response_text
    {| output_text := Some [];
       first_content :=
         Some [{| block_type := lit "reasoning"; block_text := None |};
               {| block_type := lit "output_text"; block_text := Some (lit " {") |};
               {| block_type := lit "output_text"; block_text := Some (lit "} ") |}] |}
  = Some (lit "{" ++ [chr_nl] ++ lit "}").
Proof.
  destruct (response_text_selection RefDecoder.loads
    {| output_text := Some [];
       first_content :=
         Some [{| block_type := lit "reasoning"; block_text := None |};
               {| block_type := lit "output_text"; block_text := Some (lit " {") |};
               {| block_type := lit "output_text"; block_text := Some (lit "} ") |}] |})
    as (_ & H & _).
  destruct (H _ eq_refl eq_refl) as (ts & Hm & E).
  - intros b [<-|[<-|[<-|[]]]]; cbn; congruence.
  - rewrite E. cbn in Hm.
    destruct ts as [|t1 [|t2 [|t3 ts]]]; try discriminate.
    inversion Hm. reflexivity.
Defined.

(* ================================================================== *)
(** * The markup of a rendered page *)

Lemma tagged_by_app (tags : list pystr) (a b : pystr) :
  tagged_by tags a -> tagged_by tags b -> tagged_by tags (a ++ b).
Proof.
  intros Ha Hb. induction Ha as [|c s H1 H2 _ IH|t s Ht _ IH].
  - assumption.
  - cbn [app]. constructor; assumption.
  - rewrite <- app_assoc. apply tagged_by_tag; assumption.
Qed.

Lemma tagged_by_one (tags : list pystr) (t : pystr) :
  In t tags -> tagged_by tags t.
Proof.
  intros H. rewrite <- (app_nil_r t). apply tagged_by_tag; [assumption|].
  constructor.
Qed.

Lemma tagged_by_page (s : pystr) : tagged s -> tagged_by page_tags s.
Proof.
  induction 1 as [|c s H1 H2 _ IH|t s Ht _ IH].
  - constructor.
  - constructor; assumption.
  - apply tagged_by_tag; [|assumption].
    unfold page_tags. apply in_or_app. left. assumption.
Qed.

(** Every tag of a page opens and closes with an angle bracket. *)
Lemma page_tag_shape (t : pystr) :
  In t page_tags -> exists m, t = chr_lt :: m ++ [chr_gt].
Proof.
  unfold page_tags, converter_tags, block_tags. cbn [app In].
  intros H.
  repeat (destruct H as [<-|H];
          [match goal with
           | |- exists m, ?t = _ => exists (removelast (tl t))
           end; vm_compute; reflexivity|]).
  destruct H.
Qed.

Lemma tagged_by_tail (c : char) (s : pystr) :
  c <> chr_lt -> tagged_by page_tags (c :: s) -> tagged_by page_tags s.
Proof.
  intros Hc H. inversion H as [|c' s' _ _ Hs|t s' Ht Hs E]; subst.
  - assumption.
  - destruct (page_tag_shape t Ht) as (m & ->).
    cbn [app] in E. congruence.
Qed.

Lemma tagged_by_init (w : pystr) :
  tagged_by page_tags w ->
  forall s c, w = s ++ [c] -> c <> chr_gt -> tagged_by page_tags s.
Proof.
  induction 1 as [|c0 s0 H1 H2 Hs IH|t s0 Ht Hs IH]; intros s c E Hc.
  - destruct s; discriminate.
  - destruct s as [|x s]; [constructor|].
    cbn [app] in E. injection E as -> ->.
    constructor; [assumption ..|]. apply (IH s c eq_refl Hc).
  - destruct (exists_last (l := s0)) as (s1 & c1 & ->).
    + intros ->. rewrite app_nil_r in E.
      destruct (page_tag_shape t Ht) as (m & ->).
      change (chr_lt :: m ++ [chr_gt]) with ((chr_lt :: m) ++ [chr_gt]) in E.
      apply app_inj_tail in E. destruct E as [_ E]. congruence.
    + rewrite app_assoc in E. apply app_inj_tail in E. destruct E as [<- <-].
      apply tagged_by_tag; [assumption|]. apply (IH s1 c1 eq_refl Hc).
Qed.

Lemma isspace_not_angle (c : char) :
  isspace c = true -> c <> chr_lt /\ c <> chr_gt.
Proof.
  intros H. split; intros ->; vm_compute in H; discriminate.
Qed.

Lemma tagged_by_drop_leading (ws s : pystr) :
  forallb isspace ws = true ->
  tagged_by page_tags (ws ++ s) -> tagged_by page_tags s.
Proof.
  induction ws as [|c ws IH]; intros Hws H; [assumption|].
  cbn [forallb] in Hws. apply andb_prop in Hws. destruct Hws as [Hc Hws].
  apply IH; [assumption|].
  apply (tagged_by_tail c); [apply isspace_not_angle; assumption | exact H].
Qed.

Lemma tagged_by_drop_trailing (ws s : pystr) :
  forallb isspace ws = true ->
  tagged_by page_tags (s ++ ws) -> tagged_by page_tags s.
Proof.
  induction ws as [|c ws IH] using rev_ind; intros Hws H.
  - rewrite app_nil_r in H. assumption.
  - rewrite forallb_app in Hws. apply andb_prop in Hws.
    destruct Hws as [Hws Hc]. cbn [forallb] in Hc. rewrite andb_true_r in Hc.
    apply IH; [assumption|].
    apply (tagged_by_init _ H (s ++ ws) c);
      [apply app_assoc | apply isspace_not_angle; assumption].
Qed.

Lemma tagged_by_lstrip (s : pystr) :
  tagged_by page_tags s -> tagged_by page_tags (lstrip s).
Proof.
  intros H. unfold lstrip.
  destruct (dropwhile_split isspace s) as (u & E & Hu).
  apply (tagged_by_drop_leading u); [assumption|]. rewrite <- E. assumption.
Qed.

Lemma tagged_by_strip (s : pystr) :
  tagged_by page_tags s -> tagged_by page_tags (strip s).
Proof.
  intros H. unfold strip. apply tagged_by_lstrip in H.
  destruct (rstrip_split (lstrip s)) as (ws & E & Hws).
  apply (tagged_by_drop_trailing ws); [assumption|]. rewrite <- E. assumption.
Qed.

Lemma tagged_by_clean_bullet (t : pystr) :
  tagged_by page_tags t -> tagged_by page_tags (clean_bullet t).
Proof.
  intros H. rewrite clean_bullet_spec. apply tagged_by_strip.
  pose proof (tagged_by_lstrip t H) as HL.
  destruct (lstrip t) as [|c rest]; [assumption|].
  destruct (N.eqb chr_bullet c) eqn:E; [|assumption].
  apply N.eqb_eq in E. subst c.
  apply (tagged_by_tail chr_bullet); [discriminate | assumption].
Qed.

Lemma tagged_by_wrap (opening closing body : pystr) :
  tagged_by page_tags opening -> tagged_by page_tags closing ->
  tagged_by page_tags body ->
  tagged_by page_tags (opening ++ body ++ closing).
Proof.
  intros Ho Hc Hb. repeat (apply tagged_by_app; [assumption|]). assumption.
Qed.

Lemma page_tag_lit (t : pystr) : In t page_tags -> tagged_by page_tags t.
Proof. apply tagged_by_one. Qed.

Lemma tagged_by_inline (t : pystr) : tagged_by page_tags (inline_html t).
Proof. apply tagged_by_page, tagged_inline_html. Qed.

Lemma tagged_by_item_blocks (items : list Item) :
  Forall (tagged_by page_tags) (item_blocks items).
Proof.
  unfold item_blocks. induction (groups items) as [|g gs IH];
    [constructor|].
  cbn [flat_map]. apply Forall_app. split; [|assumption].
  destruct g as [run|it]; cbn [group_blocks].
  - unfold list_block. apply Forall_app. split.
    { constructor; [|constructor]. apply page_tag_lit. vm_compute. tauto. }
    apply Forall_app. split.
    + induction run as [|it run IHr]; [constructor|].
      cbn [List.map]. constructor; [|assumption].
      unfold li_of, li_block. apply tagged_by_wrap.
      * apply page_tag_lit. vm_compute. tauto.
      * apply page_tag_lit. vm_compute. tauto.
      * apply tagged_by_clean_bullet, tagged_by_inline.
    + constructor; [|constructor]. apply page_tag_lit. vm_compute. tauto.
  - constructor; [|constructor]. unfold p_of, p_block.
    apply tagged_by_wrap; [apply page_tag_lit; vm_compute; tauto ..|].
    apply tagged_by_inline.
Qed.

Lemma tagged_by_heading_blocks (heading : pystr) :
  Forall (tagged_by page_tags) (heading_blocks heading).
Proof.
  unfold heading_blocks.
  pose proof (tagged_by_inline heading) as H.
  destruct (inline_html heading) as [|c h]; [constructor|].
  constructor; [|constructor]. unfold heading_block.
  change (lit "<p><strong>") with (lit "<p>" ++ lit "<strong>").
  change (lit "</strong></p>") with (lit "</strong>" ++ lit "</p>").
  apply tagged_by_wrap; [| |assumption];
    apply tagged_by_app; apply page_tag_lit; vm_compute; tauto.
Qed.

Lemma tagged_by_document_blocks (doc : Document) :
  Forall (tagged_by page_tags) (document_blocks doc).
Proof.
  unfold document_blocks. induction doc as [|sec doc IH]; [constructor|].
  cbn [flat_map]. apply Forall_app. split; [|assumption].
  unfold section_blocks. apply Forall_app. split;
    [apply tagged_by_heading_blocks | apply tagged_by_item_blocks].
Qed.

Lemma tagged_by_join (blocks : list pystr) :
  Forall (tagged_by page_tags) blocks ->
  tagged_by page_tags (join [chr_nl] blocks).
Proof.
  induction 1 as [|b blocks Hb Hbs IH]; [constructor|].
  cbn [join]. destruct blocks as [|b' blocks]; [assumption|].
  apply tagged_by_app; [assumption|].
  cbn [app]. constructor; [discriminate | discriminate | assumption].
Qed.

(** X24. In the page rendered from a document whose texts are strings,
    every angle bracket belongs to one of the ten tags the program writes:
    the four of the converter and the paragraph, list and list-item tags
    of the renderer. No other markup reaches the page, whatever the texts
    contain. *)
Theorem page_markup_is_own :
  forall doc : Document,
    exists out,
      build_html_from_sections (json_of_document doc) = Ok out
      /\ tagged_by page_tags out.
Proof.
  intros doc. exists (join [chr_nl] (document_blocks doc)).
  split; [apply build_html_spec|].
  apply tagged_by_join, tagged_by_document_blocks.
Qed.

(* ================================================================== *)
(** * Emphasis inside emphasis *)

Lemma lone_stars_suffix (v w : pystr) :
  lone_stars (v ++ w) = true -> lone_stars w = true.
Proof.
  induction v as [|c v IH]; [trivial|].
  cbn [app lone_stars]. intros H. apply andb_prop in H. tauto.
Qed.

Lemma lone_stars_plain (a b : pystr) :
  ~ In chr_star a -> lone_stars b = true -> lone_stars (a ++ b) = true.
Proof.
  induction a as [|c a IH]; intros Ha Hb; [assumption|].
  cbn [app lone_stars].
  destruct (N.eqb_spec chr_star c) as [E|_].
  - exfalso. apply Ha. left. symmetry. exact E.
  - apply IH; [|assumption]. intros Hin. apply Ha. right; assumption.
Qed.

Lemma lone_stars_star (c : char) (b : pystr) :
  c <> chr_star -> lone_stars (c :: b) = true ->
  lone_stars (chr_star :: c :: b) = true.
Proof.
  intros Hc Hb. change (lone_stars (chr_star :: c :: b))
    with (negb (N.eqb chr_star c) && lone_stars (c :: b)).
  rewrite Hb. destruct (N.eqb_spec chr_star c); [congruence | reflexivity].
Qed.

(** A text without asterisks put before an asterisk and a non-empty text
    without asterisks. *)
Lemma lone_stars_then (a y b : pystr) :
  ~ In chr_star a -> ~ In chr_star y -> y <> [] ->
  lone_stars b = true ->
  lone_stars (a ++ chr_star :: y ++ b) = true.
Proof.
  intros Ha Hy Hne Hb. apply lone_stars_plain; [assumption|].
  destruct y as [|c y]; [congruence|]. cbn [app].
  apply lone_stars_star.
  - intros ->. apply Hy. left; reflexivity.
  - apply (lone_stars_plain (c :: y) b); assumption.
Qed.

Lemma lone_stars_no_pair (d w t : pystr) :
  lone_stars w = true -> w <> [] ->
  strip_prefix (chr_star :: chr_star :: d) (w ++ t) = None.
Proof.
  intros H Hne. destruct w as [|c w]; [congruence|].
  cbn [app strip_prefix]. cbn [lone_stars] in H.
  destruct (N.eqb chr_star c); [|reflexivity].
  destruct w as [|c' w]; [discriminate|].
  cbn [app]. destruct (N.eqb chr_star c'); [discriminate | reflexivity].
Qed.

(** The matcher finds a group between two delimiters when the closing
    delimiter matches at no earlier place of the group. *)
Lemma delimited_match_group (d g rest : pystr) :
  g <> [] -> ~ In chr_nl g ->
  (forall v w, g = v ++ w -> v <> [] -> w <> [] ->
     strip_prefix (chr_star :: d) (w ++ (chr_star :: d) ++ rest) = None) ->
  match_at (delimited (chr_star :: d))
           ((chr_star :: d) ++ g ++ (chr_star :: d) ++ rest)
    = Some (g, rest).
Proof.
  intros Hne Hnl Hg.
  destruct g as [|c g]; [congruence|].
  unfold match_at, delimited, PlusLazy. cbn [pre grp post rmatch].
  rewrite strip_prefix_app.
  assert (Hc : dot c = true).
  { unfold dot. destruct (N.eqb_spec c chr_nl) as [->|]; [|reflexivity].
    exfalso. apply Hnl. left; reflexivity. }
  cbn [app]. rewrite Hc.
  rewrite star_lazy_scan.
  - apply star_lazy_here.
    pose proof (strip_prefix_app (chr_star :: d) rest) as Hp.
    pose proof (firstn_length_diff (c :: g) ((chr_star :: d) ++ rest)) as Hf.
    cbn [app] in Hp, Hf. rewrite Hp, Hf. reflexivity.
  - apply Forall_forall. intros y Hy. unfold dot.
    destruct (N.eqb_spec y chr_nl) as [->|]; [|reflexivity].
    exfalso. apply Hnl. right; assumption.
  - intros v w -> Hw.
    pose proof (Hg (c :: v) w eq_refl) as H0.
    cbn [app] in H0. rewrite H0; [reflexivity | discriminate | assumption].
Qed.

Lemma delimited_match_lone (g rest : pystr) :
  g <> [] -> ~ In chr_nl g -> lone_stars g = true ->
  match_at (delimited (lit "**")) (lit "**" ++ g ++ lit "**" ++ rest)
    = Some (g, rest).
Proof.
  intros Hne Hnl Hl.
  apply (delimited_match_group [chr_star] g rest Hne Hnl).
  intros v w -> _ Hw. apply lone_stars_no_pair; [|assumption].
  apply (lone_stars_suffix v w Hl).
Qed.

(** An asterisk before another character opens no delimiter of two or
    more asterisks, and two of them none of three or more. *)
Lemma sub_one_star (d : pystr) repl (c : char) (s : pystr) :
  c <> chr_star ->
  sub (delimited (chr_star :: chr_star :: d)) repl (chr_star :: c :: s)
    = chr_star :: sub (delimited (chr_star :: chr_star :: d)) repl (c :: s).
Proof.
  intros Hc. rewrite sub_delimited_cons.
  assert (E : match_at (delimited (chr_star :: chr_star :: d))
                       (chr_star :: c :: s) = None).
  { unfold match_at, delimited, PlusLazy. cbn [pre grp post rmatch].
    assert (P : strip_prefix (chr_star :: chr_star :: d) (chr_star :: c :: s)
                = None).
    { cbn [strip_prefix]. rewrite N.eqb_refl.
      destruct (N.eqb_spec chr_star c); [congruence | reflexivity]. }
    rewrite P. reflexivity. }
  rewrite E. reflexivity.
Qed.

Lemma sub_two_stars (d : pystr) repl (c : char) (s : pystr) :
  c <> chr_star ->
  sub (delimited (chr_star :: chr_star :: chr_star :: d)) repl
      (chr_star :: chr_star :: c :: s)
    = chr_star :: chr_star ::
      sub (delimited (chr_star :: chr_star :: chr_star :: d)) repl (c :: s).
Proof.
  intros Hc. rewrite sub_delimited_cons.
  assert (E : match_at (delimited (chr_star :: chr_star :: chr_star :: d))
                       (chr_star :: chr_star :: c :: s) = None).
  { unfold match_at, delimited, PlusLazy. cbn [pre grp post rmatch].
    assert (P : strip_prefix (chr_star :: chr_star :: chr_star :: d)
                             (chr_star :: chr_star :: c :: s) = None).
    { cbn [strip_prefix]. rewrite !N.eqb_refl.
      destruct (N.eqb_spec chr_star c); [congruence | reflexivity]. }
    rewrite P. reflexivity. }
  rewrite E. f_equal. apply sub_one_star. assumption.
Qed.

(** The same before a non-empty text without asterisks. *)
Lemma sub_one_star_text (d : pystr) repl (y s : pystr) :
  y <> [] -> ~ In chr_star y ->
  sub (delimited (chr_star :: chr_star :: d)) repl (chr_star :: y ++ s)
    = chr_star :: y ++ sub (delimited (chr_star :: chr_star :: d)) repl s.
Proof.
  intros Hne Hy. destruct y as [|c y]; [congruence|].
  cbn [app]. rewrite sub_one_star
    by (intros ->; apply Hy; left; reflexivity).
  f_equal. apply (sub_delimited_skip chr_star (chr_star :: d) repl (c :: y) s).
  assumption.
Qed.

Lemma sub_two_stars_text (d : pystr) repl (y s : pystr) :
  y <> [] -> ~ In chr_star y ->
  sub (delimited (chr_star :: chr_star :: chr_star :: d)) repl
      (chr_star :: chr_star :: y ++ s)
    = chr_star :: chr_star :: y
      ++ sub (delimited (chr_star :: chr_star :: chr_star :: d)) repl s.
Proof.
  intros Hne Hy. destruct y as [|c y]; [congruence|].
  cbn [app]. rewrite sub_two_stars
    by (intros ->; apply Hy; left; reflexivity).
  do 2 f_equal.
  apply (sub_delimited_skip chr_star _ repl (c :: y) s). assumption.
Qed.

(** The equation of the substitution at a match. *)
Lemma sub_delimited_match (x : char) (d : pystr) repl (s g rest : pystr) :
  match_at (delimited (x :: d)) s = Some (g, rest) ->
  sub (delimited (x :: d)) repl s
    = repl g ++ sub (delimited (x :: d)) repl rest.
Proof.
  intros H. destruct s as [|c s].
  - apply delimited_match in H. destruct H as [H _]. discriminate.
  - rewrite sub_delimited_cons, H. reflexivity.
Qed.

Section Nested.
Variables x y z : pystr.
Hypothesis x_nonempty : x <> [].
Hypothesis y_nonempty : y <> [].
Hypothesis x_no_star : ~ In chr_star x.
Hypothesis y_no_star : ~ In chr_star y.
Hypothesis z_no_star : ~ In chr_star z.
Hypothesis x_no_newline : ~ In chr_nl x.
Hypothesis y_no_newline : ~ In chr_nl y.
Hypothesis z_no_newline : ~ In chr_nl z.

Lemma strong_open_no_star (s : pystr) :
  ~ In chr_star s -> ~ In chr_star (lit "<strong>" ++ s).
Proof.
  intros Hs Hin. apply in_app_or in Hin. destruct Hin as [H|H]; [|tauto].
  simpl in H. intuition discriminate.
Qed.

Lemma strong_close_no_star (s : pystr) :
  ~ In chr_star s -> ~ In chr_star (s ++ lit "</strong>").
Proof.
  intros Hs Hin. apply in_app_or in Hin. destruct Hin as [H|H]; [tauto|].
  simpl in H. intuition discriminate.
Qed.

Lemma strong_close_no_newline (s : pystr) :
  ~ In chr_nl s -> ~ In chr_nl (s ++ lit "</strong>").
Proof.
  intros Hs Hin. apply in_app_or in Hin. destruct Hin as [H|H]; [tauto|].
  simpl in H. intuition discriminate.
Qed.

(** Italics inside bold, with text after the italics. *)
Lemma inline_html_nested :
  z <> [] ->
  inline_html (lit "**" ++ x ++ lit "*" ++ y ++ lit "*" ++ z ++ lit "**")
    = lit "<strong>" ++ escape x ++ lit "<em>" ++ escape y ++ lit "</em>"
      ++ escape z ++ lit "</strong>".
Proof.
  intros z_nonempty.
  pose proof (escape_nonempty x x_nonempty) as Ex.
  pose proof (escape_nonempty y y_nonempty) as Ey.
  pose proof (escape_nonempty z z_nonempty) as Ez.
  pose proof (escape_star_free x x_no_star) as Sx.
  pose proof (escape_star_free y y_no_star) as Sy.
  pose proof (escape_star_free z z_no_star) as Sz.
  pose proof (escape_nl_free x x_no_newline) as Nx.
  pose proof (escape_nl_free y y_no_newline) as Ny.
  pose proof (escape_nl_free z z_no_newline) as Nz.
  unfold inline_html. rewrite !escape_app.
  change (escape (lit "**")) with (lit "**").
  change (escape (lit "*")) with (lit "*").
  set (ex := escape x) in *. set (ey := escape y) in *.
  set (ez := escape z) in *.
  assert (P1 : sub_bold_italic
                 (lit "**" ++ ex ++ lit "*" ++ ey ++ lit "*" ++ ez ++ lit "**")
               = lit "**" ++ ex ++ lit "*" ++ ey ++ lit "*" ++ ez ++ lit "**").
  { unfold sub_bold_italic.
    change (lit "***") with (chr_star :: chr_star :: chr_star :: []).
    change (lit "**" ++ ex ++ lit "*" ++ ey ++ lit "*" ++ ez ++ lit "**")
      with (chr_star :: chr_star :: ex
            ++ chr_star :: ey ++ chr_star :: ez ++ lit "**").
    rewrite sub_two_stars_text by assumption.
    rewrite (sub_one_star_text [chr_star]) by assumption.
    rewrite (sub_one_star_text [chr_star]) by assumption.
    reflexivity. }
  rewrite P1. clear P1.
  assert (L : lone_stars (ex ++ lit "*" ++ ey ++ lit "*" ++ ez) = true).
  { apply (lone_stars_then ex ey (lit "*" ++ ez)); [assumption ..|].
    rewrite <- (app_nil_r ez).
    apply (lone_stars_then [] ez []);
      [intros [] | assumption | assumption | reflexivity]. }
  assert (N : ~ In chr_nl (ex ++ lit "*" ++ ey ++ lit "*" ++ ez)).
  { intros Hin. repeat (apply in_app_or in Hin; destruct Hin as [Hin|Hin]);
      try tauto; simpl in Hin; intuition discriminate. }
  assert (P2 : sub_bold
                 (lit "**" ++ ex ++ lit "*" ++ ey ++ lit "*" ++ ez ++ lit "**")
               = lit "<strong>" ++ (ex ++ lit "*" ++ ey ++ lit "*" ++ ez)
                 ++ lit "</strong>").
  { assert (G : ex ++ lit "*" ++ ey ++ lit "*" ++ ez <> [])
      by (destruct ex; [congruence | discriminate]).
    pose proof (delimited_match_lone _ [] G N L) as M.
    rewrite <- !app_assoc, app_nil_r in M.
    unfold sub_bold.
    rewrite (sub_delimited_match chr_star [chr_star] _ _ _ _ M).
    rewrite sub_nil, app_nil_r. reflexivity. }
  rewrite P2. clear P2.
  unfold sub_italic. rewrite <- !app_assoc.
  rewrite (app_assoc (lit "<strong>") ex).
  rewrite (sub_delimited_skip chr_star [])
    by (apply strong_open_no_star; assumption).
  pose proof (delimited_match_complete [] ey (ez ++ lit "</strong>")
                Ey Sy Ny) as M.
  rewrite (sub_delimited_match chr_star [] _ _ _ _ M).
  rewrite sub_delimited_id by (apply strong_close_no_star; assumption).
  unfold wrap. rewrite <- !app_assoc. reflexivity.
Qed.

(** Italics inside bold, closed together with it. *)
Lemma inline_html_crossed :
  inline_html (lit "**" ++ x ++ lit "*" ++ y ++ lit "***")
    = lit "<strong>" ++ escape x ++ lit "<em>" ++ escape y
      ++ lit "</strong>" ++ lit "</em>".
Proof.
  pose proof (escape_nonempty x x_nonempty) as Ex.
  pose proof (escape_nonempty y y_nonempty) as Ey.
  pose proof (escape_star_free x x_no_star) as Sx.
  pose proof (escape_star_free y y_no_star) as Sy.
  pose proof (escape_nl_free x x_no_newline) as Nx.
  pose proof (escape_nl_free y y_no_newline) as Ny.
  unfold inline_html. rewrite !escape_app.
  change (escape (lit "**")) with (lit "**").
  change (escape (lit "*")) with (lit "*").
  change (escape (lit "***")) with (lit "***").
  set (ex := escape x) in *. set (ey := escape y) in *.
  assert (P1 : sub_bold_italic (lit "**" ++ ex ++ lit "*" ++ ey ++ lit "***")
               = lit "**" ++ ex ++ lit "*" ++ ey ++ lit "***").
  { unfold sub_bold_italic.
    change (lit "***") with (chr_star :: chr_star :: chr_star :: []) at 1.
    change (lit "**" ++ ex ++ lit "*" ++ ey ++ lit "***")
      with (chr_star :: chr_star :: ex ++ chr_star :: ey ++ lit "***").
    rewrite sub_two_stars_text by assumption.
    rewrite (sub_one_star_text [chr_star]) by assumption.
    reflexivity. }
  rewrite P1. clear P1.
  assert (L : lone_stars (ex ++ lit "*" ++ ey) = true).
  { rewrite <- (app_nil_r ey).
    apply (lone_stars_then ex ey []); [assumption ..| reflexivity]. }
  assert (N : ~ In chr_nl (ex ++ lit "*" ++ ey)).
  { intros Hin. repeat (apply in_app_or in Hin; destruct Hin as [Hin|Hin]);
      try tauto; simpl in Hin; intuition discriminate. }
  assert (P2 : sub_bold (lit "**" ++ ex ++ lit "*" ++ ey ++ lit "***")
               = lit "<strong>" ++ (ex ++ lit "*" ++ ey)
                 ++ lit "</strong>" ++ lit "*").
  { assert (G : ex ++ lit "*" ++ ey <> [])
      by (destruct ex; [congruence | discriminate]).
    pose proof (delimited_match_lone _ (lit "*") G N L) as M.
    rewrite <- !app_assoc in M.
    unfold sub_bold.
    change (lit "***") with (lit "**" ++ lit "*").
    rewrite (sub_delimited_match chr_star [chr_star] _ _ _ _ M).
    assert (T : sub (delimited (chr_star :: [chr_star]))
                    (wrap (lit "<strong>") (lit "</strong>")) (lit "*")
                = lit "*") by (vm_compute; reflexivity).
    rewrite T. unfold wrap. rewrite <- !app_assoc. reflexivity. }
  rewrite P2. clear P2.
  unfold sub_italic. rewrite <- !app_assoc.
  rewrite (app_assoc (lit "<strong>") ex).
  rewrite (sub_delimited_skip chr_star [])
    by (apply strong_open_no_star; assumption).
  assert (G : ey ++ lit "</strong>" <> [])
    by (destruct ey; [congruence | discriminate]).
  pose proof (delimited_match_complete [] (ey ++ lit "</strong>") [] G
                (strong_close_no_star ey Sy)
                (strong_close_no_newline ey Ny)) as M.
  rewrite <- !app_assoc in M.
  rewrite (sub_delimited_match chr_star [] _ _ _ _ M).
  rewrite sub_nil. unfold wrap. rewrite <- !app_assoc. reflexivity.
Qed.
End Nested.

(** X25. Italics inside bold. For texts [x], [y] and [z] without asterisks
    and line breaks, [x] and [y] not empty: [**x*y*z**] with [z] not empty
    gives the italics nested in the bold; and [**x*y***], where the two
    close together, gives a bold element closed before the italics opened
    inside it, the two closing tags crossing. *)
Theorem italics_inside_bold :
  forall x y z : pystr,
    x <> [] -> y <> [] ->
    ~ In chr_star x -> ~ In chr_star y -> ~ In chr_star z ->
    ~ In chr_nl x -> ~ In chr_nl y -> ~ In chr_nl z ->
    (z <> [] ->
     inline_html (lit "**" ++ x ++ lit "*" ++ y ++ lit "*" ++ z ++ lit "**")
       = lit "<strong>" ++ escape x ++ lit "<em>" ++ escape y ++ lit "</em>"
         ++ escape z ++ lit "</strong>")
    /\ inline_html (lit "**" ++ x ++ lit "*" ++ y ++ lit "***")
       = lit "<strong>" ++ escape x ++ lit "<em>" ++ escape y
         ++ lit "</strong>" ++ lit "</em>".
Proof.
  intros x y z Hx Hy Sx Sy Sz Nx Ny Nz. split.
  - intros Hz. apply inline_html_nested; assumption.
  - apply inline_html_crossed; assumption.
Qed.

Lemma italics_inside_bold_witness :
  inline_html (lit "**Can sing the *Hello* song.**")
    = lit "<strong>Can sing the <em>Hello</em> song.</strong>"
  /\ inline_html (lit "**a <*b***")
     = lit "<strong>a &lt;<em>b</strong></em>".
Proof.
  split.
  - apply (proj1 (italics_inside_bold
                    (lit "Can sing the ") (lit "Hello") (lit " song.")
                    ltac:(discriminate) ltac:(discriminate)
                    ltac:(simpl; intuition discriminate)
                    ltac:(simpl; intuition discriminate)
                    ltac:(simpl; intuition discriminate)
                    ltac:(simpl; intuition discriminate)
                    ltac:(simpl; intuition discriminate)
                    ltac:(simpl; intuition discriminate))).
    discriminate.
  - apply (proj2 (italics_inside_bold
                    (lit "a <") (lit "b") []
                    ltac:(discriminate) ltac:(discriminate)
                    ltac:(simpl; intuition discriminate)
                    ltac:(simpl; intuition discriminate)
                    ltac:(simpl; intuition discriminate)
                    ltac:(simpl; intuition discriminate)
                    ltac:(simpl; intuition discriminate)
                    ltac:(simpl; intuition discriminate))).
Defined.
